(** * BGXRipper: the BLE acquisition pipeline of [main.py]

    A shallow embedding of [gather_bgx_data] and [animate_progress_bar]
    (src/main.py), with the service filter of the sibling script
    src/mainpretty.py for comparison.

    The BLE host stack (bleak) is an external collaborator.  It is modelled
    as a [Host]: a script of answers, indexed by the number of the
    invocation, so that a theorem quantified over every [Host] speaks about
    every behaviour of the peripheral.  The coroutine runs in a small
    exception-and-trace monad [M]; every host-stack invocation, every
    suspension and every printed line is an [event] of the trace.

    Durations ([scan_timeout], [retry_delay], [connection_timeout], clock
    readings) are Python floats in the source.  The model covers their
    finite values, the rationals [Q] that are binary64 numbers; the
    arguments [inf] and [nan], which [float()] also parses, are outside
    it.  Durations are only passed on to the host stack, except in the
    progress bar, whose arithmetic is that of binary64 ([Binary64]): every
    operation is rounded to the nearest binary64 number. *)

From Stdlib Require Import List String Ascii Bool Arith ZArith QArith Qround Qminmax
  Qabs Qpower Qreduction DecimalString Lia Lqa.
Import ListNotations.
Local Open Scope string_scope.
Local Open Scope list_scope.

(** ** Strings: [str.lower] and the substring test [needle in hay] *)

Module Str.

(** [str.lower] on the bytes of a UTF-8 string: only A..Z change.  For the
    three needles used by the service filter (none of which contains a
    letter that a non-ASCII code point lowers to) this agrees with
    Python's Unicode-aware [lower] followed by [in]. *)
Definition lower_ascii (c : ascii) : ascii :=
  let n := nat_of_ascii c in
  if (65 <=? n)%nat && (n <=? 90)%nat then ascii_of_nat (n + 32) else c.

Fixpoint lower (s : string) : string :=
  match s with
  | EmptyString => EmptyString
  | String c t => String (lower_ascii c) (lower t)
  end.

(** [needle in hay] for two [str] operands. *)
Fixpoint contains (needle hay : string) : bool :=
  if String.prefix needle hay then true
  else match hay with
       | EmptyString => false
       | String _ t => contains needle t
       end.

(** [x in xs] for a [str] and a list of [str]: equality with one element. *)
Definition mem (x : string) (xs : list string) : bool :=
  existsb (String.eqb x) xs.

End Str.

(** ** Data model *)

(** [BLEDevice]: the opaque handle returned by a scan. *)
Record BLEDevice := { dev_address : string; dev_name : string }.

(** [BleakGATTCharacteristic]: [properties] is bleak's list of tags. *)
Record Characteristic := {
  char_uuid : string;
  properties : list string
}.

(** [BleakGATTService]. *)
Record Service := {
  svc_uuid : string;
  description : string;
  characteristics : list Characteristic
}.

Definition bytes := list Byte.byte.

(** Faults a host-stack call can raise, and the Python exceptions of the
    run.  [UnboundLocalError] is a subclass of [NameError]. *)
Inductive fault :=
| Timeout                       (* asyncio.TimeoutError *)
| Protocol (msg : string).      (* bleak.exc.BleakError *)

Inductive exn :=
| UnboundLocalError (name : string)
| TimeoutError
| BleakError (msg : string)
| ZeroDivisionError
| OverflowError
| ValueError
| CancelledError.

Definition exn_of_fault (f : fault) : exn :=
  match f with
  | Timeout => TimeoutError
  | Protocol msg => BleakError msg
  end.

Definition is_NameError (e : exn) : bool :=
  match e with UnboundLocalError _ => true | _ => false end.

(** The outcome of an evaluation: a value or a raised exception. *)
Inductive res (A : Type) :=
| Val (a : A)
| Exc (e : exn).
Arguments Val {A} a.
Arguments Exc {A} e.

Definition and_then {A B} (r : res A) (k : A -> res B) : res B :=
  match r with
  | Val a => k a
  | Exc e => Exc e
  end.

Inductive answer (A : Type) :=
| Ok (a : A)
| Raises (f : fault).
Arguments Ok {A} a.
Arguments Raises {A} f.

(** ** Python floats: IEEE 754 binary64

    A finite float is a rational [m * 2^k] with [|m| < 2^53] and
    [-1074 <= k], below [2^1024] in absolute value.  An operation on
    floats returns the exact result rounded to the nearest such number,
    ties to the even significand, and an infinity when the rounded result
    reaches [2^1024].  The sign of a zero is not kept: the code below
    cannot observe it ([int], [<] and [>=] do not). *)

Module Binary64.

Inductive float :=
| Finite (x : Q)
| Infinity (negative : bool)
| NaN.

Definition two (k : Z) : Q := 2 ^ k.

(** [floor (log2 x)] for [x > 0]. *)
Definition ilog2 (x : Q) : Z :=
  let l := (Z.log2 (Qnum x) - Z.log2 (Zpos (Qden x)))%Z in
  if Qle_bool (two l) x then l else (l - 1)%Z.

(** The exponent of the last place of the floats around [x]: 52 places
    below the leading bit, and never below that of the subnormals. *)
Definition exponent (x : Q) : Z := Z.max (-1074) (ilog2 (Qabs x) - 52).

(** The nearest integer, ties to even. *)
Definition nearest_even (y : Q) : Z :=
  let f := Qfloor y in
  match Qcompare (y - inject_Z f) (1 # 2) with
  | Lt => f
  | Gt => (f + 1)%Z
  | Eq => if Z.even f then f else (f + 1)%Z
  end.

(** The nearest multiple of [2 ^ exponent x], before the test for
    overflow. *)
Definition nearest (x : Q) : Q :=
  inject_Z (nearest_even (x / two (exponent x))) * two (exponent x).

Definition negative (x : Q) : bool := negb (Qle_bool 0 x).

(** The float that an operation with the exact result [x] returns. *)
Definition round (x : Q) : float :=
  if Qeq_bool x 0 then Finite 0
  else
    let v := nearest x in
    if Qle_bool (two 1024) (Qabs v) then Infinity (negative x)
    else Finite (Qred v).

(** [x] is a binary64 number. *)
Definition representable (x : Q) : Prop :=
  exists m k : Z,
    x == inject_Z m * two k
    /\ (Z.abs m < 2 ^ 53)%Z /\ (-1074 <= k)%Z /\ Qabs x < two 1024.

(** [a * b] *)
Definition mul (a b : float) : float :=
  match a, b with
  | NaN, _ | _, NaN => NaN
  | Finite x, Finite y => round (x * y)
  | Finite x, Infinity s | Infinity s, Finite x =>
      if Qeq_bool x 0 then NaN else Infinity (xorb s (negative x))
  | Infinity s, Infinity s' => Infinity (xorb s s')
  end.

(** [x / y] for two finite floats; division by zero raises. *)
Definition div (x y : Q) : res float :=
  if Qeq_bool y 0 then Exc ZeroDivisionError else Val (round (x / y)).

(** [a / b] for two [int]: the exact quotient, rounded once. *)
Definition int_div (a b : Z) : res float :=
  if (b =? 0)%Z then Exc ZeroDivisionError
  else match round (inject_Z a / inject_Z b) with
       | Infinity _ => Exc OverflowError
       | q => Val q
       end.

(** [a < b] and [a >= b]: false when an operand is NaN. *)
Definition ltb (a b : float) : bool :=
  match a, b with
  | NaN, _ | _, NaN => false
  | Finite x, Finite y => negb (Qle_bool y x)
  | Finite _, Infinity s => negb s
  | Infinity s, Finite _ => s
  | Infinity s, Infinity s' => s && negb s'
  end.

Definition geb (a b : float) : bool :=
  match a, b with
  | NaN, _ | _, NaN => false
  | Finite x, Finite y => Qle_bool y x
  | Finite _, Infinity s => s
  | Infinity s, Finite _ => negb s
  | Infinity s, Infinity s' => negb s || s'
  end.

End Binary64.

(** ** Progress Reporter: [animate_progress_bar] (main.py 73-102) *)

Inductive segment := Filled | Blank.

(** One [sys.stdout.write(f"\rScanning: [{bar}] {pct}%")]. *)
Record frame := { bar : list segment; percent : Z }.

Module Reporter.
Import Binary64.

Definition bar_length : Z := 40.

(** [int(x)] on a float: truncation toward zero; an infinity raises
    [OverflowError] and a NaN [ValueError]. *)
Definition py_int (x : float) : res Z :=
  match x with
  | Finite q => Val (Z.quot (Qnum q) (Zpos (Qden q)))
  | Infinity _ => Exc OverflowError
  | NaN => Exc ValueError
  end.

(** [min(a, b)]: [b] when [b < a], else [a]. *)
Definition py_min (a b : float) : float := if ltb b a then b else a.

(** [sys.maxsize] of a 64-bit build. *)
Definition maxsize : Z := 2 ^ 63 - 1.

(** [s * n] for a string [s] of [width] characters, as a list of [n]
    segments: a count outside the range of an index raises
    [OverflowError], as does a result longer than [sys.maxsize]; a count
    [n <= 0] gives the empty string.  A string within these bounds is
    taken to be allocated: the model sets no bound on the memory of the
    host. *)
Definition py_repeat {A} (width : Z) (x : A) (n : Z) : res (list A) :=
  if (n <? - maxsize - 1)%Z || (maxsize <? n)%Z then Exc OverflowError
  else if (n <=? 0)%Z then Val []
  else if (maxsize / width <? n)%Z then Exc OverflowError
  else Val (repeat x (Z.to_nat n)).

(** [min(elapsed_time / duration, 1.0)] *)
Definition progress (elapsed duration : Q) : res float :=
  and_then (div elapsed duration) (fun q => Val (py_min q (Finite 1))).

(** [int(bar_length * progress)] *)
Definition filled_length (p : float) : res Z :=
  py_int (mul (Finite (inject_Z bar_length)) p).

(** The bar and the percentage of one write (main.py 92-94), in the order
    of evaluation: the filled part, the blank part, the percentage. *)
Definition render (p : float) : res frame :=
  and_then (filled_length p) (fun n =>
  and_then (py_repeat 10 Filled n) (fun filled =>
  and_then (py_repeat 1 Blank (bar_length - n)) (fun blank =>
  and_then (py_int (mul p (Finite 100))) (fun pct =>
  Val {| bar := filled ++ blank; percent := pct |})))).







(** How the task stands when its owner cancels and awaits it. *)
Inductive task_state :=
| Suspended                   (* in [asyncio.sleep(0.1)], or not yet started *)
| Finished                    (* left the loop through [break] *)
| Failed (e : exn).

(** The loop body runs once per clock reading; [clock] lists the values of
    [time.time() - start_time] the task observes before it is cancelled.
    [asyncio.current_task().cancelled()] is false while the task runs, so
    the loop condition never ends the loop.  The final write of the empty
    string produces no output and is not recorded. *)
Fixpoint animate_progress_bar (duration : Q) (clock : list Q)
  : list frame * task_state :=
  match clock with
  | [] => ([], Suspended)
  | elapsed_time :: later =>
      match and_then (progress elapsed_time duration)
              (fun p => and_then (render p) (fun f => Val (p, f))) with
      | Exc e => ([], Failed e)
      | Val (p, f) =>
          if geb p (Finite 1) then ([f], Finished)
          else let '(ws, st) := animate_progress_bar duration later in
               (f :: ws, st)
      end
  end.

End Reporter.

(** ** Observable events

    A host-stack invocation is recorded together with the answer the host
    gives to it. *)

(** The lines of [print]. *)
Inductive line :=
| Attempting (address : string) (attempt retries : nat)
| NotFoundRetrying (attempt retries : nat)
| DeviceNotFound
| ConnectedTo (is_connected : bool)
| FoundService (uuid description : string)
| CharacteristicValue (uuid : string) (value : bytes)
| OnboardStorageData (value : bytes)
| ReadTimedOut (uuid : string)
| FailedToRead (uuid msg : string)
| ConnectionOrGatheringError (msg : string).

Inductive event :=
| Print (l : line)
| Write (f : frame)
| CreateTask (duration : Q)
| CancelTask
| AwaitTask
| FindDevice (address : string) (timeout : Q) (a : answer (option BLEDevice))
| Sleep (seconds : Q)
| Connect (device : BLEDevice) (timeout : Q) (a : answer unit)
| Disconnect
| IsConnected (a : answer bool)
| GetServices (a : answer (list Service))
| ReadGattChar (uuid : string) (a : answer bytes).

(** ** The host stack *)

Record Host := {
  (** answer of the n-th [BleakScanner.find_device_by_address] *)
  scan_answer : nat -> string -> Q -> answer (option BLEDevice);
  (** clock readings seen by the reporter task of the given attempt *)
  reporter_clock : nat -> list Q;
  connect_answer : BLEDevice -> Q -> answer unit;
  is_connected_answer : answer bool;
  get_services_answer : answer (list Service);
  (** answer of the n-th [client.read_gatt_char] *)
  read_answer : nat -> string -> answer bytes
}.

(** ** The monad of the coroutine *)

Record counters := { n_scans : nat; n_reads : nat }.

Definition M (A : Type) : Type := counters -> res A * counters * list event.

Definition ret {A} (a : A) : M A := fun c => (Val a, c, []).

Definition bind {A B} (m : M A) (k : A -> M B) : M B :=
  fun c =>
    match m c with
    | (Val a, c1, t1) => let '(r, c2, t2) := k a c1 in (r, c2, t1 ++ t2)
    | (Exc e, c1, t1) => (Exc e, c1, t1)
    end.

Definition raise {A} (e : exn) : M A := fun c => (Exc e, c, []).

Definition emit (e : event) : M unit := fun c => (Val tt, c, [e]).

(** [try: body except ...]: [handler e] is [Some k] when a clause matches. *)
Definition try_except {A} (body : M A) (handler : exn -> option (M A)) : M A :=
  fun c =>
    match body c with
    | (Exc e, c1, t1) =>
        match handler e with
        | Some k => let '(r, c2, t2) := k c1 in (r, c2, t1 ++ t2)
        | None => (Exc e, c1, t1)
        end
    | ok => ok
    end.

(** [finally]: [cleanup] runs on both exits of [body]. *)
Definition finally {A} (body : M A) (cleanup : M unit) : M A :=
  fun c =>
    match body c with
    | (r, c1, t1) =>
        match cleanup c1 with
        | (Val _, c2, t2) => (r, c2, t1 ++ t2)
        | (Exc e, c2, t2) => (Exc e, c2, t1 ++ t2)
        end
    end.

Declare Scope py_scope.
Delimit Scope py_scope with py.
Notation "x <- m ;; k" := (bind m (fun x => k))
  (at level 61, m at next level, right associativity) : py_scope.
Notation "m ;; k" := (bind m (fun _ => k))
  (at level 61, right associativity) : py_scope.
Local Open Scope py_scope.

Definition lift_answer {A} (a : answer A) : M A :=
  match a with
  | Ok v => ret v
  | Raises f => raise (exn_of_fault f)
  end.

Definition print (l : line) : M unit := emit (Print l).
Definition sleep (seconds : Q) : M unit := emit (Sleep seconds).

Definition run {A} (m : M A) : res A * list event :=
  let '(r, _, t) := m {| n_scans := 0; n_reads := 0 |} in (r, t).

(** ** Host-stack invocations *)

(** [await BleakScanner.find_device_by_address(address, timeout=...)].
    [background] are the writes of a reporter task that runs while the
    coroutine is suspended in the scan. *)
Definition find_device_by_address (h : Host) (address : string) (timeout : Q)
    (background : list event) : M (option BLEDevice) :=
  fun c =>
    let a := scan_answer h (n_scans c) address timeout in
    (match a with
     | Ok d => Val d
     | Raises f => Exc (exn_of_fault f)
     end,
     {| n_scans := S (n_scans c); n_reads := n_reads c |},
     FindDevice address timeout a :: background).

(** [await client.read_gatt_char(uuid)]. *)
Definition read_gatt_char (h : Host) (uuid : string) : M bytes :=
  fun c =>
    let a := read_answer h (n_reads c) uuid in
    (match a with
     | Ok v => Val v
     | Raises f => Exc (exn_of_fault f)
     end,
     {| n_scans := n_scans c; n_reads := S (n_reads c) |},
     [ReadGattChar uuid a]).

(** [await client.is_connected()] *)
Definition is_connected (h : Host) : M bool :=
  emit (IsConnected (is_connected_answer h)) ;;
  lift_answer (is_connected_answer h).

(** [await client.get_services()] *)
Definition get_services (h : Host) : M (list Service) :=
  emit (GetServices (get_services_answer h)) ;;
  lift_answer (get_services_answer h).

(** [async with BleakClient(device, timeout=...) as client: body].
    [__aenter__] connects; when it raises, the block and [__aexit__] are
    skipped.  Otherwise [__aexit__] disconnects on every exit of the block;
    the disconnection itself is taken not to raise. *)
Definition with_BleakClient {A} (h : Host) (device : BLEDevice) (timeout : Q)
    (body : M A) : M A :=
  emit (Connect device timeout (connect_answer h device timeout)) ;;
  lift_answer (connect_answer h device timeout) ;;
  finally body (emit Disconnect).

(** ** The reporter task as seen by its owner *)

Record task := { task_frames : list frame; task_state : Reporter.task_state }.

(** [asyncio.create_task(animate_progress_bar(scan_timeout))] *)
Definition create_task (h : Host) (attempt : nat) (duration : Q) : M task :=
  emit (CreateTask duration) ;;
  let '(ws, st) := Reporter.animate_progress_bar duration (reporter_clock h attempt) in
  ret {| task_frames := ws; task_state := st |}.

Definition task_writes (t : option task) : list event :=
  match t with
  | Some t => map Write (task_frames t)
  | None => []
  end.

(** [progress_task.cancel()]: requests the cancellation of a task that is
    not done; no effect on a task that is done. *)
Definition cancel (t : task) : M unit := emit CancelTask.

(** [await progress_task] after [cancel]: a task that was still suspended
    is cancelled and the await raises [CancelledError]; a task that left
    its loop returns; a task that failed re-raises its exception. *)
Definition await_task (t : task) : M unit :=
  emit AwaitTask ;;
  match task_state t with
  | Reporter.Suspended => raise CancelledError
  | Reporter.Finished => ret tt
  | Reporter.Failed e => raise e
  end.

(** [except asyncio.CancelledError: pass] *)
Definition cancelled_handler (e : exn) : option (M unit) :=
  match e with
  | CancelledError => Some (ret tt)
  | _ => None
  end.

(** ** Device Locator: the retry loop (main.py 22-38) *)

Definition retries : nat := 3.

(** The scans of one iteration (main.py 25-34); the result is the value of
    [device] when the iteration reaches [if device]. *)
Definition scan_attempt (h : Host) (device_address : string)
    (scan_timeout : Q) (verbose : bool) (attempt : nat)
    : M (option BLEDevice) :=
  progress_task <-
    (if verbose then
       print (Attempting device_address (attempt + 1) retries) ;;
       t <- create_task h attempt scan_timeout ;;
       ret (Some t)
     else ret None) ;;
  find_device_by_address h device_address scan_timeout
    (task_writes progress_task) ;;
  t <- match progress_task with
       | Some t => ret t
       | None => raise (UnboundLocalError "progress_task")
       end ;;
  cancel t ;;
  try_except (await_task t) cancelled_handler ;;
  find_device_by_address h device_address scan_timeout [].

(** The loop over [range(retries)], given as the list of remaining values
    of [attempt].  The result is the value of [device] after the loop. *)
Fixpoint locate (h : Host) (device_address : string)
    (retry_delay scan_timeout : Q) (verbose : bool) (attempts : list nat)
    : M (option BLEDevice) :=
  match attempts with
  | [] => ret None
  | attempt :: rest =>
      device <- scan_attempt h device_address scan_timeout verbose attempt ;;
      match device with
      | Some d => ret (Some d)
      | None =>
          print (NotFoundRetrying (attempt + 1) retries) ;;
          sleep retry_delay ;;
          locate h device_address retry_delay scan_timeout verbose rest
      end
  end.

(** ** Topology Enumerator: the service filter (main.py 52) *)

Definition relevant (service : Service) : bool :=
  Str.contains "bgx" (Str.lower (description service))
  || Str.contains "xpress" (Str.lower (description service))
  || Str.contains "gechoos" (Str.lower (description service)).

Definition relevant_services (services : list Service) : list Service :=
  filter relevant services.

(** ** Characteristic Harvester (main.py 53-67) *)

Fixpoint for_each {A} (xs : list A) (body : A -> M unit) : M unit :=
  match xs with
  | [] => ret tt
  | x :: rest => body x ;; for_each rest body
  end.

Definition readable (c : Characteristic) : bool :=
  Str.mem "read" (properties c).

(** The [try] block of one characteristic. *)
Definition read_and_print (h : Host) (characteristic_uuid : string)
    (c : Characteristic) : M unit :=
  sleep 1 ;;
  value <- read_gatt_char h (char_uuid c) ;;
  print (CharacteristicValue (char_uuid c) value) ;;
  if String.eqb (char_uuid c) characteristic_uuid then
    onboard_storage <- read_gatt_char h (char_uuid c) ;;
    print (OnboardStorageData onboard_storage)
  else ret tt.

Definition read_handler (c : Characteristic) (e : exn) : option (M unit) :=
  match e with
  | TimeoutError => Some (print (ReadTimedOut (char_uuid c)))
  | BleakError msg => Some (print (FailedToRead (char_uuid c) msg))
  | _ => None
  end.

Definition harvest_characteristic (h : Host) (characteristic_uuid : string)
    (c : Characteristic) : M unit :=
  if readable c then
    try_except (read_and_print h characteristic_uuid c) (read_handler c)
  else ret tt.

Definition harvest_service (h : Host) (characteristic_uuid : string)
    (service : Service) : M unit :=
  print (FoundService (svc_uuid service) (description service)) ;;
  for_each (characteristics service) (harvest_characteristic h characteristic_uuid).

Definition harvest (h : Host) (characteristic_uuid : string)
    (services : list Service) : M unit :=
  for_each services (harvest_service h characteristic_uuid).

(** ** The pipeline: [gather_bgx_data] (main.py 9-69) *)

Definition connected_phase (h : Host) (characteristic_uuid : string)
    (verbose : bool) : M unit :=
  connected <- is_connected h ;;
  (if verbose then print (ConnectedTo connected) else ret tt) ;;
  services <- get_services h ;;
  harvest h characteristic_uuid (relevant_services services).

Definition connection_handler (e : exn) : option (M unit) :=
  match e with
  | BleakError msg => Some (print (ConnectionOrGatheringError msg))
  | _ => None
  end.

Definition gather_bgx_data (h : Host)
    (device_address service_uuid characteristic_uuid : string)
    (connection_timeout retry_delay scan_timeout : Q) (verbose : bool)
    : M unit :=
  device <- locate h device_address retry_delay scan_timeout verbose
              (seq 0 retries) ;;
  match device with
  | None => print DeviceNotFound
  | Some d =>
      try_except
        (with_BleakClient h d connection_timeout
           (connected_phase h characteristic_uuid verbose))
        connection_handler
  end.

(** ** The sibling script mainpretty.py *)

Module MainPretty.

(** The service filter of mainpretty.py 67-70. *)
Definition relevant (service_uuid : string) (service : Service) : bool :=
  String.eqb (svc_uuid service) service_uuid
  || Str.contains "xpress" (Str.lower (description service))
  || Str.contains "gechoos" (Str.lower (description service)).

(** The retry loop of mainpretty.py 46-54.  The trace records the lines
    and the host-stack invocations of the loop; the frames that the
    blocking animation writes before each scan of a run with [verbose]
    (none in a run without it) invoke nothing on the host stack and are
    not events of the trace: they are modelled apart, by
    [Pretty.animate_progress_bar]. *)
Fixpoint locate (h : Host) (device_address : string)
    (retry_delay scan_timeout : Q) (verbose : bool) (attempts : list nat)
    : M (option BLEDevice) :=
  match attempts with
  | [] => ret None
  | attempt :: rest =>
      (if verbose then print (Attempting device_address (attempt + 1) retries)
       else ret tt) ;;
      device <- find_device_by_address h device_address scan_timeout [] ;;
      match device with
      | Some d => ret (Some d)
      | None =>
          print (NotFoundRetrying (attempt + 1) retries) ;;
          sleep retry_delay ;;
          locate h device_address retry_delay scan_timeout verbose rest
      end
  end.

End MainPretty.

(** ** The claims in the words of the specification *)

Module Spec.

(** "a service is relevant if its UUID equals targetServiceId, OR its
    description (case-insensitive) contains any of a fixed set of
    vendor-name substrings (bgx, xpress, gechoos)" *)
Definition vendor_substrings : list string := ["bgx"; "xpress"; "gechoos"].

Definition relevant (targetServiceId : string) (service : Service) : bool :=
  String.eqb (svc_uuid service) targetServiceId
  || existsb (fun v => Str.contains v (Str.lower (description service)))
       vendor_substrings.

(** "capability check is case-insensitive substring match against the
    declared property tags" *)
Definition readable (c : Characteristic) : bool :=
  existsb (fun tag => Str.contains "read" (Str.lower tag)) (properties c).

End Spec.

(** ** Observers of a trace *)

(** The line that reports a read fault on a characteristic. *)
Definition read_fault_notice (uuid : string) (f : fault) : line :=
  match f with
  | Timeout => ReadTimedOut uuid
  | Protocol msg => FailedToRead uuid msg
  end.

(** The UUIDs of the reads that directly follow a throttle suspension: one
    per attempt of the harvest loop. *)
Fixpoint attempted (t : list event) : list string :=
  match t with
  | [] => []
  | Sleep _ :: rest =>
      match rest with
      | ReadGattChar uuid _ :: _ => uuid :: attempted rest
      | _ => attempted rest
      end
  | _ :: rest => attempted rest
  end.



Definition is_scan (e : event) : bool :=
  match e with FindDevice _ _ _ => true | _ => false end.

Definition is_connect (e : event) : bool :=
  match e with Connect _ _ _ => true | _ => false end.

(** The printed lines and the suspensions of the coroutine, without the
    host-stack invocations and the reporter's writes. *)
Definition is_notice (e : event) : bool :=
  match e with Print _ | Sleep _ => true | _ => false end.

Definition notices (t : list event) : list event := filter is_notice t.

Definition is_sleep (e : event) : bool :=
  match e with Sleep _ => true | _ => false end.

Definition scans (t : list event) : list event := filter is_scan t.

(** The lines that the faults answered by the host call for: one line per
    fault that one of the two [try] statements names. *)
Definition expected_report (e : event) : list line :=
  match e with
  | ReadGattChar uuid (Raises f) => [read_fault_notice uuid f]
  | Connect _ _ (Raises (Protocol msg)) => [ConnectionOrGatheringError msg]
  | IsConnected (Raises (Protocol msg)) => [ConnectionOrGatheringError msg]
  | GetServices (Raises (Protocol msg)) => [ConnectionOrGatheringError msg]
  | _ => []
  end.

(** The fault lines that were printed. *)
Definition fault_line (e : event) : list line :=
  match e with
  | Print (ReadTimedOut uuid) => [ReadTimedOut uuid]
  | Print (FailedToRead uuid msg) => [FailedToRead uuid msg]
  | Print (ConnectionOrGatheringError msg) => [ConnectionOrGatheringError msg]
  | _ => []
  end.

Definition expected_reports (t : list event) : list line := flat_map expected_report t.
Definition fault_lines (t : list event) : list line := flat_map fault_line t.

Definition segment_eq_dec (a b : segment) : {a = b} + {a <> b}.
Proof. decide equality. Defined.

(** Every read that the host answers with a fault is directly followed by
    the line that reports it. *)
Fixpoint faults_reported (t : list event) : Prop :=
  match t with
  | [] => True
  | ReadGattChar uuid (Raises f) :: rest =>
      (exists t3, rest = Print (read_fault_notice uuid f) :: t3)
      /\ faults_reported rest
  | _ :: rest => faults_reported rest
  end.

(** What precedes a read of [uuid] that is accounted for: the throttle
    suspension of the loop body (the read is the attempt of its
    characteristic), or the suspension, the successful read and the value
    line of the target characteristic (the read is its second read). *)
Definition read_accounted (target : string) (before : list event)
    (uuid : string) : Prop :=
  (exists t0, before = t0 ++ [Sleep 1])
  \/ (uuid = target
      /\ exists t0 v,
           before = t0 ++ [Sleep 1; ReadGattChar uuid (Ok v);
                           Print (CharacteristicValue uuid v)]).

(** Every read of the trace is accounted for. *)
Definition reads_accounted (target : string) (t : list event) : Prop :=
  forall t1 uuid a t2,
    t = t1 ++ ReadGattChar uuid a :: t2 -> read_accounted target t1 uuid.

(** The events of the loop body on the characteristic [c] (main.py
    57-67). *)
Definition characteristic_event (target : string) (c : Characteristic)
    (e : event) : Prop :=
  match e with
  | Sleep s => s = 1
  | ReadGattChar uuid _ => uuid = char_uuid c
  | Print (CharacteristicValue uuid _) => uuid = char_uuid c
  | Print (OnboardStorageData _) => char_uuid c = target
  | Print (ReadTimedOut uuid) => uuid = char_uuid c
  | Print (FailedToRead uuid _) => uuid = char_uuid c
  | _ => False
  end.

(** The events of the readable characteristics of the service [s]. *)
Definition service_event (target : string) (s : Service) (e : event) : Prop :=
  exists c, In c (characteristics s) /\ readable c = true
            /\ characteristic_event target c e.

(** The message of a protocol fault raised by the connection, the liveness
    query or the service listing. *)
Definition connection_fault (e : event) : option string :=
  match e with
  | Connect _ _ (Raises (Protocol msg)) => Some msg
  | IsConnected (Raises (Protocol msg)) => Some msg
  | GetServices (Raises (Protocol msg)) => Some msg
  | _ => None
  end.

(** What ends the run: nothing follows the line that the device was not
    found, and a protocol fault of the connection phase is followed by
    its line only, after the disconnection when the connection was open. *)
Fixpoint ends_the_run (t : list event) : Prop :=
  match t with
  | [] => True
  | e :: rest =>
      (e = Print DeviceNotFound -> rest = [])
      /\ (forall msg, connection_fault e = Some msg ->
            rest = [Print (ConnectionOrGatheringError msg)]
            \/ rest = [Disconnect; Print (ConnectionOrGatheringError msg)])
      /\ ends_the_run rest
  end.

(** An event that does not end the run. *)
Definition goes_on (e : event) : Prop :=
  e <> Print DeviceNotFound /\ connection_fault e = None.

(** [step_of body x t]: [t] is the trace of one run of [body x] that
    returns. *)
Definition step_of {A} (body : A -> M unit) (x : A) (t : list event) : Prop :=
  exists c1 c2, body x c1 = (Val tt, c2, t).

(** The counters after [k] more reads or scans. *)
Definition bump_reads (k : nat) (c : counters) : counters :=
  {| n_scans := n_scans c; n_reads := k + n_reads c |}.

Definition bump_scans (k : nat) (c : counters) : counters :=
  {| n_scans := k + n_scans c; n_reads := n_reads c |}.

(** A trace is settled when it is empty or ends with a printed line. *)
Definition settled (t : list event) : Prop :=
  t = [] \/ exists t' l, t = t' ++ [Print l].

(** What the trace [t] of harvesting the characteristics [cs] satisfies. *)
Record harvested (cs : list Characteristic) (t : list event) : Prop := {
  hv_settled : settled t;
  hv_attempted : attempted t = map char_uuid (filter readable cs);
  hv_reported : faults_reported t;
  hv_lines : fault_lines t = expected_reports t
}.

(** The clock readings of every reporter task are not negative: the
    system clock is not set back during a scan. *)
Definition clock_not_negative (h : Host) : Prop :=
  forall attempt, Forall (fun e => 0 <= e) (reporter_clock h attempt).

(** An event of the discovery phase: no connection, no fault line and no
    fault that a [try] statement names. *)
Definition locator_event (e : event) : Prop :=
  fault_line e = [] /\ expected_report e = [] /\ is_connect e = false.

(** The events of one iteration of the retry loop up to [if device], when
    the two scans answer [x1] and [x2] and the reporter writes [ws]. *)
Definition attempt_trace (address : string) (scan_timeout : Q) (attempt : nat)
    (ws : list frame) (x1 x2 : option BLEDevice) : list event :=
  [Print (Attempting address (attempt + 1) retries); CreateTask scan_timeout;
   FindDevice address scan_timeout (Ok x1)]
  ++ map Write ws
  ++ [CancelTask; AwaitTask; FindDevice address scan_timeout (Ok x2)].

(** The line that the outer [try] statement prints for the exception that
    leaves the connected block. *)
Definition outer_report (r : res unit) : list line :=
  match r with
  | Exc (BleakError msg) => [ConnectionOrGatheringError msg]
  | _ => []
  end.

Definition caught_outside (r : res unit) : Prop :=
  r = Val tt \/ exists msg, r = Exc (BleakError msg).

(** ** Scenarios *)

Module Scenario.

Definition address : string := "AA:BB:CC:DD:EE:FF".
Definition service_id : string := "F000C0E0-0451-4000-B000-000000000000".
Definition characteristic_id : string := "F000C0E1-0451-4000-B000-000000000000".

Definition device : BLEDevice :=
  {| dev_address := address; dev_name := "BGX220S" |}.

Definition C1 : Characteristic :=
  {| char_uuid := characteristic_id; properties := ["read"; "write"] |}.
Definition C2 : Characteristic :=
  {| char_uuid := "C2"; properties := ["read"] |}.
Definition write_only : Characteristic :=
  {| char_uuid := "W1"; properties := ["write"; "notify"] |}.
Definition upper_case_read : Characteristic :=
  {| char_uuid := "U1"; properties := ["READ"; "notify"] |}.
Definition encrypt_read : Characteristic :=
  {| char_uuid := "E1"; properties := ["encrypt-read"] |}.

Definition xpress_service : Service :=
  {| svc_uuid := "331a36f5-2459-45ea-9d95-6142f0c4b307";
     description := "GECHOOS Xpress Service";
     characteristics := [C1; C2] |}.
Definition battery_service : Service :=
  {| svc_uuid := "0000180f-0000-1000-8000-00805f9b34fb";
     description := "Battery Service";
     characteristics := [C2] |}.
(** The configured target service, under a description without a vendor
    name. *)
Definition target_service : Service :=
  {| svc_uuid := service_id;
     description := "Unknown";
     characteristics := [C1] |}.
Definition bgx_service : Service :=
  {| svc_uuid := "331a36f5-2459-45ea-9d95-6142f0c4b307";
     description := "BGX Streaming Service";
     characteristics := [C1] |}.
Definition odd_tags_service : Service :=
  {| svc_uuid := "331a36f5-2459-45ea-9d95-6142f0c4b307";
     description := "Xpress Streaming Service";
     characteristics := [upper_case_read; encrypt_read] |}.

(** A peripheral that answers every call. *)
Definition present (services : list Service) : Host :=
  {| scan_answer := fun _ _ _ => Ok (Some device);
     reporter_clock := fun _ => [];
     connect_answer := fun _ _ => Ok tt;
     is_connected_answer := Ok true;
     get_services_answer := Ok services;
     read_answer := fun _ _ => Ok [Byte.x42] |}.

(** No peripheral in range. *)
Definition absent : Host :=
  {| scan_answer := fun _ _ _ => Ok None;
     reporter_clock := fun _ => [];
     connect_answer := fun _ _ => Raises (Protocol "Device not found");
     is_connected_answer := Ok false;
     get_services_answer := Ok [];
     read_answer := fun _ _ => Raises (Protocol "Not connected") |}.

(** The peripheral is seen by the first scan only. *)
Definition seen_once : Host :=
  {| scan_answer := fun n _ _ => if Nat.eqb n 0 then Ok (Some device) else Ok None;
     reporter_clock := fun _ => [];
     connect_answer := fun _ _ => Ok tt;
     is_connected_answer := Ok true;
     get_services_answer := Ok [xpress_service];
     read_answer := fun _ _ => Ok [Byte.x42] |}.

(** The peripheral is found but the connection attempt times out. *)
Definition connect_times_out : Host :=
  {| scan_answer := fun _ _ _ => Ok (Some device);
     reporter_clock := fun _ => [];
     connect_answer := fun _ _ => Raises Timeout;
     is_connected_answer := Ok false;
     get_services_answer := Ok [];
     read_answer := fun _ _ => Raises (Protocol "Not connected") |}.

(** The Bluetooth adapter is off: the scan itself raises. *)
Definition adapter_off : Host :=
  {| scan_answer := fun _ _ _ => Raises (Protocol "Bluetooth device is turned off");
     reporter_clock := fun _ => [];
     connect_answer := fun _ _ => Raises (Protocol "Bluetooth device is turned off");
     is_connected_answer := Ok false;
     get_services_answer := Ok [];
     read_answer := fun _ _ => Raises (Protocol "Not connected") |}.

(** A peripheral that answers every call, with a reporter that gets to run
    two ticks during every scan. *)
Definition ticking : Host :=
  {| scan_answer := fun _ _ _ => Ok (Some device);
     reporter_clock := fun _ => [0; 1 # 10];
     connect_answer := fun _ _ => Ok tt;
     is_connected_answer := Ok true;
     get_services_answer := Ok [xpress_service];
     read_answer := fun _ _ => Ok [Byte.x42] |}.

(** The first read times out, the later ones succeed. *)
Definition first_read_times_out (services : list Service) : Host :=
  {| scan_answer := fun _ _ _ => Ok (Some device);
     reporter_clock := fun _ => [];
     connect_answer := fun _ _ => Ok tt;
     is_connected_answer := Ok true;
     get_services_answer := Ok services;
     read_answer := fun n _ => if Nat.eqb n 0 then Raises Timeout else Ok [Byte.x42] |}.

(** No peripheral in range; the reporter gets to run three ticks during
    every first scan. *)
Definition out_of_range : Host :=
  {| scan_answer := fun _ _ _ => Ok None;
     reporter_clock := fun _ => [0; 1 # 8; 1 # 4];
     connect_answer := fun _ _ => Raises (Protocol "Device not found");
     is_connected_answer := Ok false;
     get_services_answer := Ok [];
     read_answer := fun _ _ => Raises (Protocol "Not connected") |}.

(** The peripheral is found and connected, and the service listing fails
    with a protocol fault. *)
Definition listing_fails : Host :=
  {| scan_answer := fun _ _ _ => Ok (Some device);
     reporter_clock := fun _ => [0; 1 # 8];
     connect_answer := fun _ _ => Ok tt;
     is_connected_answer := Ok true;
     get_services_answer := Raises (Protocol "Service Discovery has not been performed yet");
     read_answer := fun _ _ => Raises (Protocol "Not connected") |}.

End Scenario.

(** ** Python string methods of the configuration reader

    A [str] is held as the list of the bytes of its UTF-8 encoding. *)

Module PyStr.

Definition str := list ascii.

Definition code (a : ascii) : nat := nat_of_ascii a.

(** The characters that [str.strip()] removes: the code points for which
    [str.isspace] holds, by the length of their UTF-8 encoding.
    One byte: U+0009..U+000D, U+001C..U+0020. *)
Definition space1 (a : ascii) : bool :=
  (((9 <=? code a) && (code a <=? 13))
   || ((28 <=? code a) && (code a <=? 32)))%nat.

(** Two bytes: U+0085 (C2 85) and U+00A0 (C2 A0). *)
Definition space2 (a b : ascii) : bool :=
  ((code a =? 194) && ((code b =? 133) || (code b =? 160)))%nat.

(** Three bytes: U+1680 (E1 9A 80), U+2000..U+200A (E2 80 80..8A),
    U+2028, U+2029, U+202F (E2 80 A8, A9, AF), U+205F (E2 81 9F) and
    U+3000 (E3 80 80). *)
Definition space3 (a b c : ascii) : bool :=
  (((code a =? 225) && (code b =? 154) && (code c =? 128))
   || ((code a =? 226) && (code b =? 128)
       && (((128 <=? code c) && (code c <=? 138))
           || (code c =? 168) || (code c =? 169) || (code c =? 175)))
   || ((code a =? 226) && (code b =? 129) && (code c =? 159))
   || ((code a =? 227) && (code b =? 128) && (code c =? 128)))%nat.

(** Removal of the leading characters recognised by [p1], [p2], [p3]. *)
Fixpoint lstrip_with (p1 : ascii -> bool) (p2 : ascii -> ascii -> bool)
    (p3 : ascii -> ascii -> ascii -> bool) (s : str) : str :=
  match s with
  | [] => []
  | a :: t =>
      if p1 a then lstrip_with p1 p2 p3 t
      else match t with
           | [] => s
           | b :: t2 =>
               if p2 a b then lstrip_with p1 p2 p3 t2
               else match t2 with
                    | [] => s
                    | c :: t3 =>
                        if p3 a b c then lstrip_with p1 p2 p3 t3 else s
                    end
           end
  end.

Definition lstrip (s : str) : str := lstrip_with space1 space2 space3 s.

(** The trailing characters are the leading ones of the reversed string,
    with their bytes in reverse order. *)
Definition rstrip (s : str) : str :=
  rev (lstrip_with space1 (fun a b => space2 b a) (fun a b c => space3 c b a)
         (rev s)).

(** [s.strip()] *)
Definition strip (s : str) : str := rstrip (lstrip s).

Fixpoint drop_while (p : ascii -> bool) (s : str) : str :=
  match s with
  | [] => []
  | a :: t => if p a then drop_while p t else s
  end.

(** [s.strip(ch)] for a one-character argument. *)
Definition strip_char (ch : ascii) (s : str) : str :=
  rev (drop_while (Ascii.eqb ch) (rev (drop_while (Ascii.eqb ch) s))).

(** [s.split(sep)] for a one-character separator: one more part than there
    are separators. *)
Fixpoint split (sep : ascii) (s : str) : list str :=
  match s with
  | [] => [[]]
  | a :: t =>
      if Ascii.eqb a sep then [] :: split sep t
      else match split sep t with
           | part :: parts => (a :: part) :: parts
           | [] => [[a]]
           end
  end.

(** [ch in s] *)
Definition has (ch : ascii) (s : str) : bool := existsb (Ascii.eqb ch) s.

(** Truth value of a [str]. *)
Definition truthy (s : str) : bool :=
  match s with [] => false | _ => true end.

(** The number of occurrences of a character. *)
Definition occurrences (ch : ascii) (s : str) : nat := count_occ ascii_dec s ch.

(** The printable ASCII characters, U+0021..U+007E. *)
Definition printable (a : ascii) : bool :=
  ((33 <=? code a) && (code a <=? 126))%nat.

End PyStr.

(** ** The configuration reader (main.py 170-192, mainpretty.py 183-204) *)

Module Config.

Definition equals_sign : ascii := "="%char.
Definition double_quote : ascii := "034"%char.

(** The three [ValueError]s that the reader raises. *)
Inductive value_error :=
| BadFormat        (* Each line ... must be in the format key=value. *)
| MissingFields    (* Configuration file is missing required fields. *)
| EmptyField.      (* Device address, service UUID, or characteristic UUID
                      is missing or improperly formatted ... *)

Inductive outcome :=
| Parsed (device_address service_uuid characteristic_uuid : PyStr.str)
| ValueError (e : value_error)
| IndexError.

(** [[line.strip() for line in f if line.strip()]] *)
Definition stripped_lines (f : list PyStr.str) : list PyStr.str :=
  filter PyStr.truthy (map PyStr.strip f).

(** The negation of the test that raises in the loop over the lines:
    ["=" not in line or len(line.split("=")) != 2]. *)
Definition key_value (line : PyStr.str) : bool :=
  negb (negb (PyStr.has equals_sign line)
        || negb (List.length (PyStr.split equals_sign line) =? 2)%nat).

(** [lines[i].split("=")[1].strip()] with the double quotes then stripped
    from both ends; an index out of range raises [IndexError]. *)
Definition field (lines : list PyStr.str) (i : nat) : option PyStr.str :=
  match nth_error lines i with
  | None => None
  | Some line =>
      match nth_error (PyStr.split equals_sign line) 1 with
      | None => None
      | Some v => Some (PyStr.strip_char double_quote (PyStr.strip v))
      end
  end.

(** The body of the [with] statement, on the lines that iterating over the
    file yields. *)
Definition read_config (f : list PyStr.str) : outcome :=
  let lines := stripped_lines f in
  if negb (forallb key_value lines) then ValueError BadFormat
  else if (List.length lines <? 3)%nat then ValueError MissingFields
  else
    match field lines 0 with
    | None => IndexError
    | Some device_address =>
        match field lines 1 with
        | None => IndexError
        | Some service_uuid =>
            match field lines 2 with
            | None => IndexError
            | Some characteristic_uuid =>
                if negb (PyStr.truthy device_address)
                   || negb (PyStr.truthy service_uuid)
                   || negb (PyStr.truthy characteristic_uuid)
                then ValueError EmptyField
                else Parsed device_address service_uuid characteristic_uuid
            end
        end
    end.

(** Every line that is not blank has, once stripped, one equals sign. *)
Definition all_key_value (f : list PyStr.str) : Prop :=
  forall line, In line f -> PyStr.strip line <> [] ->
               PyStr.occurrences equals_sign (PyStr.strip line) = 1%nat.

(** [value.strip()] with the double quotes then stripped from both ends. *)
Definition clean (value : PyStr.str) : PyStr.str :=
  PyStr.strip_char double_quote (PyStr.strip value).

(** The line [key=value]. *)
Definition key_value_line (kv : PyStr.str * PyStr.str) : PyStr.str :=
  fst kv ++ equals_sign :: snd kv.

(** A value made of printable ASCII characters other than the equals sign
    and the double quote, such as a MAC address or a UUID. *)
Definition plain_char (a : ascii) : bool :=
  PyStr.printable a && negb (Ascii.eqb a equals_sign)
  && negb (Ascii.eqb a double_quote).

Definition plain (v : PyStr.str) : Prop :=
  v <> [] /\ Forall (fun a => plain_char a = true) v.

(** A line as a user writes it: a key, the equals sign, optional ASCII
    whitespace, the value, bare or between double quotes, and trailing
    ASCII whitespace such as the end of the line. *)
Definition quoted (q : bool) (v : PyStr.str) : PyStr.str :=
  if q then double_quote :: v ++ [double_quote] else v.

Definition written_line (k pad : PyStr.str) (q : bool) (v w : PyStr.str)
  : PyStr.str :=
  k ++ equals_sign :: pad ++ quoted q v ++ w.

Definition well_written (k pad v w : PyStr.str) : Prop :=
  ~ In equals_sign k
  /\ Forall (fun a => PyStr.space1 a = true) pad
  /\ plain v
  /\ Forall (fun a => PyStr.space1 a = true) w.

Definition blank (line : PyStr.str) : Prop := PyStr.strip line = [].

(** Two stripped lines that agree on the format test and on the part after
    the equals sign. *)
Definition same_value (l l' : PyStr.str) : Prop :=
  key_value l = key_value l'
  /\ nth_error (PyStr.split equals_sign l) 1
     = nth_error (PyStr.split equals_sign l') 1.

End Config.

(** ** The script (main.py 108-195)

    [argparse] and [open] are the collaborators of the script: the model
    starts from the parsed arguments and from what opening and iterating
    over the configuration file gives.  The interrupt handler is not
    modelled. *)

Module Script.

(** The [Namespace] returned by [parser.parse_args()]. *)
Record Args := {
  config_file : string;
  connection_timeout : Q;
  retry_delay : Q;
  scan_timeout : Q;
  verbose : bool
}.

(** The values of the optional arguments when the command line gives only
    the configuration file and, possibly, [-v]. *)
Definition default_args (path : string) (v : bool) : Args :=
  {| config_file := path; connection_timeout := 10; retry_delay := 2;
     scan_timeout := 20; verbose := v |}.

(** What [open] and the iteration over the file give: the file is missing;
    the bytes of the file are not valid in the encoding of the locale
    ([UnicodeDecodeError], a [ValueError], raised by the iteration before
    any line is checked); another error that is not a [ValueError] is
    raised; or the lines. *)
Inductive opened :=
| FileNotFound
| Undecodable (msg : string)
| ReadError (msg : string)
| Lines (f : list PyStr.str).

(** What the script prints itself.  [ConfigurationError] and
    [ConfigurationNotDecoded] are both lines of the [ValueError] handler,
    "Configuration error: ..." with the message of the exception. *)
Inductive message :=
| Banner
| ConfigurationFileNotFound (path : string)
| ConfigurationError (e : Config.value_error)
| ConfigurationNotDecoded (msg : string)
| FailedToReadConfiguration (msg : string).

(** The run of the script: its own messages, the run of the coroutine when
    [asyncio.run] is reached, and the exit status of the process. *)
Record finished := {
  messages : list message;
  pipeline : option (res unit * list event);
  exit_status : Z
}.

(** [asyncio.run] re-raises the exception of the coroutine; an uncaught
    exception ends the process with status 1. *)
Definition status_of (r : res unit) : Z :=
  match r with
  | Val _ => 0
  | Exc _ => 1
  end.

Definition main (args : Args) (file : opened) (h : Host) : finished :=
  match file with
  | FileNotFound =>
      {| messages := [Banner; ConfigurationFileNotFound (config_file args)];
         pipeline := None; exit_status := 1 |}
  | Undecodable msg =>
      {| messages := [Banner; ConfigurationNotDecoded msg];
         pipeline := None; exit_status := 1 |}
  | ReadError msg =>
      {| messages := [Banner; FailedToReadConfiguration msg];
         pipeline := None; exit_status := 1 |}
  | Lines f =>
      match Config.read_config f with
      | Config.ValueError e =>
          {| messages := [Banner; ConfigurationError e];
             pipeline := None; exit_status := 1 |}
      | Config.IndexError =>
          {| messages := [Banner; FailedToReadConfiguration "list index out of range"];
             pipeline := None; exit_status := 1 |}
      | Config.Parsed device_address service_uuid characteristic_uuid =>
          let r :=
            run (gather_bgx_data h
                   (string_of_list_ascii device_address)
                   (string_of_list_ascii service_uuid)
                   (string_of_list_ascii characteristic_uuid)
                   (connection_timeout args) (retry_delay args)
                   (scan_timeout args) (verbose args)) in
          {| messages := [Banner]; pipeline := Some r;
             exit_status := status_of (fst r) |}
      end
  end.

End Script.

(** ** Properties of whole traces *)

(** Every event of every run of [m] satisfies [P]. *)
Definition always {A} (P : event -> Prop) (m : M A) : Prop :=
  forall c, Forall P (snd (m c)).

(** [m] can return [a]. *)
Definition returns {A} (m : M A) (a : A) : Prop :=
  exists c c' t, m c = (Val a, c', t).

(** The events of the discovery phase (main.py 24-38). *)
Definition discovery_event (e : event) : Prop :=
  match e with
  | Print (Attempting _ _ _) | Print (NotFoundRetrying _ _)
  | Write _ | CreateTask _ | CancelTask | AwaitTask
  | FindDevice _ _ _ | Sleep _ => True
  | _ => False
  end.

(** The events inside the [async with] block (main.py 46-67). *)
Definition session_event (e : event) : Prop :=
  match e with
  | IsConnected _ | GetServices _ | ReadGattChar _ _ | Sleep _
  | Print (ConnectedTo _) | Print (FoundService _ _)
  | Print (CharacteristicValue _ _) | Print (OnboardStorageData _)
  | Print (ReadTimedOut _) | Print (FailedToRead _ _) => True
  | _ => False
  end.

(** What may follow the end of the connection: nothing, or the line of the
    outer [except] clause. *)
Definition closing (t : list event) : Prop :=
  t = [] \/ exists msg, t = [Print (ConnectionOrGatheringError msg)].

(** The part of a run after the discovery phase. *)
Definition after_discovery (connection_timeout : Q) (t : list event) : Prop :=
  t = []
  \/ t = [Print DeviceNotFound]
  \/ (exists d f rest,
        t = Connect d connection_timeout (Raises f) :: rest /\ closing rest)
  \/ (exists d body rest,
        t = Connect d connection_timeout (Ok tt) :: body ++ Disconnect :: rest
        /\ Forall session_event body /\ closing rest).

(** Each argument of [gather_bgx_data] is used for what its docstring says. *)
Definition uses_arguments (device_address : string)
    (connection_timeout retry_delay scan_timeout : Q) (e : event) : Prop :=
  match e with
  | FindDevice a t _ => a = device_address /\ t = scan_timeout
  | CreateTask d => d = scan_timeout
  | Connect _ t _ => t = connection_timeout
  | Sleep s => s = retry_delay \/ s = 1
  | Print (Attempting a _ _) => a = device_address
  | _ => True
  end.

(** The run acts only on what the host stack gave it: it connects to a
    device that a scan returned, and it names and reads only what the
    service listing holds. *)
Definition acts_on_host_data (h : Host) (device_address : string)
    (scan_timeout : Q) (e : event) : Prop :=
  match e with
  | Connect d _ _ =>
      exists n, scan_answer h n device_address scan_timeout = Ok (Some d)
  | Print (FoundService uuid desc) =>
      exists services s,
        get_services_answer h = Ok services /\ In s services
        /\ relevant s = true /\ uuid = svc_uuid s /\ desc = description s
  | ReadGattChar uuid _ =>
      exists services s c,
        get_services_answer h = Ok services /\ In s services
        /\ relevant s = true /\ In c (characteristics s)
        /\ In "read" (properties c) /\ uuid = char_uuid c
  | _ => True
  end.

(** At most [n] events of every run of [m] satisfy [f]. *)
Definition at_most {A} (f : event -> bool) (n : nat) (m : M A) : Prop :=
  forall c, (List.length (filter f (snd (m c))) <= n)%nat.

Definition is_disconnect (e : event) : bool :=
  match e with Disconnect => true | _ => false end.

(** The number of filled segments of a frame, and the frame of a full bar. *)
Definition filled_segments (f : frame) : nat :=
  count_occ segment_eq_dec (bar f) Filled.

Definition full_frame : frame :=
  {| bar := repeat Filled 40; percent := 100 |}.

(** The frame that the reporter computes at a clock reading. *)
Definition frame_at (duration elapsed : Q) : res frame :=
  and_then (Reporter.progress elapsed duration) Reporter.render.

(** The trace of one service: its line, then the events of its
    characteristics. *)
Definition service_section (st : Service * list event) : list event :=
  Print (FoundService (svc_uuid (fst st)) (description (fst st))) :: snd st.

(** ** mainpretty.py: the progress animation and the coroutine

    [animate_progress_bar] of mainpretty.py (lines 90-108) is an ordinary
    function that blocks the program: it is called with [int(scan_timeout)]
    and draws one frame per second, [time.sleep(1)] after each, then ends
    the line.  [duration] and the loop index are [int]; the two quotients
    are true divisions of integers, rounded once to binary64. *)

Module Pretty.
Import Binary64.

Definition bar_length : Z := 40.

(** The frame written by the loop body for the index [i] (lines 100-102):
    [int(bar_length * (i + 1) / duration)] segments are filled, and the
    percentage is [int((i + 1) / duration * 100)]. *)
Definition frame_at (duration i : Z) : res frame :=
  and_then (int_div (bar_length * (i + 1)) duration) (fun q =>
  and_then (Reporter.py_int q) (fun filled_length =>
  and_then (Reporter.py_repeat 10 Filled filled_length) (fun filled =>
  and_then (Reporter.py_repeat 1 Blank (bar_length - filled_length)) (fun blank =>
  and_then (int_div (i + 1) duration) (fun r =>
  and_then (Reporter.py_int (mul r (Finite 100))) (fun pct =>
  Val {| bar := filled ++ blank; percent := pct |})))))).

(** The frames written for the remaining indices, and the exception that
    ended the loop, if any. *)
Fixpoint frames (duration : Z) (indices : list Z) : list frame * option exn :=
  match indices with
  | [] => ([], None)
  | i :: rest =>
      match frame_at duration i with
      | Exc e => ([], Some e)
      | Val f => let '(fs, r) := frames duration rest in (f :: fs, r)
      end
  end.

(** [range(n)] *)
Definition range (n : Z) : list Z := map Z.of_nat (seq 0 (Z.to_nat n)).

(** The loop over [range(int(duration))]. *)
Definition animate_progress_bar (duration : Z) : list frame * option exn :=
  frames duration (range duration).

(** The connected phase of mainpretty.py (lines 62-85): that of main.py
    with the other service filter. *)
Definition connected_phase (h : Host) (service_uuid characteristic_uuid : string)
    (verbose : bool) : M unit :=
  connected <- is_connected h ;;
  (if verbose then print (ConnectedTo connected) else ret tt) ;;
  services <- get_services h ;;
  harvest h characteristic_uuid (filter (MainPretty.relevant service_uuid) services).

(** [gather_bgx_data] of mainpretty.py (lines 31-87) in a run without
    [-v], in which the animation is not called and nothing is written but
    the lines below. *)
Definition gather_bgx_data (h : Host)
    (device_address service_uuid characteristic_uuid : string)
    (connection_timeout retry_delay scan_timeout : Q) : M unit :=
  device <- MainPretty.locate h device_address retry_delay scan_timeout false
              (seq 0 retries) ;;
  match device with
  | None => print DeviceNotFound
  | Some d =>
      try_except
        (with_BleakClient h d connection_timeout
           (connected_phase h service_uuid characteristic_uuid false))
        connection_handler
  end.

(** The events of one failed attempt of the loop without [-v]. *)
Definition failed_attempt (address : string) (retry_delay scan_timeout : Q)
    (i : nat) : list event :=
  [FindDevice address scan_timeout (Ok None);
   Print (NotFoundRetrying (i + 1) retries);
   Sleep retry_delay].

End Pretty.

(** The names that the service filter of main.py looks for. *)
Definition vendor_names : list string := ["bgx"; "xpress"; "gechoos"].
(** * Theorems *)

(** ** Binary64 arithmetic *)

Module Binary64Facts.
Import Binary64.
Local Open Scope Q_scope.

Lemma two_pos (k : Z) : 0 < two k.
Proof. apply Qpower_0_lt. reflexivity. Qed.

Lemma two_add (a b : Z) : two (a + b) == two a * two b.
Proof. apply Qpower_plus. discriminate. Qed.

Lemma two_le (a b : Z) : (a <= b)%Z -> two a <= two b.
Proof. intros H. apply Qpower_le_compat_l; [exact H | discriminate]. Qed.

Lemma two_lt (a b : Z) : (a < b)%Z -> two a < two b.
Proof. intros H. apply Qpower_lt_compat_l; [exact H | reflexivity]. Qed.

Lemma two_lt_inv (a b : Z) : two a < two b -> (a < b)%Z.
Proof. intros H. apply (Qpower_lt_compat_l_inv 2); [exact H | reflexivity]. Qed.

Lemma two_Z (a : Z) : (0 <= a)%Z -> two a == inject_Z (2 ^ a).
Proof. intros H. unfold two. now rewrite Zpower_Qpower. Qed.

Lemma two_succ (a : Z) : two (a + 1) == 2 * two a.
Proof. rewrite two_add. unfold two at 2. rewrite Qpower_1_r. ring. Qed.

Lemma two_pred (a : Z) : two a == 2 * two (a - 1).
Proof. rewrite <- two_succ. now replace (a - 1 + 1)%Z with a by lia. Qed.

(** *** Rounding to the nearest integer, ties to even *)

Lemma inject_Z_minus (a b : Z) : inject_Z (a - b) == inject_Z a - inject_Z b.
Proof. unfold Zminus. now rewrite inject_Z_plus, inject_Z_opp. Qed.

Lemma floor_bounds (y : Q) : inject_Z (Qfloor y) <= y < inject_Z (Qfloor y) + 1.
Proof.
  split; [apply Qfloor_le|].
  pose proof (Qlt_floor y) as H. rewrite inject_Z_plus in H. exact H.
Qed.

Lemma nearest_even_cases (y : Q) :
  (nearest_even y = Qfloor y /\ y - inject_Z (Qfloor y) <= 1 # 2)
  \/ (nearest_even y = (Qfloor y + 1)%Z /\ 1 # 2 <= y - inject_Z (Qfloor y)).
Proof.
  unfold nearest_even.
  destruct (Qcompare_spec (y - inject_Z (Qfloor y)) (1 # 2)) as [E|L|G].
  - destruct (Z.even (Qfloor y)); [left | right]; (split; [reflexivity|]);
      rewrite E; apply Qle_refl.
  - left. split; [reflexivity | now apply Qlt_le_weak].
  - right. split; [reflexivity | now apply Qlt_le_weak].
Qed.

Lemma nearest_even_Z (n : Z) : nearest_even (inject_Z n) = n.
Proof.
  unfold nearest_even. rewrite Qfloor_Z.
  destruct (Qcompare_spec (inject_Z n - inject_Z n) (1 # 2)) as [E|L|G].
  - exfalso. assert (H : inject_Z n - inject_Z n == 0) by ring.
    rewrite H in E. discriminate E.
  - reflexivity.
  - exfalso. assert (H : inject_Z n - inject_Z n == 0) by ring.
    rewrite H in G. discriminate G.
Qed.

Lemma nearest_even_le (y1 y2 : Q) :
  y1 <= y2 -> (nearest_even y1 <= nearest_even y2)%Z.
Proof.
  intros H. pose proof (Qfloor_resp_le _ _ H) as F.
  destruct (Z.eq_dec (Qfloor y1) (Qfloor y2)) as [E|N].
  - unfold nearest_even. rewrite <- E.
    destruct (Qcompare_spec (y1 - inject_Z (Qfloor y1)) (1 # 2)) as [E1|L1|G1];
      destruct (Qcompare_spec (y2 - inject_Z (Qfloor y1)) (1 # 2)) as [E2|L2|G2];
      try (destruct (Z.even (Qfloor y1))); try lia; exfalso; lra.
  - destruct (nearest_even_cases y1) as [[-> _]|[-> _]];
      destruct (nearest_even_cases y2) as [[-> _]|[-> _]]; lia.
Qed.

Lemma nearest_even_opp (y : Q) : nearest_even (- y) = (- nearest_even y)%Z.
Proof.
  pose proof (floor_bounds y) as [L U].
  destruct (Qeq_dec y (inject_Z (Qfloor y))) as [E|N].
  - assert (E' : - y == inject_Z (- Qfloor y)) by (rewrite inject_Z_opp; lra).
    unfold nearest_even at 1.
    rewrite (Qfloor_comp _ _ E'), Qfloor_Z.
    assert (Z0 : - y - inject_Z (- Qfloor y) == 0) by lra.
    rewrite Z0. change (Qcompare 0 (1 # 2)) with Lt.
    unfold nearest_even.
    assert (Z1 : y - inject_Z (Qfloor y) == 0) by lra.
    rewrite Z1. reflexivity.
  - assert (F : Qfloor (- y) = (- Qfloor y - 1)%Z).
    { symmetry. apply Z.le_antisymm.
      - assert (A : inject_Z (- Qfloor y - 1) <= - y).
        { rewrite inject_Z_minus, inject_Z_opp. change (inject_Z 1) with 1. lra. }
        apply Qfloor_resp_le in A. now rewrite Qfloor_Z in A.
      - assert (A : - y < inject_Z (- Qfloor y)).
        { rewrite inject_Z_opp. assert (inject_Z (Qfloor y) < y) by
            (apply Qle_lteq in L; destruct L as [L|L]; [exact L | symmetry in L; contradiction]).
          lra. }
        assert (B : (Qfloor (- y) < - Qfloor y)%Z).
        { apply Z.nle_gt. intros C. apply (Qlt_irrefl (- y)).
          eapply Qlt_le_trans; [exact A|].
          eapply Qle_trans; [|apply Qfloor_le]. now rewrite <- Zle_Qle. }
        lia. }
    unfold nearest_even. rewrite F.
    assert (R : - y - inject_Z (- Qfloor y - 1) == 1 - (y - inject_Z (Qfloor y))).
    { rewrite inject_Z_minus, inject_Z_opp. change (inject_Z 1) with 1. ring. }
    destruct (Qcompare_spec (y - inject_Z (Qfloor y)) (1 # 2)) as [E1|L1|G1];
      destruct (Qcompare_spec (- y - inject_Z (- Qfloor y - 1)) (1 # 2)) as [E2|L2|G2];
      try (exfalso; lra); try lia.
    replace (- Qfloor y - 1)%Z with (- (Qfloor y + 1))%Z by lia.
    rewrite Z.even_opp, Z.even_add. change (Z.even 1) with false.
    destruct (Z.even (Qfloor y)); cbn; lia.
Qed.

(** *** The binary logarithm *)

Lemma ilog2_spec (x : Q) :
  0 < x -> two (ilog2 x) <= x < two (ilog2 x + 1).
Proof.
  intros Hx. destruct x as [n d].
  assert (Hn : (0 < n)%Z) by (unfold Qlt in Hx; simpl in Hx; lia).
  unfold ilog2. cbn [Qnum Qden].
  set (a := Z.log2 n). set (b := Z.log2 (Z.pos d)).
  destruct (Z.log2_spec n Hn) as [An An'].
  destruct (Z.log2_spec (Z.pos d) eq_refl) as [Bd Bd'].
  fold a in An, An'. fold b in Bd, Bd'.
  assert (Ha : (0 <= a)%Z) by apply Z.log2_nonneg.
  assert (Hb : (0 <= b)%Z) by apply Z.log2_nonneg.
  pose proof (two_pos a) as PA. pose proof (two_pos b) as PB.
  pose proof (two_pos (a - b)) as PT.
  assert (TA : two (a - b) * two b == two a).
  { rewrite <- two_add. now replace (a - b + b)%Z with a by lia. }
  assert (NA : two a <= inject_Z n < 2 * two a).
  { rewrite (two_Z a Ha). split; [now rewrite <- Zle_Qle|].
    change 2 with (inject_Z 2). rewrite <- inject_Z_mult, <- Zlt_Qlt.
    rewrite Z.pow_succ_r in An' by exact Ha. lia. }
  assert (DB : two b <= inject_Z (Z.pos d) < 2 * two b).
  { rewrite (two_Z b Hb). split; [now rewrite <- Zle_Qle|].
    change 2 with (inject_Z 2). rewrite <- inject_Z_mult, <- Zlt_Qlt.
    rewrite Z.pow_succ_r in Bd' by exact Hb. lia. }
  assert (XD : (n # d) * inject_Z (Z.pos d) == inject_Z n).
  { rewrite (Qmake_Qdiv n d). field. discriminate. }
  set (X := n # d) in *. set (N := inject_Z n) in *.
  set (D := inject_Z (Z.pos d)) in *. set (A := two a) in *. set (B := two b) in *.
  set (T := two (a - b)) in *.
  destruct (Qle_bool T X) eqn:C.
  - apply Qle_bool_iff in C. split; [exact C|].
    rewrite two_succ. fold T.
    apply Qnot_le_lt. intros G. nra.
  - assert (C' : X < T).
    { apply Qnot_le_lt. intros G. apply Qle_bool_iff in G. congruence. }
    replace (a - b - 1 + 1)%Z with (a - b)%Z by lia. fold T. split; [|exact C'].
    assert (T2 : T == 2 * two (a - b - 1)) by apply two_pred.
    apply Qnot_lt_le. intros G. nra.
Qed.

Lemma ilog2_le (x y : Q) : 0 < x -> x <= y -> (ilog2 x <= ilog2 y)%Z.
Proof.
  intros Hx Hxy.
  destruct (ilog2_spec x Hx) as [L _].
  destruct (ilog2_spec y (Qlt_le_trans _ _ _ Hx Hxy)) as [_ U].
  assert (H : two (ilog2 x) < two (ilog2 y + 1)) by lra.
  apply two_lt_inv in H. lia.
Qed.

Lemma ilog2_unique (x : Q) (l : Z) :
  two l <= x < two (l + 1) -> ilog2 x = l.
Proof.
  intros [L U].
  assert (Hx : 0 < x) by (pose proof (two_pos l); lra).
  destruct (ilog2_spec x Hx) as [L' U'].
  assert (H1 : two l < two (ilog2 x + 1)) by lra.
  assert (H2 : two (ilog2 x) < two (l + 1)) by lra.
  apply two_lt_inv in H1, H2. lia.
Qed.

Lemma nearest_even_comp (y y' : Q) : y == y' -> nearest_even y = nearest_even y'.
Proof.
  intros E. apply Z.le_antisymm; apply nearest_even_le; rewrite E; apply Qle_refl.
Qed.

(** *** The exponent and the significand *)

Lemma Qabs_pos_eq (x : Q) : 0 < x -> Qabs x = x.
Proof.
  destruct x as [n d]. unfold Qlt. simpl. intros H.
  rewrite Z.abs_eq by lia. reflexivity.
Qed.

Lemma exponent_opp (x : Q) : exponent (- x) = exponent x.
Proof.
  unfold exponent. destruct x as [n d]. simpl. now rewrite Z.abs_opp.
Qed.

Lemma exponent_pos (x : Q) :
  0 < x -> exponent x = Z.max (-1074) (ilog2 x - 52).
Proof. intros H. unfold exponent. now rewrite Qabs_pos_eq. Qed.

Lemma two_53 : two 53 == inject_Z (2 ^ 53).
Proof. now apply two_Z. Qed.

Lemma two_52 : two 52 == inject_Z (2 ^ 52).
Proof. now apply two_Z. Qed.

Lemma scaled_eq (x : Q) (k : Z) : x == x / two k * two k.
Proof. field. pose proof (two_pos k). lra. Qed.

Lemma scaled_bounds (x : Q) :
  0 < x ->
  0 < x / two (exponent x) < two 53
  /\ (exponent x <> (-1074)%Z -> two 52 <= x / two (exponent x)).
Proof.
  intros Hx. rewrite (exponent_pos x Hx).
  set (k := Z.max (-1074) (ilog2 x - 52)).
  destruct (ilog2_spec x Hx) as [L U].
  pose proof (two_pos k) as Pk.
  pose proof (scaled_eq x k) as E.
  set (y := x / two k) in *.
  assert (Py : 0 < y).
  { apply Qnot_le_lt. intros G. nra. }
  split; [split; [exact Py|]|].
  - assert (H : two (ilog2 x + 1) <= two k * two 53).
    { rewrite <- two_add. apply two_le. lia. }
    apply Qnot_le_lt. intros G. nra.
  - intros N. assert (K : k = (ilog2 x - 52)%Z) by lia.
    assert (H : two (ilog2 x) == two k * two 52).
    { rewrite <- two_add. now replace (k + 52)%Z with (ilog2 x) by lia. }
    apply Qnot_lt_le. intros G. pose proof (two_pos 52). nra.
Qed.

Lemma significand_bounds (x : Q) :
  0 < x ->
  (0 <= nearest_even (x / two (exponent x)) <= 2 ^ 53)%Z
  /\ (exponent x <> (-1074)%Z ->
      (2 ^ 52 <= nearest_even (x / two (exponent x)))%Z).
Proof.
  intros Hx. destruct (scaled_bounds x Hx) as [[L U] M].
  split; [split|].
  - rewrite <- (nearest_even_Z 0). apply nearest_even_le. now apply Qlt_le_weak.
  - rewrite <- (nearest_even_Z (2 ^ 53)). apply nearest_even_le.
    rewrite <- two_53. now apply Qlt_le_weak.
  - intros N. rewrite <- (nearest_even_Z (2 ^ 52)). apply nearest_even_le.
    rewrite <- two_52. now apply M.
Qed.

Lemma nearest_nonneg (x : Q) : 0 < x -> 0 <= nearest x.
Proof.
  intros Hx. unfold nearest. destruct (significand_bounds x Hx) as [[L _] _].
  apply Qmult_le_0_compat; [|apply Qlt_le_weak, two_pos].
  now rewrite <- (Zle_Qle 0).
Qed.

Lemma nearest_le_pos (x y : Q) : 0 < x -> x <= y -> nearest x <= nearest y.
Proof.
  intros Hx Hxy. assert (Hy : 0 < y) by lra.
  assert (K : (exponent x <= exponent y)%Z).
  { rewrite (exponent_pos x Hx), (exponent_pos y Hy).
    pose proof (ilog2_le x y Hx Hxy). lia. }
  unfold nearest.
  destruct (Z.eq_dec (exponent x) (exponent y)) as [E|N].
  - rewrite E. apply Qmult_le_compat_r; [|apply Qlt_le_weak, two_pos].
    rewrite <- Zle_Qle. apply nearest_even_le.
    apply Qmult_le_compat_r; [exact Hxy|].
    apply Qlt_le_weak, Qinv_lt_0_compat, two_pos.
  - destruct (significand_bounds x Hx) as [[_ U] _].
    destruct (significand_bounds y Hy) as [_ L].
    assert (Lx : (-1074 <= exponent x)%Z) by (rewrite (exponent_pos x Hx); lia).
    specialize (L ltac:(lia)).
    apply Qle_trans with (two (exponent y + 52)).
    + apply Qle_trans with (two (exponent x + 53)); [|apply two_le; lia].
      rewrite two_add, two_53, (Qmult_comm (two (exponent x))).
      apply Qmult_le_compat_r; [|apply Qlt_le_weak, two_pos].
      now rewrite <- Zle_Qle.
    + rewrite two_add, two_52, (Qmult_comm (two (exponent y))).
      apply Qmult_le_compat_r; [|apply Qlt_le_weak, two_pos].
      now rewrite <- Zle_Qle.
Qed.

Lemma nearest_opp (x : Q) : nearest (- x) == - nearest x.
Proof.
  unfold nearest. rewrite exponent_opp.
  assert (E : - x / two (exponent x) == - (x / two (exponent x))).
  { field. pose proof (two_pos (exponent x)). lra. }
  rewrite (nearest_even_comp _ _ E), nearest_even_opp, inject_Z_opp. ring.
Qed.

Lemma nearest_zero (x : Q) : x == 0 -> nearest x == 0.
Proof.
  intros E. unfold nearest.
  assert (E' : x / two (exponent x) == inject_Z 0).
  { unfold Qdiv. set (c := / two (exponent x)). rewrite E. apply Qmult_0_l. }
  rewrite (nearest_even_comp _ _ E'), nearest_even_Z. ring.
Qed.

Lemma Qabs_neg_eq (x : Q) : x < 0 -> Qabs x = - x.
Proof.
  destruct x as [n d]. unfold Qlt. simpl. intros H.
  unfold Qopp. cbn. rewrite Z.abs_neq by lia. reflexivity.
Qed.

Lemma ilog2_comp (x y : Q) : 0 < x -> x == y -> ilog2 x = ilog2 y.
Proof.
  intros Hx E. symmetry. apply ilog2_unique. rewrite <- E. now apply ilog2_spec.
Qed.

Lemma nearest_comp (x y : Q) : x == y -> nearest x == nearest y.
Proof.
  intros E.
  destruct (Q_dec x 0) as [[Nx|Px]|Zx].
  - assert (K : exponent x = exponent y).
    { unfold exponent. rewrite (Qabs_neg_eq x Nx), (Qabs_neg_eq y) by lra.
      rewrite (ilog2_comp (- x) (- y)); [reflexivity | lra | now rewrite E]. }
    unfold nearest. rewrite K.
    assert (S : x / two (exponent y) == y / two (exponent y)) by now rewrite E.
    now rewrite (nearest_even_comp _ _ S).
  - assert (K : exponent x = exponent y).
    { unfold exponent. rewrite (Qabs_pos_eq x Px), (Qabs_pos_eq y) by lra.
      now rewrite (ilog2_comp x y). }
    unfold nearest. rewrite K.
    assert (S : x / two (exponent y) == y / two (exponent y)) by now rewrite E.
    now rewrite (nearest_even_comp _ _ S).
  - rewrite (nearest_zero x Zx), (nearest_zero y); [reflexivity|].
    now rewrite <- E.
Qed.

(** Rounding is monotone. *)
Lemma nearest_le (x y : Q) : x <= y -> nearest x <= nearest y.
Proof.
  intros H.
  destruct (Q_dec x 0) as [[Nx|Px]|Zx]; destruct (Q_dec y 0) as [[Ny|Py]|Zy].
  - assert (A : nearest (- y) <= nearest (- x)) by (apply nearest_le_pos; lra).
    rewrite !nearest_opp in A. lra.
  - assert (A : 0 <= nearest (- x)) by (apply nearest_nonneg; lra).
    rewrite nearest_opp in A. pose proof (nearest_nonneg y Py). lra.
  - assert (A : 0 <= nearest (- x)) by (apply nearest_nonneg; lra).
    rewrite nearest_opp in A. rewrite (nearest_zero y Zy). lra.
  - lra.
  - now apply nearest_le_pos.
  - lra.
  - lra.
  - rewrite (nearest_zero x Zx). now apply nearest_nonneg.
  - rewrite (nearest_zero x Zx), (nearest_zero y Zy). apply Qle_refl.
Qed.

(** A binary64 number is rounded to itself. *)
Lemma nearest_exact_pos (x : Q) (m k : Z) :
  0 < x -> x == inject_Z m * two k -> (m < 2 ^ 53)%Z -> (-1074 <= k)%Z ->
  nearest x == x.
Proof.
  intros Hx E Hm Hk.
  assert (Pm : (0 < m)%Z).
  { apply Z.nle_gt. intros G. rewrite Zle_Qle in G. pose proof (two_pos k). 
    change (inject_Z 0) with 0 in G. nra. }
  assert (I : (ilog2 x < k + 53)%Z).
  { destruct (ilog2_spec x Hx) as [L _]. apply two_lt_inv.
    eapply Qle_lt_trans; [exact L|]. rewrite E, two_add, two_53.
    assert (M : inject_Z m < inject_Z (2 ^ 53)) by now rewrite <- Zlt_Qlt.
    pose proof (two_pos k). nra. }
  assert (K : (exponent x <= k)%Z) by (rewrite (exponent_pos x Hx); lia).
  unfold nearest. set (j := exponent x) in *.
  assert (S : x / two j == inject_Z (m * 2 ^ (k - j))).
  { rewrite inject_Z_mult, <- (two_Z (k - j)) by lia. rewrite E.
    replace k with (k - j + j)%Z at 1 by lia. rewrite two_add. field.
    pose proof (two_pos j). lra. }
  rewrite (nearest_even_comp _ _ S), nearest_even_Z, <- S.
  symmetry. apply scaled_eq.
Qed.

Lemma nearest_exact (x : Q) : representable x -> nearest x == x.
Proof.
  intros (m & k & E & Hm & Hk & _).
  destruct (Q_dec x 0) as [[Nx|Px]|Zx].
  - assert (A : nearest (- x) == - x).
    { apply (nearest_exact_pos (- x) (- m) k); [lra| |lia|exact Hk].
      rewrite inject_Z_opp, E. ring. }
    rewrite nearest_opp in A. lra.
  - apply (nearest_exact_pos x m k); [exact Px | exact E | lia | exact Hk].
  - rewrite (nearest_zero x Zx). now symmetry.
Qed.

(** *** The rounded result *)

Lemma representable_Z (n : Z) : (Z.abs n < 2 ^ 53)%Z -> representable (inject_Z n).
Proof.
  intros H. exists n, 0%Z. split; [|split; [exact H|split; [lia|]]].
  - unfold two. rewrite Qpower_0_r. ring.
  - rewrite two_Z by lia. change (Qabs (inject_Z n)) with (inject_Z (Z.abs n)).
    rewrite <- Zlt_Qlt.
    apply Z.lt_trans with (2 ^ 53)%Z; [exact H | reflexivity].
Qed.

Lemma Qred_eq (x y : Q) : x == y -> Qred x = Qred y.
Proof. apply Qred_complete. Qed.

Lemma round_spec (x : Q) :
  (Qabs (nearest x) < two 1024 /\ round x = Finite (Qred (nearest x)))
  \/ (two 1024 <= Qabs (nearest x) /\ round x = Infinity (negative x)).
Proof.
  unfold round. destruct (Qeq_bool x 0) eqn:Z.
  - left. apply Qeq_bool_eq in Z. pose proof (nearest_zero x Z) as N.
    split.
    + rewrite N. apply two_pos.
    + now rewrite (Qred_eq _ _ N).
  - destruct (Qle_bool (two 1024) (Qabs (nearest x))) eqn:O.
    + right. apply Qle_bool_iff in O. now split.
    + left. split; [|reflexivity]. apply Qnot_le_lt. intros G.
      apply Qle_bool_iff in G. congruence.
Qed.

Lemma negative_false (x : Q) : 0 <= x -> negative x = false.
Proof. intros H. unfold negative. apply Qle_bool_iff in H. now rewrite H. Qed.

Lemma negative_true (x : Q) : x < 0 -> negative x = true.
Proof.
  intros H. unfold negative. destruct (Qle_bool 0 x) eqn:B; [|reflexivity].
  apply Qle_bool_iff in B. lra.
Qed.

Lemma nearest_nonneg_le (x : Q) : 0 <= x -> 0 <= nearest x.
Proof.
  intros H. rewrite <- (nearest_zero 0) by reflexivity. now apply nearest_le.
Qed.

Lemma nearest_nonpos (x : Q) : x <= 0 -> nearest x <= 0.
Proof.
  intros H. rewrite <- (nearest_zero 0) by reflexivity. now apply nearest_le.
Qed.

(** A result between two binary64 numbers is rounded to a float between
    them. *)
Lemma round_between (lo x hi : Q) :
  representable lo -> representable hi -> lo <= x <= hi ->
  exists v, round x = Finite v /\ v == nearest x /\ lo <= v <= hi.
Proof.
  intros Rlo Rhi [L U].
  pose proof (nearest_le _ _ L) as NL. pose proof (nearest_le _ _ U) as NU.
  rewrite (nearest_exact lo Rlo) in NL. rewrite (nearest_exact hi Rhi) in NU.
  destruct Rlo as (_ & _ & _ & _ & _ & Blo). destruct Rhi as (_ & _ & _ & _ & _ & Bhi).
  assert (B : Qabs (nearest x) < two 1024).
  { apply Qabs_Qlt_condition. apply Qabs_Qlt_condition in Blo, Bhi. lra. }
  destruct (round_spec x) as [[_ E]|[O _]]; [|lra].
  pose proof (Qred_correct (nearest x)) as Rq.
  exists (Qred (nearest x)). split; [exact E|]. split; [exact Rq | lra].
Qed.

(** Rounding to nearest is monotone on the results that stay finite. *)
Lemma round_le (x y : Q) (v w : Q) :
  x <= y -> round x = Finite v -> round y = Finite w -> v <= w.
Proof.
  intros H Ex Ey.
  destruct (round_spec x) as [[_ E]|[_ E]]; rewrite E in Ex; [|discriminate].
  destruct (round_spec y) as [[_ F]|[_ F]]; rewrite F in Ey; [|discriminate].
  assert (Ev : v = Qred (nearest x)) by congruence.
  assert (Ew : w = Qred (nearest y)) by congruence. subst v w.
  pose proof (Qred_correct (nearest x)). pose proof (Qred_correct (nearest y)).
  pose proof (nearest_le x y H). lra.
Qed.

(** The result of an operation whose exact result is not negative. *)
Lemma round_nonneg (x : Q) :
  0 <= x ->
  round x = Infinity false
  \/ exists v, round x = Finite v /\ v == nearest x /\ 0 <= v.
Proof.
  intros H. pose proof (nearest_nonneg_le x H) as N.
  destruct (round_spec x) as [[_ E]|[_ E]].
  - right. pose proof (Qred_correct (nearest x)) as Rq.
    exists (Qred (nearest x)). split; [exact E|]. split; [exact Rq | lra].
  - left. now rewrite E, negative_false.
Qed.

Lemma round_nonpos (x : Q) :
  x <= 0 ->
  round x = Infinity true
  \/ exists v, round x = Finite v /\ v == nearest x /\ v <= 0.
Proof.
  intros H. pose proof (nearest_nonpos x H) as N.
  destruct (round_spec x) as [[_ E]|[O E]].
  - right. pose proof (Qred_correct (nearest x)) as Rq.
    exists (Qred (nearest x)). split; [exact E|]. split; [exact Rq | lra].
  - left. rewrite E, negative_true; [reflexivity|].
    apply Qnot_le_lt. intros G.
    assert (Z : x == 0) by lra.
    rewrite (nearest_zero x Z) in O. pose proof (two_pos 1024).
    change (Qabs 0) with 0 in O. lra.
Qed.

(** Two binary64 numbers [0 <= e < d]: their quotient is at most the
    largest float below 1. *)
Lemma quotient_below_one (e d : Q) :
  representable e -> representable d -> 0 <= e -> e < d ->
  e / d <= 1 - (1 # 2 ^ 53).
Proof.
  intros (me & ke & Ee & Me & Ke & _) (md & kd & Ed & Md & Kd & _) He Hlt.
  assert (Pd : 0 < d) by lra.
  assert (Q : forall a b : Z,
             (0 <= a < b)%Z -> (a <= 2 ^ 53 - 1 \/ b <= 2 ^ 53)%Z ->
             inject_Z a / inject_Z b <= 1 - (1 # 2 ^ 53)).
  { intros a b Hab Hb.
    assert (Pb : 0 < inject_Z b) by (rewrite <- (Zlt_Qlt 0); lia).
    apply Qle_shift_div_r; [exact Pb|].
    assert (C : (a * 2 ^ 53 <= (2 ^ 53 - 1) * b)%Z) by nia.
    rewrite Zle_Qle, !inject_Z_mult in C.
    set (c := 1 - (1 # 2 ^ 53)).
    assert (T : c * inject_Z (2 ^ 53) == inject_Z (2 ^ 53 - 1)) by reflexivity.
    assert (P53 : 0 < inject_Z (2 ^ 53)) by reflexivity.
    set (A := inject_Z a) in *. set (B := inject_Z b) in *.
    set (U := inject_Z (2 ^ 53 - 1)) in *. set (V := inject_Z (2 ^ 53)) in *.
    apply Qnot_lt_le. intros G. nra. }
  pose proof (two_pos ke) as Pke. pose proof (two_pos kd) as Pkd.
  assert (Pmd : (0 < md)%Z).
  { apply Z.nle_gt. intros G. rewrite Zle_Qle in G. change (inject_Z 0) with 0 in G. nra. }
  assert (Pme : (0 <= me)%Z).
  { apply Z.nlt_ge. intros G. rewrite Zlt_Qlt in G. change (inject_Z 0) with 0 in G. nra. }
  assert (QPmd : 0 < inject_Z md) by now rewrite <- (Zlt_Qlt 0).
  assert (Pp : 0 < inject_Z (2 ^ Z.abs (kd - ke))).
  { rewrite <- (Zlt_Qlt 0). apply Z.pow_pos_nonneg; lia. }
  destruct (Z_le_gt_dec kd ke) as [C|C].
  - assert (S : two ke == inject_Z (2 ^ (ke - kd)) * two kd).
    { rewrite <- two_Z by lia. rewrite <- two_add. now replace (ke - kd + kd)%Z with ke by lia. }
    assert (E : e / d == inject_Z (me * 2 ^ (ke - kd)) / inject_Z md).
    { rewrite Ee, Ed, S, inject_Z_mult. field. repeat split; lra. }
    rewrite E. apply Q.
    + split; [apply Z.mul_nonneg_nonneg; [exact Pme | apply Z.pow_nonneg; lia]|].
      rewrite Zlt_Qlt, inject_Z_mult.
      assert (X : inject_Z me * inject_Z (2 ^ (ke - kd)) * two kd < inject_Z md * two kd).
      { rewrite <- Qmult_assoc, <- S, <- Ee, <- Ed. exact Hlt. }
      apply Qnot_le_lt. intros G. nra.
    + right. lia.
  - rewrite Z.abs_eq in Pp by lia.
    assert (S : two kd == inject_Z (2 ^ (kd - ke)) * two ke).
    { rewrite <- two_Z by lia. rewrite <- two_add. now replace (kd - ke + ke)%Z with kd by lia. }
    assert (E : e / d == inject_Z me / inject_Z (md * 2 ^ (kd - ke))).
    { rewrite Ee, Ed, S, inject_Z_mult. field. repeat split; lra. }
    rewrite E. apply Q.
    + split; [exact Pme|].
      rewrite Zlt_Qlt, inject_Z_mult.
      assert (X : inject_Z me * two ke < inject_Z md * inject_Z (2 ^ (kd - ke)) * two ke).
      { rewrite <- Qmult_assoc, <- S, <- Ee, <- Ed. exact Hlt. }
      apply Qnot_le_lt. intros G. nra.
    + left. lia.
Qed.

End Binary64Facts.
(** ** Progress Reporter *)

Module ReporterFacts.
Import Binary64 Binary64Facts Reporter.
Local Open Scope Q_scope.

Lemma py_int_floor (q : Q) : 0 <= q -> py_int (Finite q) = Val (Qfloor q).
Proof.
  destruct q as [n d]. unfold Qle, py_int, Qfloor. simpl. intros H.
  f_equal. apply Z.quot_div_nonneg; lia.
Qed.

Lemma py_int_nonpositive (q : Q) :
  q <= 0 -> py_int (Finite q) = Val (- Qfloor (- q))%Z.
Proof.
  destruct q as [n den]. unfold Qle, py_int, Qfloor, Qopp. cbn. intros H.
  f_equal. rewrite <- (Z.quot_div_nonneg (- n) (Z.pos den)) by lia.
  rewrite Z.quot_opp_l by lia. lia.
Qed.

(** A repetition count of ordinary size. *)
Lemma py_repeat_small {A} (width : Z) (x : A) (n : Z) :
  (1 <= width <= 10)%Z -> (- 2 ^ 62 <= n <= 2 ^ 59)%Z ->
  py_repeat width x n = Val (repeat x (Z.to_nat n)).
Proof.
  intros Hw Hn. unfold py_repeat.
  assert (M : maxsize = 9223372036854775807%Z) by reflexivity.
  change (2 ^ 62)%Z with 4611686018427387904%Z in Hn.
  change (2 ^ 59)%Z with 576460752303423488%Z in Hn.
  destruct (Z.ltb_spec n (- maxsize - 1)); [lia|].
  destruct (Z.ltb_spec maxsize n); [lia|]. cbn [orb].
  destruct (Z.leb_spec n 0).
  - now replace (Z.to_nat n) with 0%nat by lia.
  - destruct (Z.ltb_spec (maxsize / width) n) as [G|G]; [|reflexivity].
    exfalso. rewrite M in G.
    assert (L : (width * 576460752303423488 <= 9223372036854775807)%Z) by lia.
    pose proof (Z.div_le_lower_bound _ width _ ltac:(lia) L). lia.
Qed.

(** A product of a small integer and a fraction between 0 and 1. *)
Lemma scaled_range (k : Z) (x p : Q) :
  (0 <= k < 2 ^ 53)%Z -> 0 <= p <= 1 -> x == inject_Z k * p ->
  exists v n,
    round x = Finite v /\ v == nearest x /\ 0 <= v <= inject_Z k
    /\ py_int (Finite v) = Val n /\ n = Qfloor v /\ (0 <= n <= k)%Z.
Proof.
  intros Hk [P0 P1] E.
  assert (K0 : 0 <= inject_Z k) by (rewrite <- (Zle_Qle 0); lia).
  destruct (round_between (inject_Z 0) x (inject_Z k)) as (v & Ev & Nv & V0 & V1).
  - apply representable_Z. reflexivity.
  - apply representable_Z. lia.
  - change (inject_Z 0) with 0. rewrite E. split; nra.
  - change (inject_Z 0) with 0 in V0.
    exists v, (Qfloor v). split; [exact Ev|]. split; [exact Nv|].
    split; [now split|]. split; [now apply py_int_floor|]. split; [reflexivity|].
    split.
    + change 0%Z with (Qfloor 0). now apply Qfloor_resp_le.
    + rewrite <- (Qfloor_Z k). now apply Qfloor_resp_le.
Qed.

(** The frame of a fraction between 0 and 1. *)
Lemma render_in_range (p : Q) :
  0 <= p <= 1 ->
  exists n pct,
    (0 <= n <= 40)%Z /\ (0 <= pct <= 100)%Z
    /\ filled_length (Finite p) = Val n
    /\ py_int (mul (Finite p) (Finite 100)) = Val pct
    /\ render (Finite p)
       = Val {| bar := repeat Filled (Z.to_nat n) ++ repeat Blank (Z.to_nat (40 - n));
                percent := pct |}.
Proof.
  intros R.
  destruct (scaled_range 40 (inject_Z 40 * p) p ltac:(lia) R (Qeq_refl _))
    as (v & n & Ev & _ & _ & In & _ & Hn).
  destruct (scaled_range 100 (p * 100) p ltac:(lia) R (Qmult_comm _ _))
    as (w & pct & Ew & _ & _ & Ip & _ & Hp).
  exists n, pct. split; [exact Hn|]. split; [exact Hp|].
  assert (F : filled_length (Finite p) = Val n).
  { unfold filled_length, bar_length. cbn [mul]. now rewrite Ev. }
  assert (P : py_int (mul (Finite p) (Finite 100)) = Val pct).
  { cbn [mul]. now rewrite Ew. }
  split; [exact F|]. split; [exact P|].
  unfold render. rewrite F. cbn [and_then].
  rewrite (py_repeat_small 10 Filled n) by lia. cbn [and_then].
  unfold bar_length.
  rewrite (py_repeat_small 1 Blank (40 - n)) by lia. cbn [and_then].
  now rewrite P.
Qed.

Lemma render_full :
  render (Finite 1)
  = Val {| bar := repeat Filled 40; percent := 100 |}.
Proof. vm_compute. reflexivity. Qed.

Lemma zero_budget (d : Q) : d == 0 -> Qeq_bool d 0 = true.
Proof. apply Qeq_eq_bool. Qed.

Lemma nonzero_budget (d : Q) : ~ d == 0 -> Qeq_bool d 0 = false.
Proof.
  intros H. destruct (Qeq_bool d 0) eqn:E; [|reflexivity].
  apply Qeq_bool_eq in E. contradiction.
Qed.

Lemma progress_defined (e d : Q) :
  ~ d == 0 -> progress e d = Val (py_min (round (e / d)) (Finite 1)).
Proof. intros H. unfold progress, div. now rewrite nonzero_budget. Qed.

Lemma progress_zero_budget (e d : Q) :
  d == 0 -> progress e d = Exc ZeroDivisionError.
Proof. intros H. unfold progress, div. now rewrite zero_budget. Qed.

Lemma quotient_nonneg (e d : Q) : 0 <= e -> 0 < d -> 0 <= e / d.
Proof.
  intros He Hd. apply Qle_shift_div_l; [exact Hd | now rewrite Qmult_0_l].
Qed.

(** The fraction shown for a non-negative reading and a positive budget is
    1, or the rounded quotient when that is below 1. *)
Lemma progress_cases (e d : Q) :
  0 <= e -> 0 < d ->
  (progress e d = Val (Finite 1) /\ geb (round (e / d)) (Finite 1) = true)
  \/ (exists v, progress e d = Val (Finite v) /\ round (e / d) = Finite v
                /\ 0 <= v /\ v < 1).
Proof.
  intros He Hd. rewrite progress_defined by lra.
  destruct (round_nonneg (e / d) (quotient_nonneg e d He Hd))
    as [E|(v & E & Nv & V0)]; rewrite E.
  - left. now split.
  - unfold py_min. cbn [ltb geb].
    destruct (Qle_bool v 1) eqn:B.
    + cbn [negb]. apply Qle_bool_iff in B.
      destruct (Qle_bool 1 v) eqn:B'.
      * left. apply Qle_bool_iff in B'. split; [|reflexivity].
        assert (V1 : v == 1) by lra.
        destruct (round_spec (e / d)) as [[_ F]|[_ F]]; rewrite F in E;
          [|discriminate].
        assert (Ev : v = Qred (nearest (e / d))) by congruence.
        rewrite Ev in V1 |- *. rewrite Qred_correct in V1.
        now rewrite (Qred_eq _ _ V1).
      * right. exists v. split; [reflexivity|]. split; [reflexivity|].
        split; [exact V0|]. apply Qnot_le_lt. intros G.
        apply Qle_bool_iff in G. congruence.
    + cbn [negb]. left. split; [reflexivity|].
      destruct (Qle_bool 1 v) eqn:B'; [reflexivity|]. exfalso.
      assert (G : v <= 1).
      { apply Qlt_le_weak, Qnot_le_lt. intros G. apply Qle_bool_iff in G. congruence. }
      apply Qle_bool_iff in G. congruence.
Qed.

(** Whether the rounded quotient of two binary64 numbers reaches 1. *)
Lemma reaches_one (e d : Q) :
  representable e -> representable d -> 0 <= e -> 0 < d ->
  (geb (round (e / d)) (Finite 1) = true <-> d <= e).
Proof.
  intros Re Rd He Hd.
  assert (R1 : representable 1) by (apply (representable_Z 1); reflexivity).
  split.
  - intros G. apply Qnot_lt_le. intros L.
    pose proof (quotient_below_one e d Re Rd He L) as U.
    destruct (round_between 0 (e / d) (1 - (1 # 2 ^ 53))) as (v & E & _ & _ & V).
    + apply (representable_Z 0). reflexivity.
    + exists (2 ^ 53 - 1)%Z, (-53)%Z. repeat split; try reflexivity; lia.
    + split; [now apply quotient_nonneg | exact U].
    + rewrite E in G. cbn [geb] in G. apply Qle_bool_iff in G.
      assert (X : 1 - (1 # 2 ^ 53) < 1) by reflexivity. lra.
  - intros L.
    assert (Q1 : 1 <= e / d).
    { apply Qle_shift_div_l; [exact Hd | now rewrite Qmult_1_l]. }
    destruct (round_spec (e / d)) as [[_ E]|[_ E]]; rewrite E.
    + cbn [geb]. apply Qle_bool_iff. rewrite Qred_correct.
      rewrite <- (nearest_exact 1 R1). now apply nearest_le.
    + rewrite negative_false by lra. reflexivity.
Qed.

(** One tick with a positive budget and a non-negative reading. *)
Lemma one_tick (d e : Q) (later : list Q) :
  0 < d -> 0 <= e ->
  exists p n pct,
    progress e d = Val (Finite p) /\ 0 <= p <= 1
    /\ (1 <= p -> p = 1)
    /\ (p < 1 -> round (e / d) = Finite p)
    /\ (geb (round (e / d)) (Finite 1) = Qle_bool 1 p)
    /\ (0 <= n <= 40)%Z /\ (0 <= pct <= 100)%Z
    /\ filled_length (Finite p) = Val n
    /\ py_int (mul (Finite p) (Finite 100)) = Val pct
    /\ animate_progress_bar d (e :: later)
       = let f := {| bar := repeat Filled (Z.to_nat n)
                           ++ repeat Blank (Z.to_nat (40 - n));
                     percent := pct |} in
         if Qle_bool 1 p then ([f], Finished)
         else (f :: fst (animate_progress_bar d later),
               snd (animate_progress_bar d later)).
Proof.
  intros Hd He.
  assert (S : exists p, progress e d = Val (Finite p) /\ 0 <= p <= 1
                        /\ (1 <= p -> p = 1)
                        /\ (p < 1 -> round (e / d) = Finite p)
                        /\ geb (round (e / d)) (Finite 1) = Qle_bool 1 p).
  { destruct (progress_cases e d He Hd) as [[E G]|(v & E & F & V0 & V1)].
    - exists 1. split; [exact E|]. split; [split; discriminate|].
      split; [reflexivity|]. split; [intros X; discriminate X|]. now rewrite G.
    - exists v. split; [exact E|]. split; [split; lra|].
      split; [intros X; lra|]. split; [intros _; exact F|].
      rewrite F. reflexivity. }
  destruct S as (p & E & R & P1 & P2 & G).
  destruct (render_in_range p R) as (n & pct & Hn & Hp & F & I & Rn).
  exists p, n, pct.
  split; [exact E|]. split; [exact R|]. split; [exact P1|]. split; [exact P2|].
  split; [exact G|]. split; [exact Hn|]. split; [exact Hp|]. split; [exact F|].
  split; [exact I|].
  cbn [animate_progress_bar]. rewrite E. cbn [and_then]. rewrite Rn.
  cbn [and_then geb]. cbv zeta.
  destruct (Qle_bool 1 p); [reflexivity|].
  now destruct (animate_progress_bar d later).
Qed.









(** The fraction and the frame of a reading in terms of the rounded
    quotient and products. *)
Lemma frame_values (d e : Q) :
  0 < d -> 0 <= e ->
  exists p,
    p == Qmin (nearest (e / d)) 1
    /\ 0 <= p <= 1
    /\ (1 <= p -> p = 1)
    /\ geb (round (e / d)) (Finite 1) = Qle_bool 1 p
    /\ progress e d = Val (Finite p)
    /\ (0 <= Qfloor (nearest (inject_Z 40 * p)) <= 40)%Z
    /\ (0 <= Qfloor (nearest (p * 100)) <= 100)%Z
    /\ render (Finite p)
       = Val {| bar := repeat Filled (Z.to_nat (Qfloor (nearest (inject_Z 40 * p))))
                       ++ repeat Blank
                            (Z.to_nat (40 - Qfloor (nearest (inject_Z 40 * p))));
                percent := Qfloor (nearest (p * 100)) |}.
Proof.
  intros Hd He.
  destruct (one_tick d e [] Hd He)
    as (p & n & pct & E & R & P1 & P2 & G & Hn & Hp & F & I & _).
  exists p. split; [|split; [exact R|split; [exact P1|split; [exact G|split; [exact E|]]]]].
  - destruct (Qlt_le_dec p 1) as [L|L].
    + specialize (P2 L).
      destruct (round_spec (e / d)) as [[_ X]|[_ X]]; rewrite X in P2;
        [|discriminate].
      assert (Ep : p = Qred (nearest (e / d))) by congruence.
      pose proof (Qred_correct (nearest (e / d))) as C. rewrite <- Ep in C.
      rewrite <- C. symmetry. apply Q.min_l. now apply Qlt_le_weak.
    + rewrite (P1 L). symmetry. apply Q.min_r.
      rewrite (P1 L) in G. change (Qle_bool 1 1) with true in G.
      destruct (round_spec (e / d)) as [[_ X]|[O X]]; rewrite X in G.
      * cbn [geb] in G. apply Qle_bool_iff in G. now rewrite Qred_correct in G.
      * pose proof (nearest_nonneg_le (e / d) (quotient_nonneg e d He Hd)) as N.
        rewrite Qabs_pos in O by exact N.
        apply Qle_trans with (two 1024); [discriminate | exact O].
  - assert (Vn : n = Qfloor (nearest (inject_Z 40 * p))).
    { destruct (scaled_range 40 (inject_Z 40 * p) p ltac:(lia) R (Qeq_refl _))
        as (v & n' & Ev & Nv & _ & In & Fn & _).
      unfold filled_length, bar_length in F. cbn [mul] in F.
      rewrite Ev, In in F. injection F as <-. rewrite Fn.
      now apply Qfloor_comp. }
    assert (Vp : pct = Qfloor (nearest (p * 100))).
    { destruct (scaled_range 100 (p * 100) p ltac:(lia) R (Qmult_comm _ _))
        as (v & n' & Ev & Nv & _ & In & Fn & _).
      cbn [mul] in I. rewrite Ev, In in I. injection I as <-. rewrite Fn.
      now apply Qfloor_comp. }
    rewrite <- Vn, <- Vp. split; [exact Hn|]. split; [exact Hp|].
    destruct (render_in_range p R) as (n' & pct' & _ & _ & F' & I' & Rn).
    assert (n' = n) by congruence. assert (pct' = pct) by congruence.
    now subst n' pct'.
Qed.


(** A reporter with a positive budget and non-negative clock readings
    never fails. *)
Lemma reporter_never_fails (d : Q) (clock : list Q) :
  0 < d -> Forall (fun e => 0 <= e) clock ->
  snd (animate_progress_bar d clock) = Suspended
  \/ snd (animate_progress_bar d clock) = Finished.
Proof.
  intros Hd Hc. induction Hc as [|e later He _ IH]; [now left|].
  destruct (one_tick d e later Hd He) as (p & n & pct & _ & _ & _ & _ & _ & _ & _ & _ & _ & T).
  rewrite T. cbv zeta. destruct (Qle_bool 1 p); [now right | exact IH].
Qed.

(** With a zero budget the first tick raises [ZeroDivisionError]. *)
Lemma reporter_zero_budget (d e : Q) (later : list Q) :
  d == 0 ->
  animate_progress_bar d (e :: later) = ([], Failed ZeroDivisionError).
Proof. intros H. cbn [animate_progress_bar]. now rewrite progress_zero_budget. Qed.

End ReporterFacts.

(** ** Running the monad *)

Section ForEach.
Context {A : Type} (body : A -> M unit).
Hypothesis body_returns : forall x c, exists c' t, body x c = (Val tt, c', t).

(** A loop whose body always returns runs its body once per element, in
    order, and returns. *)
Lemma for_each_returns (xs : list A) (c : counters) :
  exists c' ts,
    for_each xs body c = (Val tt, c', List.concat ts)
    /\ Forall2 (step_of body) xs ts.
Proof.
  revert c. induction xs as [|x xs IH]; intros c.
  - exists c, []. split; [reflexivity | constructor].
  - destruct (body_returns x c) as (c1 & t1 & E1).
    destruct (IH c1) as (c2 & ts & E2 & F).
    exists c2, (t1 :: ts). split.
    + cbn [for_each]. unfold bind. rewrite E1, E2. reflexivity.
    + constructor; [now exists c, c1 | exact F].
Qed.
End ForEach.

(** ** Characteristic Harvester *)

(** The run of the loop body on one characteristic, by the answers of the
    host. *)
Lemma harvest_characteristic_run (h : Host) (target : string)
    (c : Characteristic) (c0 : counters) :
  harvest_characteristic h target c c0 =
  let u := char_uuid c in
  if readable c then
    match read_answer h (n_reads c0) u with
    | Raises f =>
        (Val tt, bump_reads 1 c0,
         [Sleep 1; ReadGattChar u (Raises f); Print (read_fault_notice u f)])
    | Ok v =>
        if String.eqb u target then
          match read_answer h (S (n_reads c0)) u with
          | Ok v2 =>
              (Val tt, bump_reads 2 c0,
               [Sleep 1; ReadGattChar u (Ok v); Print (CharacteristicValue u v);
                ReadGattChar u (Ok v2); Print (OnboardStorageData v2)])
          | Raises f =>
              (Val tt, bump_reads 2 c0,
               [Sleep 1; ReadGattChar u (Ok v); Print (CharacteristicValue u v);
                ReadGattChar u (Raises f); Print (read_fault_notice u f)])
          end
        else
          (Val tt, bump_reads 1 c0,
           [Sleep 1; ReadGattChar u (Ok v); Print (CharacteristicValue u v)])
    end
  else (Val tt, c0, []).
Proof.
  unfold harvest_characteristic, read_and_print, try_except, bind, sleep, print,
    emit, read_gatt_char, bump_reads.
  cbv zeta. destruct (readable c); [|reflexivity].
  cbn [n_reads n_scans].
  destruct (read_answer h (n_reads c0) (char_uuid c)) as [v|f].
  - cbn [n_reads n_scans]. destruct (String.eqb (char_uuid c) target).
    + cbn [n_reads n_scans].
      destruct (read_answer h (S (n_reads c0)) (char_uuid c)) as [v2|f];
        [reflexivity | destruct f; reflexivity].
    + reflexivity.
  - destruct f; reflexivity.
Qed.

Lemma harvest_characteristic_returns (h : Host) (target : string)
    (c : Characteristic) (c0 : counters) :
  exists c' t, harvest_characteristic h target c c0 = (Val tt, c', t).
Proof.
  rewrite harvest_characteristic_run. cbv zeta.
  destruct (readable c); [|now eauto].
  destruct (read_answer h (n_reads c0) (char_uuid c)); [|now eauto].
  destruct (String.eqb (char_uuid c) target); [|now eauto].
  destruct (read_answer h (S (n_reads c0)) (char_uuid c)); now eauto.
Qed.

Lemma settled_app (t1 t2 : list event) :
  settled t1 -> settled t2 -> settled (t1 ++ t2).
Proof.
  intros H1 [-> | (t' & l & ->)].
  - now rewrite app_nil_r.
  - right. exists (t1 ++ t'), l. now rewrite app_assoc.
Qed.

Lemma attempted_app (t1 t2 : list event) :
  settled t1 -> attempted (t1 ++ t2) = attempted t1 ++ attempted t2.
Proof.
  intros [-> | (t' & l & ->)]; [reflexivity|].
  induction t' as [|e t' IH]; [reflexivity|].
  destruct e; try (cbn [app attempted]; exact IH).
  cbn [app attempted].
  destruct t' as [|e' t'']; [reflexivity|].
  cbn [app] in *. destruct e'; try exact IH.
  rewrite IH. reflexivity.
Qed.

Lemma faults_reported_app (t1 t2 : list event) :
  faults_reported t1 -> faults_reported t2 -> faults_reported (t1 ++ t2).
Proof.
  intros H1 H2. induction t1 as [|e t1 IH]; [exact H2|].
  destruct e; try (cbn [app faults_reported] in *; now apply IH).
  destruct a as [v|f]; cbn [app faults_reported] in *; [now apply IH|].
  destruct H1 as [(t3 & ->) H1]. split; [|now apply IH].
  now exists (t3 ++ t2).
Qed.


Lemma harvested_nil : harvested [] [].
Proof. split; [now left | reflexivity | exact I | reflexivity]. Qed.

Lemma harvested_app cs1 cs2 t1 t2 :
  harvested cs1 t1 -> harvested cs2 t2 -> harvested (cs1 ++ cs2) (t1 ++ t2).
Proof.
  intros [S1 A1 R1 L1] [S2 A2 R2 L2]. split.
  - now apply settled_app.
  - rewrite attempted_app, filter_app, map_app by exact S1. now rewrite A1, A2.
  - now apply faults_reported_app.
  - unfold fault_lines, expected_reports in *.
    rewrite !flat_map_app. now rewrite L1, L2.
Qed.

Lemma harvested_concat {A} (g : A -> list Characteristic) (xs : list A)
    (ts : list (list event)) :
  Forall2 (fun x t => harvested (g x) t) xs ts ->
  harvested (flat_map g xs) (List.concat ts).
Proof.
  induction 1 as [|x t xs ts H _ IH]; [exact harvested_nil|].
  cbn [flat_map List.concat]. now apply harvested_app.
Qed.

Lemma harvested_characteristic (h : Host) (target : string)
    (c : Characteristic) (t : list event) :
  step_of (harvest_characteristic h target) c t -> harvested [c] t.
Proof.
  intros (c1 & c2 & E). rewrite harvest_characteristic_run in E. cbv zeta in E.
  destruct (readable c) eqn:R.
  2:{ injection E as _ <-.
      split; [now left | cbn [filter]; now rewrite R | exact I | reflexivity]. }
  assert (Hf : filter readable [c] = [c]) by (cbn [filter]; now rewrite R).
  destruct (read_answer h (n_reads c1) (char_uuid c)) as [v|f].
  - destruct (String.eqb (char_uuid c) target).
    + destruct (read_answer h (S (n_reads c1)) (char_uuid c)) as [v2|f];
        injection E as _ <-.
      * split; [right; now eexists [_; _; _; _], _ | now rewrite Hf | exact I
               | reflexivity].
      * split; [right; now eexists [_; _; _; _], _ | now rewrite Hf
               | cbn; split; [now eexists | exact I]
               | destruct f; reflexivity].
    + injection E as _ <-.
      split; [right; now eexists [_; _], _ | now rewrite Hf | exact I | reflexivity].
  - injection E as _ <-.
    split; [right; now eexists [_; _], _ | now rewrite Hf
           | cbn; split; [now eexists | exact I]
           | destruct f; reflexivity].
Qed.

Lemma flat_map_singleton {A} (xs : list A) : flat_map (fun x => [x]) xs = xs.
Proof. induction xs as [|x xs IH]; [reflexivity | cbn; now rewrite IH]. Qed.

Lemma harvest_service_returns (h : Host) (target : string) (s : Service)
    (c0 : counters) :
  exists c' t, harvest_service h target s c0 = (Val tt, c', t).
Proof.
  destruct (for_each_returns _ (harvest_characteristic_returns h target)
              (characteristics s) c0) as (c' & ts & E & _).
  exists c', (Print (FoundService (svc_uuid s) (description s)) :: List.concat ts).
  unfold harvest_service, bind, print, emit. now rewrite E.
Qed.

Lemma harvested_service (h : Host) (target : string) (s : Service)
    (t : list event) :
  step_of (harvest_service h target) s t -> harvested (characteristics s) t.
Proof.
  intros (c1 & c2 & E).
  destruct (for_each_returns _ (harvest_characteristic_returns h target)
              (characteristics s) c1) as (c' & ts & E' & F).
  unfold harvest_service, bind, print, emit in E. rewrite E' in E.
  injection E as _ <-.
  assert (H : harvested (flat_map (fun c => [c]) (characteristics s)) (List.concat ts)).
  { apply harvested_concat. eapply Forall2_impl; [|exact F].
    intros c t. apply harvested_characteristic. }
  rewrite flat_map_singleton in H.
  change (harvested ([] ++ characteristics s)
            ([Print (FoundService (svc_uuid s) (description s))] ++ List.concat ts)).
  apply harvested_app; [|exact H].
  split; [right; now eexists [], _ | reflexivity | exact I | reflexivity].
Qed.

(** The harvest returns on every host, and its trace is [harvested]. *)
Lemma harvest_returns (h : Host) (target : string) (services : list Service)
    (c0 : counters) :
  exists c' t,
    harvest h target services c0 = (Val tt, c', t)
    /\ harvested (flat_map characteristics services) t.
Proof.
  destruct (for_each_returns _ (harvest_service_returns h target) services c0)
    as (c' & ts & E & F).
  exists c', (List.concat ts). split; [exact E|].
  apply harvested_concat. eapply Forall2_impl; [|exact F].
  intros s t. apply harvested_service.
Qed.

(** ** Device Locator *)

(** One iteration with [verbose] set, a positive scan timeout, a reporter
    whose clock readings are not negative, and two scans that return. *)
Lemma scan_attempt_verbose (h : Host) (address : string) (scan_timeout : Q)
    (attempt : nat) (c : counters) (x1 x2 : option BLEDevice) :
  0 < scan_timeout ->
  Forall (fun e => 0 <= e) (reporter_clock h attempt) ->
  scan_answer h (n_scans c) address scan_timeout = Ok x1 ->
  scan_answer h (S (n_scans c)) address scan_timeout = Ok x2 ->
  scan_attempt h address scan_timeout true attempt c
  = (Val x2, bump_scans 2 c,
     attempt_trace address scan_timeout attempt
       (fst (Reporter.animate_progress_bar scan_timeout (reporter_clock h attempt)))
       x1 x2).
Proof.
  intros Hd Hc E1 E2.
  pose proof (ReporterFacts.reporter_never_fails scan_timeout
                (reporter_clock h attempt) Hd Hc) as St.
  unfold scan_attempt, create_task, cancel, await_task, try_except, bind, print,
    emit, ret, find_device_by_address, attempt_trace, bump_scans.
  destruct (Reporter.animate_progress_bar scan_timeout (reporter_clock h attempt))
    as [ws st].
  cbn [fst snd n_scans n_reads task_state task_frames task_writes] in *.
  rewrite E1.
  destruct St as [-> | ->]; cbv [cancelled_handler ret raise];
    cbn [n_scans n_reads app]; rewrite E2; reflexivity.
Qed.

(** One iteration with [verbose] unset: the first scan is issued, and the
    unbound [progress_task] stops the run unless the scan itself raised. *)
Lemma scan_attempt_quiet (h : Host) (address : string) (scan_timeout : Q)
    (attempt : nat) (c : counters) :
  scan_attempt h address scan_timeout false attempt c
  = (match scan_answer h (n_scans c) address scan_timeout with
     | Ok _ => Exc (UnboundLocalError "progress_task")
     | Raises f => Exc (exn_of_fault f)
     end,
     bump_scans 1 c,
     [FindDevice address scan_timeout
        (scan_answer h (n_scans c) address scan_timeout)]).
Proof.
  unfold scan_attempt, bind, ret, find_device_by_address, bump_scans, raise.
  cbn [task_writes].
  destruct (scan_answer h (n_scans c) address scan_timeout); reflexivity.
Qed.

Lemma locator_events_app (t1 t2 : list event) :
  Forall locator_event t1 -> Forall locator_event t2 ->
  Forall locator_event (t1 ++ t2).
Proof. intros. apply Forall_app. now split. Qed.

Lemma attempt_trace_locator (address : string) (scan_timeout : Q) (attempt : nat)
    (ws : list frame) (x1 x2 : option BLEDevice) :
  Forall locator_event (attempt_trace address scan_timeout attempt ws x1 x2).
Proof.
  unfold attempt_trace. repeat apply locator_events_app.
  - repeat constructor.
  - induction ws; constructor; [repeat split | assumption].
  - repeat constructor.
Qed.

Section LocatorReturns.
Variables (h : Host) (address : string) (retry_delay scan_timeout : Q).
Hypothesis budget : 0 < scan_timeout.
Hypothesis clock : clock_not_negative h.
Hypothesis scans_return :
  forall n, exists x, scan_answer h n address scan_timeout = Ok x.

(** With [verbose] set, a positive scan timeout, clock readings that are
    not negative and scans that return, the retry loop returns. *)
Lemma locate_returns (attempts : list nat) (c : counters) :
  exists d c' t,
    locate h address retry_delay scan_timeout true attempts c = (Val d, c', t)
    /\ Forall locator_event t.
Proof.
  revert c. induction attempts as [|k rest IH]; intros c.
  - exists None, c, []. split; [reflexivity | constructor].
  - destruct (scans_return (n_scans c)) as [x1 E1].
    destruct (scans_return (S (n_scans c))) as [x2 E2].
    cbn [locate]. unfold bind at 1.
    rewrite (scan_attempt_verbose h address scan_timeout k c x1 x2 budget
               (clock k) E1 E2).
    destruct x2 as [d|].
    + eexists _, _, _. split; [reflexivity|].
      rewrite app_nil_r. apply attempt_trace_locator.
    + destruct (IH (bump_scans 2 c)) as (d & c' & t & E & F).
      unfold bind, print, sleep, emit. rewrite E.
      eexists _, _, _. split; [reflexivity|].
      apply locator_events_app; [apply attempt_trace_locator|].
      repeat constructor. exact F.
Qed.
End LocatorReturns.

(** When every scan answers that there is no device, the loop makes all its
    attempts and suspends for [retry_delay] after each of them. *)
Lemma locate_none (h : Host) (address : string) (retry_delay scan_timeout : Q)
    (attempts : list nat) (c : counters) :
  0 < scan_timeout ->
  clock_not_negative h ->
  (forall n, scan_answer h n address scan_timeout = Ok None) ->
  exists c' t,
    locate h address retry_delay scan_timeout true attempts c = (Val None, c', t)
    /\ notices t
       = flat_map (fun k => [Print (Attempting address (k + 1) retries);
                             Print (NotFoundRetrying (k + 1) retries);
                             Sleep retry_delay]) attempts
    /\ Forall locator_event t.
Proof.
  intros Hd Hc Hs. revert c. induction attempts as [|k rest IH]; intros c.
  - exists c, []. repeat split. constructor.
  - cbn [locate]. unfold bind at 1.
    rewrite (scan_attempt_verbose h address scan_timeout k c None None Hd
               (Hc k) (Hs _) (Hs _)).
    destruct (IH (bump_scans 2 c)) as (c' & t & E & N & F).
    unfold bind, print, sleep, emit. rewrite E.
    eexists _, _. split; [reflexivity|]. split.
    + unfold notices, attempt_trace in *. rewrite !filter_app.
      cbn [flat_map app filter is_notice]. rewrite N.
      replace (filter is_notice (map Write _)) with (@nil event); [reflexivity|].
      induction (fst (Reporter.animate_progress_bar scan_timeout (reporter_clock h k)));
        [reflexivity | assumption].
    + apply locator_events_app; [apply attempt_trace_locator|].
      repeat constructor. exact F.
Qed.

(** ** The connected phase *)

Lemma locator_events_silent (t : list event) :
  Forall locator_event t ->
  fault_lines t = [] /\ expected_reports t = [] /\ existsb is_connect t = false.
Proof.
  unfold fault_lines, expected_reports.
  induction 1 as [|e t (F & X & C) _ (IH1 & IH2 & IH3)]; [now repeat split|].
  cbn [flat_map existsb]. now rewrite F, X, C, IH1, IH2, IH3.
Qed.

Section ConnectedPhase.
Variables (h : Host) (characteristic_uuid : string) (verbose : bool).
Hypothesis liveness_no_timeout : is_connected_answer h <> Raises Timeout.
Hypothesis listing_no_timeout : get_services_answer h <> Raises Timeout.

Lemma connected_phase_run (c : counters) :
  exists r c' t,
    connected_phase h characteristic_uuid verbose c = (r, c', t)
    /\ caught_outside r
    /\ fault_lines t ++ outer_report r = expected_reports t.
Proof.
  unfold connected_phase, is_connected, get_services, bind, emit, lift_answer.
  destruct (is_connected_answer h) as [b | [|m]]; [|contradiction|].
  2:{ cbv [ret raise exn_of_fault app]. eexists _, _, _.
      split; [reflexivity|]. split; [right; eexists; reflexivity|].
      reflexivity. }
  destruct (get_services_answer h) as [services | [|m]]; [|contradiction|].
  2:{ destruct verbose; cbv [ret raise exn_of_fault app print emit];
        eexists _, _, _;
        (split; [reflexivity|]; split; [right; eexists; reflexivity | reflexivity]). }
  assert (H : forall c1, exists c' t,
             harvest h characteristic_uuid (relevant_services services) c1
             = (Val tt, c', t)
             /\ fault_lines t = expected_reports t).
  { intros c1. destruct (harvest_returns h characteristic_uuid
                           (relevant_services services) c1) as (c' & t & E & Hv).
    exists c', t. split; [exact E | apply Hv]. }
  destruct verbose; unfold ret, print, emit; cbv beta iota zeta.
  - destruct (H c) as (c' & t & E & L). rewrite E.
    eexists _, _, _. split; [reflexivity|]. split; [now left|].
    cbn. now rewrite app_nil_r.
  - destruct (H c) as (c' & t & E & L). rewrite E.
    eexists _, _, _. split; [reflexivity|]. split; [now left|].
    cbn. now rewrite app_nil_r.
Qed.

(** The [try] statement around the connected block returns when neither
    the connection nor the two queries time out, and prints one line for
    the fault that ended the block. *)
Lemma connected_block_returns (d : BLEDevice) (connection_timeout : Q)
    (c : counters) :
  connect_answer h d connection_timeout <> Raises Timeout ->
  exists c' t,
    try_except
      (with_BleakClient h d connection_timeout
         (connected_phase h characteristic_uuid verbose))
      connection_handler c = (Val tt, c', t)
    /\ fault_lines t = expected_reports t.
Proof.
  intros Hc.
  unfold try_except, with_BleakClient, finally, bind, emit, lift_answer.
  destruct (connect_answer h d connection_timeout) as [[] | [|m]];
    [|contradiction|].
  2:{ cbv [ret raise exn_of_fault app connection_handler print emit].
      eexists _, _. split; reflexivity. }
  unfold ret. cbv beta iota zeta.
  destruct (connected_phase_run c) as (r & c' & t & E & [-> | [m ->]] & L);
    rewrite E; cbv beta iota zeta; cbn [connection_handler].
  - eexists _, _. split; [reflexivity|].
    unfold fault_lines, expected_reports in *. cbn [flat_map expected_report fault_line app].
    rewrite !flat_map_app. cbn [flat_map expected_report fault_line app].
    cbn [outer_report] in L. rewrite app_nil_r in L. rewrite !app_nil_r. exact L.
  - unfold print, emit. eexists _, _. split; [reflexivity|].
    unfold fault_lines, expected_reports in *. cbn [flat_map expected_report fault_line app].
    rewrite !flat_map_app. cbn [flat_map expected_report fault_line app].
    cbn [outer_report] in L. rewrite !app_nil_r. exact L.
Qed.
End ConnectedPhase.

(** ** The pipeline *)

Lemma run_of {A} (m : M A) (r : res A) (c' : counters) (t : list event) :
  m {| n_scans := 0; n_reads := 0 |} = (r, c', t) -> run m = (r, t).
Proof. intros E. unfold run. now rewrite E. Qed.

(** The filter of main.py is the filter of the specification without its
    UUID clause. *)
Lemma spec_relevant_split (targetServiceId : string) (s : Service) :
  Spec.relevant targetServiceId s
  = String.eqb (svc_uuid s) targetServiceId || relevant s.
Proof.
  unfold Spec.relevant, relevant, Spec.vendor_substrings. cbn [existsb].
  now rewrite orb_false_r, !orb_assoc.
Qed.

Lemma readable_iff (c : Characteristic) :
  readable c = true <-> In "read" (properties c).
Proof.
  unfold readable, Str.mem. rewrite existsb_exists. split.
  - intros (x & Hin & E). apply String.eqb_eq in E. now subst.
  - intros H. exists "read". split; [exact H | apply String.eqb_refl].
Qed.

(** An iteration of main.py's loop issues two scans, an iteration of
    mainpretty.py's loop issues one. *)
Lemma attempt_issues_two_scans (address : string) (scan_timeout : Q)
    (attempt : nat) (ws : list frame) (x1 x2 : option BLEDevice) :
  scans (attempt_trace address scan_timeout attempt ws x1 x2)
  = [FindDevice address scan_timeout (Ok x1);
     FindDevice address scan_timeout (Ok x2)].
Proof.
  unfold scans, attempt_trace. rewrite !filter_app. cbn [filter is_scan app].
  replace (filter is_scan (map Write ws)) with (@nil event); [reflexivity|].
  induction ws; [reflexivity | assumption].
Qed.

(** With a zero scan timeout and [verbose] set, the reporter task divides by
    zero at its first tick and the await of the task re-raises the error. *)
Example zero_scan_timeout :
  run (gather_bgx_data Scenario.ticking Scenario.address Scenario.service_id
         Scenario.characteristic_id 10 2 0 true)
  = (Exc ZeroDivisionError,
     [Print (Attempting Scenario.address 1 3); CreateTask 0;
      FindDevice Scenario.address 0 (Ok (Some Scenario.device));
      CancelTask; AwaitTask]).
Proof. reflexivity. Qed.


(** ** Invariants of the traces *)

Section Always.
Context (P : event -> Prop).

Lemma always_ret {A} (a : A) : always P (ret a).
Proof. intros c. constructor. Qed.

Lemma always_raise {A} (e : exn) : always P (@raise A e).
Proof. intros c. constructor. Qed.

Lemma always_emit (e : event) : P e -> always P (emit e).
Proof. intros H c. now repeat constructor. Qed.

Lemma always_bind {A B} (m : M A) (k : A -> M B) :
  always P m -> (forall a, returns m a -> always P (k a)) ->
  always P (bind m k).
Proof.
  intros Hm Hk c. unfold bind. specialize (Hm c).
  destruct (m c) as [[[a|e] c1] t1] eqn:E; [|exact Hm].
  assert (R : returns m a) by now exists c, c1, t1.
  specialize (Hk a R c1). destruct (k a c1) as [[r2 c2] t2].
  apply Forall_app. now split.
Qed.

Lemma always_try_except {A} (body : M A) (handler : exn -> option (M A)) :
  always P body ->
  (forall e k, handler e = Some k -> always P k) ->
  always P (try_except body handler).
Proof.
  intros Hb Hh c. unfold try_except. specialize (Hb c).
  destruct (body c) as [[[a|e] c1] t1]; [exact Hb|].
  destruct (handler e) as [k|] eqn:E; [|exact Hb].
  specialize (Hh e k E c1). destruct (k c1) as [[r2 c2] t2].
  apply Forall_app. now split.
Qed.

Lemma always_finally {A} (body : M A) (cleanup : M unit) :
  always P body -> always P cleanup -> always P (finally body cleanup).
Proof.
  intros Hb Hc c. unfold finally. specialize (Hb c).
  destruct (body c) as [[r c1] t1]. specialize (Hc c1).
  destruct (cleanup c1) as [[[u|e] c2] t2]; apply Forall_app; now split.
Qed.

Lemma always_for_each {A} (xs : list A) (body : A -> M unit) :
  (forall x, In x xs -> always P (body x)) -> always P (for_each xs body).
Proof.
  induction xs as [|x xs IH]; intros H; [apply always_ret|].
  cbn [for_each]. apply always_bind; [apply H; now left|].
  intros _ _. apply IH. intros y Hy. apply H. now right.
Qed.

Lemma always_lift_answer {A} (a : answer A) : always P (lift_answer a).
Proof. destruct a; [apply always_ret | apply always_raise]. Qed.

Lemma always_find_device (h : Host) (address : string) (timeout : Q)
    (background : list event) :
  (forall a, P (FindDevice address timeout a)) -> Forall P background ->
  always P (find_device_by_address h address timeout background).
Proof. intros H B c. cbn. now constructor. Qed.

Lemma always_read (h : Host) (uuid : string) :
  (forall a, P (ReadGattChar uuid a)) -> always P (read_gatt_char h uuid).
Proof. intros H c. cbn. now repeat constructor. Qed.

End Always.

Lemma returns_lift_answer {A} (a : answer A) (x : A) :
  returns (lift_answer a) x -> a = Ok x.
Proof.
  intros (c & c' & t & E). destruct a; cbn in E; [|discriminate].
  now injection E as ->.
Qed.

Lemma returns_bind {A B} (m : M A) (k : A -> M B) (b : B) :
  returns (bind m k) b -> exists a, returns m a /\ returns (k a) b.
Proof.
  intros (c & c' & t & E). unfold bind in E.
  destruct (m c) as [[[a|e] c1] t1] eqn:Em; [|discriminate].
  destruct (k a c1) as [[r2 c2] t2] eqn:Ek. injection E as -> -> <-.
  exists a. split; [now exists c, c1, t1 | now exists c1, c', t2].
Qed.

Lemma returns_ret {A} (a b : A) : returns (ret a) b -> a = b.
Proof. intros (c & c' & t & E). now injection E. Qed.

Lemma returns_find_device (h : Host) (address : string) (timeout : Q)
    (background : list event) (x : option BLEDevice) :
  returns (find_device_by_address h address timeout background) x ->
  exists n, scan_answer h n address timeout = Ok x.
Proof.
  intros (c & c' & t & E). unfold find_device_by_address in E.
  exists (n_scans c).
  destruct (scan_answer h (n_scans c) address timeout); [|discriminate].
  now injection E as ->.
Qed.

(** The device that the retry loop returns is a device that a scan
    returned. *)
Lemma returns_scan_attempt (h : Host) (address : string) (scan_timeout : Q)
    (verbose : bool) (attempt : nat) (x : option BLEDevice) :
  returns (scan_attempt h address scan_timeout verbose attempt) x ->
  exists n, scan_answer h n address scan_timeout = Ok x.
Proof.
  unfold scan_attempt. intros H.
  repeat (apply returns_bind in H; destruct H as (? & _ & H)).
  now apply returns_find_device in H.
Qed.

Lemma returns_locate (h : Host) (address : string)
    (retry_delay scan_timeout : Q) (verbose : bool) (attempts : list nat)
    (d : BLEDevice) :
  returns (locate h address retry_delay scan_timeout verbose attempts) (Some d) ->
  exists n, scan_answer h n address scan_timeout = Ok (Some d).
Proof.
  induction attempts as [|k rest IH]; cbn [locate]; intros H.
  - apply returns_ret in H. discriminate.
  - apply returns_bind in H. destruct H as ([d'|] & R & H).
    + apply returns_ret in H. injection H as ->.
      now apply returns_scan_attempt in R.
    + repeat (apply returns_bind in H; destruct H as (? & _ & H)).
      now apply IH.
Qed.

Section PipelineInvariants.
Variables (h : Host) (address service_uuid characteristic_uuid : string)
  (connection_timeout retry_delay scan_timeout : Q) (verbose : bool).

(** Invariants that hold of the events of the two phases. *)
Variable P : event -> Prop.
Hypothesis P_discovery :
  forall e, discovery_event e ->
            uses_arguments address connection_timeout retry_delay scan_timeout e ->
            P e.
Hypothesis P_session_line :
  forall l, session_event (Print l) ->
            (forall u d, l <> FoundService u d) -> P (Print l).
Hypothesis P_throttle : P (Sleep 1).
Hypothesis P_liveness : forall a, P (IsConnected a).
Hypothesis P_listing : forall a, P (GetServices a).
Hypothesis P_disconnect : P Disconnect.
Hypothesis P_not_found : P (Print DeviceNotFound).
Hypothesis P_error : forall msg, P (Print (ConnectionOrGatheringError msg)).
Hypothesis P_connect :
  forall d a, (exists n, scan_answer h n address scan_timeout = Ok (Some d)) ->
              P (Connect d connection_timeout a).
Hypothesis P_service :
  forall services s,
    get_services_answer h = Ok services -> In s services -> relevant s = true ->
    P (Print (FoundService (svc_uuid s) (description s))).
Hypothesis P_read :
  forall services s c a,
    get_services_answer h = Ok services -> In s services -> relevant s = true ->
    In c (characteristics s) -> In "read" (properties c) ->
    P (ReadGattChar (char_uuid c) a).

Lemma always_scan_attempt (attempt : nat) :
  always P (scan_attempt h address scan_timeout verbose attempt).
Proof.
  unfold scan_attempt. apply always_bind.
  - destruct verbose; [|apply always_ret].
    apply always_bind; [apply always_emit, P_discovery; now cbn|]. intros _ _.
    apply always_bind; [|intros; apply always_ret].
    unfold create_task. apply always_bind;
      [apply always_emit, P_discovery; now cbn|]. intros _ _.
    destruct (Reporter.animate_progress_bar scan_timeout (reporter_clock h attempt)).
    apply always_ret.
  - intros progress_task _. apply always_bind.
    + apply always_find_device; [intros a; apply P_discovery; now cbn|].
      destruct progress_task as [t|]; [|constructor]. cbn [task_writes].
      induction (task_frames t); constructor; [apply P_discovery; now cbn | assumption].
    + intros _ _. apply always_bind.
      * destruct progress_task; [apply always_ret | apply always_raise].
      * intros t _. apply always_bind;
          [apply always_emit, P_discovery; now cbn|]. intros _ _.
        apply always_bind.
        -- apply always_try_except.
           ++ unfold await_task. apply always_bind;
                [apply always_emit, P_discovery; now cbn|]. intros _ _.
              destruct (task_state t);
                [apply always_raise | apply always_ret | apply always_raise].
           ++ intros e k E. destruct e; try discriminate E.
              injection E as <-. apply always_ret.
        -- intros _ _. apply always_find_device; [|constructor].
           intros a. apply P_discovery; now cbn.
Qed.

Lemma always_locate (attempts : list nat) :
  always P (locate h address retry_delay scan_timeout verbose attempts).
Proof.
  induction attempts as [|k rest IH]; cbn [locate]; [apply always_ret|].
  apply always_bind; [apply always_scan_attempt|]. intros [d|] _;
    [apply always_ret|].
  apply always_bind; [apply always_emit, P_discovery; now cbn|]. intros _ _.
  apply always_bind; [|intros _ _; exact IH].
  apply always_emit, P_discovery; [exact I | now left].
Qed.

Lemma always_harvest_characteristic (services : list Service) (s : Service)
    (c : Characteristic) :
  get_services_answer h = Ok services -> In s services -> relevant s = true ->
  In c (characteristics s) ->
  always P (harvest_characteristic h characteristic_uuid c).
Proof.
  intros G Hs R Hc. unfold harvest_characteristic.
  destruct (readable c) eqn:Rd; [|apply always_ret].
  apply readable_iff in Rd.
  assert (Rr : always P (read_gatt_char h (char_uuid c))).
  { apply always_read. intros a. now apply (P_read services s c). }
  apply always_try_except.
  - unfold read_and_print. apply always_bind;
      [apply always_emit, P_throttle|]. intros _ _.
    apply always_bind; [exact Rr|]. intros value _.
    apply always_bind;
      [apply always_emit, P_session_line; [exact I | discriminate]|].
    intros _ _. destruct (String.eqb (char_uuid c) characteristic_uuid);
      [|apply always_ret].
    apply always_bind; [exact Rr|]. intros onboard _.
    apply always_emit, P_session_line; [exact I | discriminate].
  - intros e k E. destruct e; try discriminate E; injection E as <-;
      apply always_emit, P_session_line; (exact I || discriminate).
Qed.

Lemma always_connected_phase :
  always P (connected_phase h characteristic_uuid verbose).
Proof.
  unfold connected_phase. apply always_bind.
  - unfold is_connected. apply always_bind; [apply always_emit, P_liveness|].
    intros _ _. apply always_lift_answer.
  - intros connected _. apply always_bind.
    + destruct verbose; [|apply always_ret].
      apply always_emit, P_session_line; [exact I | discriminate].
    + intros _ _. apply always_bind.
      * unfold get_services. apply always_bind; [apply always_emit, P_listing|].
        intros _ _. apply always_lift_answer.
      * intros services Rs. unfold get_services in Rs.
        apply returns_bind in Rs. destruct Rs as (_ & _ & Rs).
        apply returns_lift_answer in Rs.
        unfold harvest, relevant_services. apply always_for_each.
        intros s Hs. apply filter_In in Hs. destruct Hs as [Hs R].
        unfold harvest_service. apply always_bind;
          [apply always_emit; now apply (P_service services)|]. intros _ _.
        apply always_for_each. intros c Hc.
        now apply (always_harvest_characteristic services s).
Qed.

Lemma always_gather_bgx_data :
  always P (gather_bgx_data h address service_uuid characteristic_uuid
              connection_timeout retry_delay scan_timeout verbose).
Proof.
  unfold gather_bgx_data. apply always_bind; [apply always_locate|].
  intros [d|] R; [|apply always_emit, P_not_found].
  apply returns_locate in R. apply always_try_except.
  - unfold with_BleakClient. apply always_bind;
      [apply always_emit; now apply P_connect|]. intros _ _.
    apply always_bind; [apply always_lift_answer|]. intros _ _.
    apply always_finally; [apply always_connected_phase|].
    apply always_emit, P_disconnect.
  - intros e k E. destruct e; try discriminate E. injection E as <-.
    apply always_emit, P_error.
Qed.

End PipelineInvariants.

(** ** The events of the retry loop *)

Lemma discovery_of_locate (h : Host) (address : string)
    (retry_delay scan_timeout : Q) (verbose : bool) (attempts : list nat) :
  always discovery_event
    (locate h address retry_delay scan_timeout verbose attempts).
Proof.
  apply (always_locate h address 0 retry_delay scan_timeout verbose).
  intros e D _. exact D.
Qed.

(** ** The reads and the events of the harvest *)

Lemma read_accounted_prefix (target : string) (t0 t1 : list event) (uuid : string) :
  read_accounted target t1 uuid -> read_accounted target (t0 ++ t1) uuid.
Proof.
  intros [(t & ->)|(U & t & v & ->)].
  - left. exists (t0 ++ t). now rewrite app_assoc.
  - right. split; [exact U|]. exists (t0 ++ t), v. now rewrite app_assoc.
Qed.

Lemma reads_accounted_nil (target : string) : reads_accounted target [].
Proof. intros [|e t1] uuid a t2 E; discriminate E. Qed.

Lemma reads_accounted_app (target : string) (A B : list event) :
  reads_accounted target A -> reads_accounted target B ->
  reads_accounted target (A ++ B).
Proof.
  intros HA HB t1 uuid a t2 E.
  apply app_eq_app in E.
  destruct E as (l & [(E1 & E2)|(E1 & E2)]).
  - destruct l as [|e l].
    + cbn in E2. rewrite app_nil_r in E1. subst A.
      rewrite <- (app_nil_r t1). apply read_accounted_prefix.
      apply (HB [] uuid a t2). now rewrite <- E2.
    + injection E2 as <- E2. apply (HA t1 uuid a l). exact E1.
  - subst t1. apply read_accounted_prefix. now apply (HB l uuid a t2).
Qed.

Lemma reads_accounted_concat (target : string) (ts : list (list event)) :
  Forall (reads_accounted target) ts -> reads_accounted target (List.concat ts).
Proof.
  induction 1 as [|t ts H _ IH]; [apply reads_accounted_nil|].
  cbn [List.concat]. now apply reads_accounted_app.
Qed.

Ltac split_trace t1 E :=
  destruct t1 as [|? t1]; cbn [app] in E;
  [try discriminate E | injection E as <- E].

Lemma reads_accounted_characteristic (h : Host) (target : string)
    (c : Characteristic) (t : list event) :
  step_of (harvest_characteristic h target) c t -> reads_accounted target t.
Proof.
  intros (c1 & c2 & E). rewrite harvest_characteristic_run in E. cbv zeta in E.
  destruct (readable c); [|injection E as _ <-; apply reads_accounted_nil].
  destruct (read_answer h (n_reads c1) (char_uuid c)) as [v|f].
  - destruct (String.eqb (char_uuid c) target) eqn:U.
    + apply String.eqb_eq in U.
      assert (T : exists a2 l2,
                 t = [Sleep 1; ReadGattChar (char_uuid c) (Ok v);
                      Print (CharacteristicValue (char_uuid c) v);
                      ReadGattChar (char_uuid c) a2; Print l2]).
      { destruct (read_answer h (S (n_reads c1)) (char_uuid c)) as [v2|f];
          injection E as _ <-; now eexists _, _. }
      destruct T as (a2 & l2 & ->). intros t1 uuid a t2 X.
      split_trace t1 X. split_trace t1 X.
      { injection X as <- _ _. left. now exists []. }
      split_trace t1 X. split_trace t1 X.
      { injection X as <- _ _. right. split; [exact U|]. now exists [], v. }
      split_trace t1 X. destruct t1; discriminate X.
    + injection E as _ <-. intros t1 uuid a t2 X.
      split_trace t1 X. split_trace t1 X.
      { injection X as <- _ _. left. now exists []. }
      split_trace t1 X. destruct t1; discriminate X.
  - injection E as _ <-. intros t1 uuid a t2 X.
    split_trace t1 X. split_trace t1 X.
    { injection X as <- _ _. left. now exists []. }
    split_trace t1 X. destruct t1; discriminate X.
Qed.



Lemma characteristic_events (h : Host) (target : string) (c : Characteristic) :
  always (characteristic_event target c) (harvest_characteristic h target c).
Proof.
  unfold harvest_characteristic. destruct (readable c); [|apply always_ret].
  apply always_try_except.
  - unfold read_and_print. apply always_bind; [now apply always_emit|].
    intros _ _. apply always_bind; [now apply always_read|]. intros v _.
    apply always_bind; [now apply always_emit|]. intros _ _.
    destruct (String.eqb (char_uuid c) target) eqn:U; [|apply always_ret].
    apply String.eqb_eq in U.
    apply always_bind; [now apply always_read|]. intros o _.
    now apply always_emit.
  - intros e k E. destruct e; try discriminate E; injection E as <-;
      now apply always_emit.
Qed.

Lemma characteristic_goes_on (target : string) (c : Characteristic) (e : event) :
  characteristic_event target c e -> goes_on e.
Proof.
  destruct e as [l| | | | | | | | | | |]; try contradiction;
    try (intros _; split; [discriminate | reflexivity]).
  destruct l; try contradiction; intros _; split; (discriminate || reflexivity).
Qed.

Lemma harvest_goes_on (h : Host) (target : string) (services : list Service) :
  always goes_on (harvest h target services).
Proof.
  unfold harvest. apply always_for_each. intros s _.
  unfold harvest_service.
  apply always_bind; [apply always_emit; split; [discriminate | reflexivity]|].
  intros _ _. apply always_for_each. intros c _ k.
  eapply Forall_impl; [|apply (characteristic_events h target c k)].
  apply characteristic_goes_on.
Qed.

(** ** What ends the run *)

Lemma ends_goes_on (A B : list event) :
  Forall goes_on A -> ends_the_run B -> ends_the_run (A ++ B).
Proof.
  induction 1 as [|e A [N C] _ IH]; intros HB; [exact HB|].
  cbn [app ends_the_run]. split; [intros E; contradiction|].
  split; [intros msg E; congruence | now apply IH].
Qed.

Lemma ends_the_run_spec (t : list event) :
  ends_the_run t ->
  forall t1 e t2,
    t = t1 ++ e :: t2 ->
    (e = Print DeviceNotFound -> t2 = [])
    /\ (forall msg, connection_fault e = Some msg ->
          t2 = [Print (ConnectionOrGatheringError msg)]
          \/ t2 = [Disconnect; Print (ConnectionOrGatheringError msg)]).
Proof.
  intros H t1. revert t H. induction t1 as [|x t1 IH]; intros t H e t2 ->.
  - cbn [app ends_the_run] in H. split; apply H.
  - cbn [app ends_the_run] in H. now apply (IH (t1 ++ e :: t2)).
Qed.

Lemma discovery_goes_on (e : event) : discovery_event e -> goes_on e.
Proof.
  destruct e as [l| | | | | | | | | | |]; try contradiction;
    try (intros _; split; [discriminate | reflexivity]).
  destruct l; try contradiction; intros _; split; (discriminate || reflexivity).
Qed.

Lemma attempt_trace_discovery (address : string) (scan_timeout : Q)
    (attempt : nat) (ws : list frame) (x1 x2 : option BLEDevice) :
  Forall discovery_event (attempt_trace address scan_timeout attempt ws x1 x2).
Proof.
  unfold attempt_trace. repeat (apply Forall_app; split).
  - repeat constructor.
  - induction ws; constructor; [exact I | assumption].
  - repeat constructor.
Qed.

Ltac end_step :=
  repeat split; try discriminate;
  try (intros ? [= <-]; (now left) || (now right)).

(** The connected block with its [try] statement: what it prints ends the
    run as [ends_the_run] says. *)
Lemma connected_block_ends (h : Host) (characteristic_uuid : string)
    (verbose : bool) (d : BLEDevice) (connection_timeout : Q) (c : counters) :
  ends_the_run
    (snd (try_except
            (with_BleakClient h d connection_timeout
               (connected_phase h characteristic_uuid verbose))
            connection_handler c)).
Proof.
  unfold try_except, with_BleakClient, finally, bind, emit, lift_answer.
  destruct (connect_answer h d connection_timeout) as [[] | [|m]].
  2,3: (cbn; end_step).
  unfold ret. cbv beta iota zeta.
  unfold connected_phase, is_connected, get_services, bind, emit, lift_answer.
  destruct (is_connected_answer h) as [b | [|m]].
  2,3: (cbn; end_step).
  destruct (get_services_answer h) as [services | [|m]].
  2,3: (destruct verbose; cbn; end_step).
  destruct (harvest_returns h characteristic_uuid (relevant_services services) c)
    as (c' & th & Eh & _).
  pose proof (harvest_goes_on h characteristic_uuid (relevant_services services) c) as G.
  rewrite Eh in G. cbn [snd] in G.
  assert (X : forall pre,
             Forall goes_on pre ->
             ends_the_run
               ((Connect d connection_timeout (Ok tt) :: pre ++ th ++ [Disconnect])
                ++ [])).
  { intros pre Hp. apply ends_goes_on; [|exact I]. constructor.
    - split; [discriminate | reflexivity].
    - apply Forall_app. split; [exact Hp|]. apply Forall_app. split; [exact G|].
      repeat constructor. discriminate. }
  destruct verbose; unfold ret, print, emit; cbv beta iota zeta; rewrite Eh;
    cbn [snd app connection_handler].
  - specialize (X [IsConnected (Ok b); Print (ConnectedTo b); GetServices (Ok services)]).
    rewrite app_nil_r in X. apply X. repeat constructor; discriminate.
  - specialize (X [IsConnected (Ok b); GetServices (Ok services)]).
    rewrite app_nil_r in X. apply X. repeat constructor; discriminate.
Qed.
(** * The claims *)

(** C1 (the code departs from the claim).  On a peripheral that only the
    first scan sees, the retry loop of main.py issues two scans in every
    attempt, discards the device returned by the first one, makes all three
    attempts and ends without a device; the loop of mainpretty.py issues
    one scan and returns the device at once. *)
Theorem C1_first_scan_is_discarded :
  run (locate Scenario.seen_once Scenario.address 2 20 true (seq 0 retries))
  = (Val None,
     attempt_trace Scenario.address 20 0 [] (Some Scenario.device) None
     ++ [Print (NotFoundRetrying 1 3); Sleep 2]
     ++ attempt_trace Scenario.address 20 1 [] None None
     ++ [Print (NotFoundRetrying 2 3); Sleep 2]
     ++ attempt_trace Scenario.address 20 2 [] None None
     ++ [Print (NotFoundRetrying 3 3); Sleep 2])
  /\ List.length
       (scans (snd (run (locate Scenario.seen_once Scenario.address 2 20 true
                           (seq 0 retries))))) = 6%nat
  /\ run (MainPretty.locate Scenario.seen_once Scenario.address 2 20 true
            (seq 0 retries))
     = (Val (Some Scenario.device),
        [Print (Attempting Scenario.address 1 3);
         FindDevice Scenario.address 20 (Ok (Some Scenario.device))]).
Proof. repeat split. Qed.

(** C2, counterexample.  With no device in range and [verbose] set, the run
    suspends for the retry delay a third time, after the last scan of the
    third attempt and before it reports that the device was not found. *)
Lemma C2_counterexample :
  run (gather_bgx_data Scenario.absent Scenario.address Scenario.service_id
         Scenario.characteristic_id 10 2 20 true)
  = (Val tt,
     attempt_trace Scenario.address 20 0 [] None None
     ++ [Print (NotFoundRetrying 1 3); Sleep 2]
     ++ attempt_trace Scenario.address 20 1 [] None None
     ++ [Print (NotFoundRetrying 2 3); Sleep 2]
     ++ attempt_trace Scenario.address 20 2 [] None None
     ++ [Print (NotFoundRetrying 3 3); Sleep 2; Print DeviceNotFound])
  /\ filter is_sleep
       (snd (run (gather_bgx_data Scenario.absent Scenario.address
                    Scenario.service_id Scenario.characteristic_id 10 2 20 true)))
     = [Sleep 2; Sleep 2; Sleep 2].
Proof. split; reflexivity. Qed.

(** C2, amended.  With [verbose] set, a positive scan timeout and a
    reporter whose clock readings are not negative, when every scan answers
    that there is no device, the run makes three attempts, suspends for the
    retry delay after each of them, the third included, then reports that
    the device was not found and returns without connecting. *)
Theorem C2_suspends_after_every_attempt (h : Host)
    (address service_uuid characteristic_uuid : string)
    (connection_timeout retry_delay scan_timeout : Q) :
  0 < scan_timeout ->
  clock_not_negative h ->
  (forall n, scan_answer h n address scan_timeout = Ok None) ->
  exists t,
    run (gather_bgx_data h address service_uuid characteristic_uuid
           connection_timeout retry_delay scan_timeout true) = (Val tt, t)
    /\ notices t
       = [Print (Attempting address 1 3); Print (NotFoundRetrying 1 3);
          Sleep retry_delay;
          Print (Attempting address 2 3); Print (NotFoundRetrying 2 3);
          Sleep retry_delay;
          Print (Attempting address 3 3); Print (NotFoundRetrying 3 3);
          Sleep retry_delay;
          Print DeviceNotFound]
    /\ existsb is_connect t = false.
Proof.
  intros Hd Hc Hs.
  destruct (locate_none h address retry_delay scan_timeout (seq 0 retries)
              {| n_scans := 0; n_reads := 0 |} Hd Hc Hs) as (c' & t & E & N & F).
  exists (t ++ [Print DeviceNotFound]). split; [|split].
  - apply run_of with (c' := c').
    unfold gather_bgx_data, bind, print, emit. now rewrite E.
  - unfold notices in *. rewrite filter_app, N. reflexivity.
  - rewrite existsb_app. destruct (locator_events_silent t F) as (_ & _ & ->).
    reflexivity.
Qed.

Lemma C2_suspends_after_every_attempt_witness :
  exists t,
    run (gather_bgx_data Scenario.out_of_range Scenario.address Scenario.service_id
           Scenario.characteristic_id 10 2 20 true) = (Val tt, t)
    /\ notices t
       = [Print (Attempting Scenario.address 1 3); Print (NotFoundRetrying 1 3);
          Sleep 2;
          Print (Attempting Scenario.address 2 3); Print (NotFoundRetrying 2 3);
          Sleep 2;
          Print (Attempting Scenario.address 3 3); Print (NotFoundRetrying 3 3);
          Sleep 2;
          Print DeviceNotFound]
    /\ existsb is_connect t = false.
Proof.
  apply (C2_suspends_after_every_attempt Scenario.out_of_range).
  - reflexivity.
  - intros a. repeat constructor; discriminate.
  - reflexivity.
Defined.

(** C3 (the code departs from the claim).  The service whose UUID is the
    configured target, under a description without a vendor name, is
    relevant in the words of the specification and for mainpretty.py, but
    main.py discards it; the Xpress service is kept and the battery
    service is not.  A service described by "bgx" alone is kept by main.py
    and discarded by mainpretty.py. *)
Theorem C3_target_service_is_discarded :
  Spec.relevant Scenario.service_id Scenario.target_service = true
  /\ MainPretty.relevant Scenario.service_id Scenario.target_service = true
  /\ relevant Scenario.target_service = false
  /\ relevant_services
       [Scenario.target_service; Scenario.battery_service; Scenario.xpress_service]
     = [Scenario.xpress_service]
  /\ relevant Scenario.bgx_service = true
  /\ MainPretty.relevant Scenario.service_id Scenario.bgx_service = false.
Proof. repeat split. Qed.

(** C4, counterexample.  The device is found and the connection attempt
    times out: the timeout fault leaves the pipeline unhandled.  So does
    the protocol fault that a scan raises when the adapter is off. *)
Lemma C4_counterexample :
  run (gather_bgx_data Scenario.connect_times_out Scenario.address
         Scenario.service_id Scenario.characteristic_id 10 2 20 true)
  = (Exc TimeoutError,
     attempt_trace Scenario.address 20 0 [] (Some Scenario.device)
       (Some Scenario.device)
     ++ [Connect Scenario.device 10 (Raises Timeout)])
  /\ run (gather_bgx_data Scenario.adapter_off Scenario.address
            Scenario.service_id Scenario.characteristic_id 10 2 20 true)
     = (Exc (BleakError "Bluetooth device is turned off"),
        [Print (Attempting Scenario.address 1 3); CreateTask 20;
         FindDevice Scenario.address 20
           (Raises (Protocol "Bluetooth device is turned off"))]).
Proof. split; reflexivity. Qed.

(** C4, amended.  With [verbose] set, a positive scan timeout and a
    reporter whose clock readings are not negative, when the scans raise no
    fault and neither the connection, the liveness query nor the service
    listing raises a timeout fault, the run returns: no fault leaves the
    pipeline (the disconnection at the end of the connected block is taken
    not to raise).  The fault lines it prints are, in order, one line for
    each fault that the host raised in the connection, the two queries and
    the reads.  The run ends with the line that the device was not found,
    and a protocol fault of the connection, of the liveness query or of
    the service listing is followed by its line only, after the
    disconnection when the connection was open: nothing is read after
    it. *)
Theorem C4_faults_are_caught (h : Host)
    (address service_uuid characteristic_uuid : string)
    (connection_timeout retry_delay scan_timeout : Q) :
  0 < scan_timeout ->
  clock_not_negative h ->
  (forall n, exists x, scan_answer h n address scan_timeout = Ok x) ->
  (forall d, connect_answer h d connection_timeout <> Raises Timeout) ->
  is_connected_answer h <> Raises Timeout ->
  get_services_answer h <> Raises Timeout ->
  exists t,
    run (gather_bgx_data h address service_uuid characteristic_uuid
           connection_timeout retry_delay scan_timeout true) = (Val tt, t)
    /\ fault_lines t = expected_reports t
    /\ (forall t1 e t2,
          t = t1 ++ e :: t2 ->
          (e = Print DeviceNotFound -> t2 = [])
          /\ (forall msg,
                connection_fault e = Some msg ->
                t2 = [Print (ConnectionOrGatheringError msg)]
                \/ t2 = [Disconnect; Print (ConnectionOrGatheringError msg)])).
Proof.
  intros Hd Hk Hs Hc Hl Hg.
  destruct (locate_returns h address retry_delay scan_timeout Hd Hk Hs
              (seq 0 retries) {| n_scans := 0; n_reads := 0 |})
    as (d & c1 & t1 & E1 & F).
  destruct (locator_events_silent t1 F) as (L1 & X1 & _).
  assert (G1 : Forall goes_on t1).
  { pose proof (discovery_of_locate h address retry_delay scan_timeout true
                  (seq 0 retries) {| n_scans := 0; n_reads := 0 |}) as D.
    rewrite E1 in D. cbn [snd] in D.
    eapply Forall_impl; [|exact D]. apply discovery_goes_on. }
  destruct d as [d|].
  - destruct (connected_block_returns h characteristic_uuid true Hl Hg d
                connection_timeout c1 (Hc d)) as (c2 & t2 & E2 & L2).
    pose proof (connected_block_ends h characteristic_uuid true d
                  connection_timeout c1) as N2.
    rewrite E2 in N2. cbn [snd] in N2.
    exists (t1 ++ t2). split; [|split].
    + apply run_of with (c' := c2).
      unfold gather_bgx_data, bind. now rewrite E1, E2.
    + unfold fault_lines, expected_reports in *.
      now rewrite !flat_map_app, L1, X1, L2.
    + apply ends_the_run_spec. now apply ends_goes_on.
  - exists (t1 ++ [Print DeviceNotFound]). split; [|split].
    + apply run_of with (c' := c1).
      unfold gather_bgx_data, bind, print, emit. now rewrite E1.
    + unfold fault_lines, expected_reports in *.
      now rewrite !flat_map_app, L1, X1.
    + apply ends_the_run_spec. apply ends_goes_on; [exact G1|].
      cbn. repeat split; intros ? [=].
Qed.

Lemma C4_faults_are_caught_witness :
  exists t,
    run (gather_bgx_data Scenario.listing_fails
           Scenario.address Scenario.service_id Scenario.characteristic_id
           10 2 20 true) = (Val tt, t)
    /\ fault_lines t = expected_reports t
    /\ (forall t1 e t2,
          t = t1 ++ e :: t2 ->
          (e = Print DeviceNotFound -> t2 = [])
          /\ (forall msg,
                connection_fault e = Some msg ->
                t2 = [Print (ConnectionOrGatheringError msg)]
                \/ t2 = [Disconnect; Print (ConnectionOrGatheringError msg)])).
Proof.
  apply (C4_faults_are_caught Scenario.listing_fails).
  - reflexivity.
  - intros a. repeat constructor; discriminate.
  - intros n. now exists (Some Scenario.device).
  - discriminate.
  - discriminate.
  - discriminate.
Defined.




(** C7, counterexample.  Two characteristics whose tags match "read" under a
    case-insensitive substring test ("READ" and "encrypt-read") are not
    read: the harvest of their service prints the service line only. *)
Lemma C7_counterexample :
  Spec.readable Scenario.upper_case_read = true
  /\ Spec.readable Scenario.encrypt_read = true
  /\ run (harvest (Scenario.present [Scenario.odd_tags_service])
            Scenario.characteristic_id [Scenario.odd_tags_service])
     = (Val tt,
        [Print (FoundService (svc_uuid Scenario.odd_tags_service)
                  "Xpress Streaming Service")]).
Proof. repeat split. Qed.

(** C7, amended.  The loop body issues a read for a characteristic if and
    only if one of its declared tags is exactly the string "read"; given
    one characteristic without that tag followed by one with it, only the
    second is read. *)
Theorem C7_read_iff_read_tag (h : Host) (characteristic_uuid : string)
    (a b : Characteristic) (c0 : counters) :
  ((exists uuid answer,
      In (ReadGattChar uuid answer)
         (snd (harvest_characteristic h characteristic_uuid a c0)))
   <-> In "read" (properties a))
  /\ (~ In "read" (properties a) -> In "read" (properties b) ->
      let t := snd (for_each [a; b] (harvest_characteristic h characteristic_uuid) c0) in
      attempted t = [char_uuid b]
      /\ forall uuid answer, In (ReadGattChar uuid answer) t -> uuid = char_uuid b).
Proof.
  split.
  - rewrite <- readable_iff, harvest_characteristic_run. cbv zeta.
    destruct (readable a).
    + split; [reflexivity | intros _].
      destruct (read_answer h (n_reads c0) (char_uuid a)) as [v|f];
        [|eexists _, _; right; now left].
      destruct (String.eqb (char_uuid a) characteristic_uuid);
        [|eexists _, _; right; now left].
      destruct (read_answer h (S (n_reads c0)) (char_uuid a));
        eexists _, _; right; now left.
    + split; [intros (u & x & []) | discriminate].
  - intros Ha Hb t. subst t.
    assert (Ra : readable a = false).
    { destruct (readable a) eqn:R; [|reflexivity].
      apply readable_iff in R. contradiction. }
    apply readable_iff in Hb.
    cbn [for_each]. unfold bind.
    rewrite (harvest_characteristic_run h _ a). cbv zeta. rewrite Ra.
    cbv beta iota. rewrite (harvest_characteristic_run h _ b). cbv zeta.
    rewrite Hb. unfold ret. cbn [app snd].
    destruct (read_answer h (n_reads c0) (char_uuid b)) as [v|f].
    + destruct (String.eqb (char_uuid b) characteristic_uuid).
      * destruct (read_answer h (S (n_reads c0)) (char_uuid b));
          (split; [reflexivity|]); cbn; intros u x H;
          repeat (destruct H as [H|H]; [try discriminate; now injection H|]);
          contradiction.
      * (split; [reflexivity|]); cbn; intros u x H;
          repeat (destruct H as [H|H]; [try discriminate; now injection H|]);
          contradiction.
    + (split; [reflexivity|]); cbn; intros u x H;
        repeat (destruct H as [H|H]; [try discriminate; now injection H|]);
        contradiction.
Qed.

Lemma C7_read_iff_read_tag_witness :
  let t := snd (for_each [Scenario.write_only; Scenario.C2]
                  (harvest_characteristic
                     (Scenario.present [Scenario.xpress_service])
                     Scenario.characteristic_id)
                  {| n_scans := 2; n_reads := 0 |}) in
  attempted t = [char_uuid Scenario.C2]
  /\ forall uuid answer,
       In (ReadGattChar uuid answer) t -> uuid = char_uuid Scenario.C2.
Proof.
  apply (C7_read_iff_read_tag (Scenario.present [Scenario.xpress_service])
           Scenario.characteristic_id Scenario.write_only Scenario.C2
           {| n_scans := 2; n_reads := 0 |}).
  - cbn. intros [H|[H|[]]]; discriminate.
  - cbn. now left.
Defined.




(** C9, counterexample.  With [verbose] unset and the Bluetooth adapter off,
    the first scan raises a protocol fault, and that fault, not a
    [NameError], is what leaves the run. *)
Lemma C9_counterexample :
  run (gather_bgx_data Scenario.adapter_off Scenario.address Scenario.service_id
         Scenario.characteristic_id 10 2 20 false)
  = (Exc (BleakError "Bluetooth device is turned off"),
     [FindDevice Scenario.address 20
        (Raises (Protocol "Bluetooth device is turned off"))])
  /\ is_NameError (BleakError "Bluetooth device is turned off") = false.
Proof. split; reflexivity. Qed.

(** C9, amended.  With [verbose] unset, when the first scan returns (with or
    without a device) the run ends right after it with an unhandled
    [UnboundLocalError] (a [NameError]) for [progress_task]; and on every
    host a run that reaches the connection is a run with [verbose] set. *)
Theorem C9_unbound_progress_task (h : Host)
    (address service_uuid characteristic_uuid : string)
    (connection_timeout retry_delay scan_timeout : Q) :
  (forall d,
     scan_answer h 0 address scan_timeout = Ok d ->
     run (gather_bgx_data h address service_uuid characteristic_uuid
            connection_timeout retry_delay scan_timeout false)
     = (Exc (UnboundLocalError "progress_task"),
        [FindDevice address scan_timeout (Ok d)])
     /\ is_NameError (UnboundLocalError "progress_task") = true)
  /\ (forall verbose,
        existsb is_connect
          (snd (run (gather_bgx_data h address service_uuid characteristic_uuid
                       connection_timeout retry_delay scan_timeout verbose)))
        = true ->
        verbose = true).
Proof.
  assert (Q : run (gather_bgx_data h address service_uuid characteristic_uuid
                     connection_timeout retry_delay scan_timeout false)
              = (match scan_answer h 0 address scan_timeout with
                 | Ok _ => Exc (UnboundLocalError "progress_task")
                 | Raises f => Exc (exn_of_fault f)
                 end,
                 [FindDevice address scan_timeout
                    (scan_answer h 0 address scan_timeout)])).
  { unfold run, gather_bgx_data. cbn [seq retries locate]. unfold bind.
    rewrite scan_attempt_quiet. cbn [n_scans].
    destruct (scan_answer h 0 address scan_timeout); reflexivity. }
  split.
  - intros d E. rewrite Q, E. now split.
  - intros [|]; [reflexivity|]. rewrite Q. cbn. discriminate.
Qed.

Lemma C9_unbound_progress_task_witness :
  run (gather_bgx_data (Scenario.present [Scenario.xpress_service])
         Scenario.address Scenario.service_id Scenario.characteristic_id
         10 2 20 false)
  = (Exc (UnboundLocalError "progress_task"),
     [FindDevice Scenario.address 20 (Ok (Some Scenario.device))])
  /\ is_NameError (UnboundLocalError "progress_task") = true.
Proof.
  apply (C9_unbound_progress_task (Scenario.present [Scenario.xpress_service])
           Scenario.address Scenario.service_id Scenario.characteristic_id
           10 2 20).
  reflexivity.
Defined.

(** C10.  The coroutine does not depend on [service_uuid]: two runs that
    differ only in the target service identifier are the same run, with the
    same result and the same trace on every host. *)
Theorem C10_service_uuid_is_ignored (h : Host)
    (address service_uuid service_uuid' characteristic_uuid : string)
    (connection_timeout retry_delay scan_timeout : Q) (verbose : bool) :
  gather_bgx_data h address service_uuid characteristic_uuid
    connection_timeout retry_delay scan_timeout verbose
  = gather_bgx_data h address service_uuid' characteristic_uuid
      connection_timeout retry_delay scan_timeout verbose
  /\ run (gather_bgx_data h address service_uuid characteristic_uuid
            connection_timeout retry_delay scan_timeout verbose)
     = run (gather_bgx_data h address service_uuid' characteristic_uuid
              connection_timeout retry_delay scan_timeout verbose).
Proof. split; reflexivity. Qed.

(** The end-to-end scenario of the specification, run with [verbose] set. *)
Example end_to_end :
  run (gather_bgx_data (Scenario.present [Scenario.battery_service; Scenario.xpress_service])
         Scenario.address Scenario.service_id Scenario.characteristic_id
         10 2 20 true)
  = (Val tt,
     attempt_trace Scenario.address 20 0 [] (Some Scenario.device)
       (Some Scenario.device)
     ++ [Connect Scenario.device 10 (Ok tt);
         IsConnected (Ok true); Print (ConnectedTo true);
         GetServices (Ok [Scenario.battery_service; Scenario.xpress_service]);
         Print (FoundService (svc_uuid Scenario.xpress_service)
                  "GECHOOS Xpress Service");
         Sleep 1;
         ReadGattChar Scenario.characteristic_id (Ok [Byte.x42]);
         Print (CharacteristicValue Scenario.characteristic_id [Byte.x42]);
         ReadGattChar Scenario.characteristic_id (Ok [Byte.x42]);
         Print (OnboardStorageData [Byte.x42]);
         Sleep 1;
         ReadGattChar "C2" (Ok [Byte.x42]);
         Print (CharacteristicValue "C2" [Byte.x42]);
         Disconnect]).
Proof. reflexivity. Qed.

(** * Further properties *)

(** ** Python string methods *)

Module PyStrFacts.
Import PyStr.

Lemma split_length (sep : ascii) (s : str) :
  List.length (split sep s) = S (occurrences sep s).
Proof.
  unfold occurrences. induction s as [|a t IH]; [reflexivity|].
  cbn [split count_occ]. destruct (Ascii.eqb_spec a sep) as [->|N].
  - destruct (ascii_dec sep sep); [|contradiction]. cbn. now rewrite IH.
  - destruct (ascii_dec a sep); [contradiction|].
    destruct (split sep t); [discriminate IH | exact IH].
Qed.

Lemma has_occurrences (ch : ascii) (s : str) :
  has ch s = true <-> (1 <= occurrences ch s)%nat.
Proof.
  unfold has, occurrences. rewrite existsb_exists. split.
  - intros (x & Hin & E). apply Ascii.eqb_eq in E. subst x.
    now apply count_occ_In.
  - intros H. exists ch. split; [|apply Ascii.eqb_refl].
    apply (count_occ_In ascii_dec). lia.
Qed.

Lemma has_false (ch : ascii) (s : str) : has ch s = false <-> ~ In ch s.
Proof.
  unfold has. split.
  - intros E Hin. assert (existsb (Ascii.eqb ch) s = true); [|congruence].
    apply existsb_exists. exists ch. split; [exact Hin | apply Ascii.eqb_refl].
  - intros N. destruct (existsb (Ascii.eqb ch) s) eqn:E; [|reflexivity].
    apply existsb_exists in E. destruct E as (x & Hin & E).
    apply Ascii.eqb_eq in E. now subst x.
Qed.

(** Splitting at the only separator gives the text before it and the text
    after it. *)
Lemma split_without (sep : ascii) (s : str) :
  ~ In sep s -> split sep s = [s].
Proof.
  induction s as [|a t IH]; [reflexivity|]. intros N. cbn [split].
  destruct (Ascii.eqb_spec a sep) as [->|_]; [exfalso; apply N; now left|].
  rewrite IH; [reflexivity|]. intros H. apply N. now right.
Qed.

Lemma split_at (sep : ascii) (k v : str) :
  ~ In sep k -> split sep (k ++ sep :: v) = k :: split sep v.
Proof.
  induction k as [|a t IH]; intros N.
  - cbn [app split]. now rewrite Ascii.eqb_refl.
  - cbn [app split].
    destruct (Ascii.eqb_spec a sep) as [->|_]; [exfalso; apply N; now left|].
    rewrite IH; [reflexivity|]. intros H. apply N. now right.
Qed.

(** A string with exactly one separator splits into two parts, the second
    of which has no separator. *)
Lemma split_one (sep : ascii) (s : str) :
  occurrences sep s = 1%nat ->
  exists k v, s = k ++ sep :: v /\ ~ In sep k /\ ~ In sep v
              /\ split sep s = [k; v].
Proof.
  unfold occurrences. intros H.
  assert (Hin : In sep s) by (apply (count_occ_In ascii_dec); lia).
  destruct (in_split _ _ Hin) as (k0 & v0 & E). clear Hin.
  revert v0 s H E. induction k0 as [|a k0 IH]; intros v0 s H E.
  - subst s. cbn [app count_occ] in H.
    destruct (ascii_dec sep sep); [|contradiction].
    assert (Nv : ~ In sep v0).
    { apply (count_occ_not_In ascii_dec). lia. }
    exists [], v0. repeat split; [now intros [] | exact Nv |].
    cbn [app split]. now rewrite Ascii.eqb_refl, split_without.
  - subst s. cbn [app count_occ] in H.
    destruct (ascii_dec a sep) as [->|Na].
    + assert (Z : count_occ ascii_dec (k0 ++ sep :: v0) sep = 0%nat) by lia.
      apply (count_occ_not_In ascii_dec) in Z. exfalso. apply Z.
      apply in_or_app. right. now left.
    + destruct (IH v0 _ H eq_refl) as (k & v & E & Nk & Nv & Sp).
      exists (a :: k), v. cbn [app]. rewrite E. repeat split.
      * intros [->|I]; [now apply Na | now apply Nk].
      * exact Nv.
      * rewrite <- E. cbn [split]. destruct (Ascii.eqb_spec a sep); [contradiction|].
        now rewrite Sp.
Qed.

Lemma lstrip_with_eq p1 p2 p3 (s : str) :
  lstrip_with p1 p2 p3 s =
  match s with
  | [] => []
  | a :: t =>
      if p1 a then lstrip_with p1 p2 p3 t
      else match t with
           | [] => s
           | b :: t2 =>
               if p2 a b then lstrip_with p1 p2 p3 t2
               else match t2 with
                    | [] => s
                    | c :: t3 =>
                        if p3 a b c then lstrip_with p1 p2 p3 t3 else s
                    end
           end
  end.
Proof. destruct s; reflexivity. Qed.

(** What is left by [lstrip_with] is a suffix of the string. *)
Lemma lstrip_with_suffix p1 p2 p3 (s : str) :
  exists w, s = w ++ lstrip_with p1 p2 p3 s.
Proof.
  assert (G : forall n s, (List.length s <= n)%nat ->
                          exists w, s = w ++ lstrip_with p1 p2 p3 s).
  { clear s. induction n as [|n IH]; intros s L.
    - destruct s; [now exists [] | cbn in L; lia].
    - rewrite lstrip_with_eq.
      destruct s as [|a [|b [|c t]]]; cbv beta iota.
      + now exists [].
      + destruct (p1 a); [now exists [a] | now exists []].
      + destruct (p1 a).
        * destruct (IH [b]) as (w & E); [cbn in *; lia|].
          exists (a :: w). cbn [app]. now rewrite <- E.
        * destruct (p2 a b); [now exists [a; b] | now exists []].
      + destruct (p1 a).
        * destruct (IH (b :: c :: t)) as (w & E); [cbn in *; lia|].
          exists (a :: w). cbn [app]. now rewrite <- E.
        * destruct (p2 a b).
          -- destruct (IH (c :: t)) as (w & E); [cbn in *; lia|].
             exists (a :: b :: w). cbn [app]. now rewrite <- E.
          -- destruct (p3 a b c); [|now exists []].
             destruct (IH t) as (w & E); [cbn in *; lia|].
             exists (a :: b :: c :: w). cbn [app]. now rewrite <- E. }
  now apply (G (List.length s)).
Qed.

(** A character that occurs in no position of a recognised sequence stops
    the removal. *)
Section Stop.
Variables (p1 : ascii -> bool) (p2 : ascii -> ascii -> bool)
  (p3 : ascii -> ascii -> ascii -> bool) (z : ascii).
Hypothesis z1 : p1 z = false.
Hypothesis z2 : forall a, p2 a z = false /\ p2 z a = false.
Hypothesis z3 : forall a b,
  p3 z a b = false /\ p3 a z b = false /\ p3 a b z = false.

Lemma lstrip_with_stop (k v : str) :
  lstrip_with p1 p2 p3 (k ++ z :: v) = lstrip_with p1 p2 p3 k ++ z :: v.
Proof.
  assert (G : forall n k, (List.length k <= n)%nat ->
            lstrip_with p1 p2 p3 (k ++ z :: v)
            = lstrip_with p1 p2 p3 k ++ z :: v).
  { clear k. induction n as [|n IH]; intros k L.
    - destruct k; [|cbn in L; lia]. cbn [app].
      rewrite (lstrip_with_eq _ _ _ (z :: v)), (lstrip_with_eq _ _ _ []).
      cbv beta iota. rewrite z1.
      destruct v as [|b [|c t]]; [reflexivity| |].
      + now rewrite (proj2 (z2 b)).
      + now rewrite (proj2 (z2 b)), (proj1 (z3 b c)).
    - destruct k as [|a [|b [|c t]]].
      + apply IH. cbn. lia.
      + cbn [app]. rewrite (lstrip_with_eq _ _ _ (a :: z :: v)),
          (lstrip_with_eq _ _ _ [a]). cbv beta iota. destruct (p1 a).
        * apply (IH []). cbn. lia.
        * rewrite (proj1 (z2 a)). destruct v as [|c t]; [reflexivity|].
          now rewrite (proj1 (proj2 (z3 a c))).
      + cbn [app]. rewrite (lstrip_with_eq _ _ _ (a :: b :: z :: v)),
          (lstrip_with_eq _ _ _ [a; b]). cbv beta iota. destruct (p1 a).
        * apply (IH [b]). cbn in *. lia.
        * destruct (p2 a b).
          -- apply (IH []). cbn. lia.
          -- now rewrite (proj2 (proj2 (z3 a b))).
      + cbn [app]. rewrite (lstrip_with_eq _ _ _ (a :: b :: c :: t ++ z :: v)),
          (lstrip_with_eq _ _ _ (a :: b :: c :: t)). cbv beta iota.
        destruct (p1 a).
        * apply (IH (b :: c :: t)). cbn in *. lia.
        * destruct (p2 a b).
          -- apply (IH (c :: t)). cbn in *. lia.
          -- destruct (p3 a b c); [|reflexivity].
             apply (IH t). cbn in *. lia. }
  now apply (G (List.length k)).
Qed.
End Stop.

(** No printable ASCII character takes part in the encoding of a
    whitespace character. *)
Lemma printable_not_space (z : ascii) :
  printable z = true ->
  space1 z = false
  /\ (forall a, space2 a z = false /\ space2 z a = false)
  /\ (forall a b, space3 z a b = false /\ space3 a z b = false
                  /\ space3 a b z = false).
Proof.
  unfold printable, space1, space2, space3. intros H.
  apply andb_true_iff in H. destruct H as [L U].
  apply Nat.leb_le in L. apply Nat.leb_le in U.
  assert (N : forall n, (n <= 32 \/ 127 <= n)%nat -> (code z =? n)%nat = false).
  { intros n Hn. apply Nat.eqb_neq. lia. }
  assert (A : (code z <=? 13)%nat = false) by (apply Nat.leb_gt; lia).
  assert (B : (code z <=? 32)%nat = false) by (apply Nat.leb_gt; lia).
  assert (C : (128 <=? code z)%nat = false) by (apply Nat.leb_gt; lia).
  split; [|split].
  - now rewrite A, B, !andb_false_r.
  - intros a. rewrite !N by lia. now rewrite !andb_false_r.
  - intros a b. rewrite !N by lia. rewrite C.
    cbn [andb orb]. now rewrite !andb_false_r.
Qed.

End PyStrFacts.

Module StripFacts.
Import PyStr PyStrFacts.

Lemma lstrip_with_fixed p1 p2 p3 (z : ascii) (s : str) :
  p1 z = false -> (forall a, p2 z a = false) -> (forall a b, p3 z a b = false) ->
  lstrip_with p1 p2 p3 (z :: s) = z :: s.
Proof.
  intros H1 H2 H3. rewrite lstrip_with_eq, H1.
  destruct s as [|b [|c t]]; [reflexivity| |]; rewrite H2; [reflexivity|].
  now rewrite H3.
Qed.

Lemma lstrip_with_leading p1 p2 p3 (w s : str) :
  Forall (fun a => p1 a = true) w ->
  lstrip_with p1 p2 p3 (w ++ s) = lstrip_with p1 p2 p3 s.
Proof.
  induction 1 as [|a w Ha _ IH]; [reflexivity|].
  cbn [app]. rewrite lstrip_with_eq. now rewrite Ha.
Qed.

(** Stripping a line [k=v]: the whitespace before [k] and after [v] goes,
    the rest stays. *)
Lemma strip_around (z : ascii) (k v : str) :
  printable z = true ->
  strip (k ++ z :: v) = lstrip k ++ z :: rstrip v.
Proof.
  intros P. destruct (printable_not_space z P) as (S1 & S2 & S3).
  unfold strip, lstrip. rewrite (lstrip_with_stop _ _ _ z S1 S2 S3).
  unfold rstrip. rewrite rev_app_distr. cbn [rev]. rewrite <- app_assoc.
  cbn [app]. rewrite lstrip_with_stop.
  - rewrite rev_app_distr. cbn [rev]. rewrite rev_involutive, <- app_assoc.
    reflexivity.
  - exact S1.
  - intros a. split; apply S2.
  - intros a b. repeat split; apply S3.
Qed.

(** A string that starts and ends with printable ASCII characters is left
    alone, and so are its characters when ASCII whitespace follows it. *)
Lemma rstrip_trailing (v w : str) :
  Forall (fun a => space1 a = true) w -> rstrip (v ++ w) = rstrip v.
Proof.
  intros H. unfold rstrip. rewrite rev_app_distr, lstrip_with_leading;
    [reflexivity|]. now apply Forall_rev.
Qed.

Lemma lstrip_printable (z : ascii) (s : str) :
  printable z = true -> lstrip (z :: s) = z :: s.
Proof.
  intros P. destruct (printable_not_space z P) as (S1 & S2 & S3).
  apply lstrip_with_fixed; [exact S1 | apply S2 | apply S3].
Qed.

Lemma rstrip_printable (z : ascii) (v : str) :
  printable z = true -> rstrip (v ++ [z]) = v ++ [z].
Proof.
  intros P. destruct (printable_not_space z P) as (S1 & S2 & S3).
  unfold rstrip. rewrite rev_app_distr. cbn [rev app].
  rewrite lstrip_with_fixed; [|exact S1 | intros a; apply S2 | intros a b; apply S3].
  cbn [rev]. now rewrite rev_involutive.
Qed.

Lemma strip_printable (v : str) :
  Forall (fun a => printable a = true) v -> strip v = v.
Proof.
  intros H. unfold strip. destruct v as [|z v]; [reflexivity|].
  rewrite lstrip_printable by now inversion H.
  destruct (exists_last (l := z :: v) ltac:(discriminate)) as (v' & z' & E).
  rewrite E in *. apply rstrip_printable.
  apply Forall_app in H. destruct H as [_ H]. now inversion H.
Qed.

Lemma In_lstrip_with p1 p2 p3 (a : ascii) (s : str) :
  In a (lstrip_with p1 p2 p3 s) -> In a s.
Proof.
  intros H. destruct (lstrip_with_suffix p1 p2 p3 s) as (w & E).
  rewrite E. apply in_or_app. now right.
Qed.

Lemma In_strip (a : ascii) (s : str) : In a (strip s) -> In a s.
Proof.
  unfold strip, rstrip, lstrip. intros H.
  apply in_rev, In_lstrip_with, in_rev in H. now apply In_lstrip_with in H.
Qed.

Lemma occurrences_app (ch : ascii) (s t : str) :
  occurrences ch (s ++ t) = (occurrences ch s + occurrences ch t)%nat.
Proof. apply count_occ_app. Qed.

Lemma occurrences_zero (ch : ascii) (s : str) :
  occurrences ch s = 0%nat <-> ~ In ch s.
Proof. unfold occurrences. symmetry. apply count_occ_not_In. Qed.

(** [strip_char]: what stays is part of the string and neither starts nor
    ends with the character. *)
Lemma drop_while_suffix (p : ascii -> bool) (s : str) :
  exists w, s = w ++ drop_while p s.
Proof.
  induction s as [|a t (w & E)]; [now exists []|]. cbn [drop_while].
  destruct (p a); [|now exists []].
  exists (a :: w). cbn [app]. now rewrite <- E.
Qed.

Lemma drop_while_head (p : ascii -> bool) (s : str) (a : ascii) :
  hd_error (drop_while p s) = Some a -> p a = false.
Proof.
  induction s as [|b t IH]; [discriminate|]. cbn [drop_while].
  destruct (p b) eqn:E; [exact IH|]. cbn. now intros [= <-].
Qed.

Lemma In_strip_char (ch a : ascii) (s : str) : In a (strip_char ch s) -> In a s.
Proof.
  unfold strip_char. intros H. apply in_rev in H.
  destruct (drop_while_suffix (Ascii.eqb ch) (rev (drop_while (Ascii.eqb ch) s)))
    as (w & E).
  assert (I : In a (rev (drop_while (Ascii.eqb ch) s))).
  { rewrite E. apply in_or_app. now right. }
  apply in_rev in I.
  destruct (drop_while_suffix (Ascii.eqb ch) s) as (w' & E').
  rewrite E'. apply in_or_app. now right.
Qed.

Lemma strip_char_ends (ch : ascii) (s : str) :
  hd_error (strip_char ch s) <> Some ch
  /\ hd_error (rev (strip_char ch s)) <> Some ch.
Proof.
  unfold strip_char. set (m := drop_while (Ascii.eqb ch) s).
  set (r := drop_while (Ascii.eqb ch) (rev m)). split.
  - destruct (drop_while_suffix (Ascii.eqb ch) (rev m)) as (w & E). fold r in E.
    assert (M : m = rev r ++ rev w).
    { rewrite <- rev_app_distr, <- E. now rewrite rev_involutive. }
    destruct (rev r) as [|a t] eqn:R; [discriminate|].
    cbn. intros [= ->].
    assert (H : hd_error m = Some ch) by now rewrite M.
    apply drop_while_head in H. now rewrite Ascii.eqb_refl in H.
  - rewrite rev_involutive. intros H. apply drop_while_head in H.
    now rewrite Ascii.eqb_refl in H.
Qed.

Lemma strip_char_absent (ch : ascii) (s : str) :
  ~ In ch s -> strip_char ch s = s.
Proof.
  intros N. unfold strip_char.
  assert (D : forall t, ~ In ch t -> drop_while (Ascii.eqb ch) t = t).
  { intros [|a t] Nt; [reflexivity|]. cbn [drop_while].
    destruct (Ascii.eqb_spec ch a) as [->|_]; [|reflexivity].
    exfalso. apply Nt. now left. }
  rewrite (D s N), D, rev_involutive; [reflexivity|].
  intros H. apply N. now apply in_rev.
Qed.

End StripFacts.

(** ** The configuration reader *)

Module ConfigFacts.
Import PyStr PyStrFacts StripFacts Config.

Lemma key_value_iff (line : str) :
  key_value line = true <-> occurrences equals_sign line = 1%nat.
Proof.
  unfold key_value. rewrite negb_true_iff, orb_false_iff, !negb_false_iff.
  rewrite has_occurrences, Nat.eqb_eq, split_length. lia.
Qed.

Lemma in_stripped_lines (l : str) (f : list str) :
  In l (stripped_lines f) <-> exists line, In line f /\ l = strip line /\ l <> [].
Proof.
  unfold stripped_lines. rewrite filter_In, in_map_iff. split.
  - intros ((line & E & Hin) & T). exists line. repeat split; [exact Hin | easy |].
    destruct l; [discriminate T | discriminate].
  - intros (line & Hin & E & N). split; [now exists line|].
    destruct l; [contradiction | reflexivity].
Qed.

Lemma forallb_key_value (f : list str) :
  forallb key_value (stripped_lines f) = true <-> all_key_value f.
Proof.
  rewrite forallb_forall. unfold all_key_value. split.
  - intros H line Hin N. apply key_value_iff, H, in_stripped_lines.
    now exists line.
  - intros H l Hl. apply in_stripped_lines in Hl.
    destruct Hl as (line & Hin & -> & N). apply key_value_iff. now apply H.
Qed.

(** The value of a line with exactly one equals sign. *)
Lemma field_of_key_value (lines : list str) (i : nat) (line : str) :
  nth_error lines i = Some line ->
  key_value line = true ->
  exists k v,
    line = k ++ equals_sign :: v /\ ~ In equals_sign k /\ ~ In equals_sign v
    /\ field lines i = Some (strip_char double_quote (strip v)).
Proof.
  intros E K. apply key_value_iff in K.
  destruct (split_one _ _ K) as (k & v & L & Nk & Nv & Sp).
  exists k, v. repeat split; try assumption.
  unfold field. now rewrite E, Sp.
Qed.

(** The outcome of the reader, by cases. *)
Lemma read_config_cases (f : list str) :
  (read_config f = ValueError BadFormat /\ ~ all_key_value f)
  \/ (read_config f = ValueError MissingFields /\ all_key_value f
      /\ (List.length (stripped_lines f) < 3)%nat)
  \/ (all_key_value f /\ (3 <= List.length (stripped_lines f))%nat
      /\ exists l0 l1 l2 rest a s c,
           stripped_lines f = l0 :: l1 :: l2 :: rest
           /\ field (stripped_lines f) 0 = Some a
           /\ field (stripped_lines f) 1 = Some s
           /\ field (stripped_lines f) 2 = Some c
           /\ read_config f
              = if negb (truthy a) || negb (truthy s) || negb (truthy c)
                then ValueError EmptyField else Parsed a s c).
Proof.
  unfold read_config. cbv zeta.
  destruct (forallb key_value (stripped_lines f)) eqn:F; cbn [negb].
  2:{ left. split; [reflexivity|]. intros H.
      apply forallb_key_value in H. congruence. }
  right. pose proof (proj1 (forallb_key_value f) F) as A.
  destruct (List.length (stripped_lines f) <? 3)%nat eqn:L.
  { left. apply Nat.ltb_lt in L. now repeat split. }
  right. apply Nat.ltb_ge in L. split; [exact A|]. split; [exact L|].
  destruct (stripped_lines f) as [|l0 [|l1 [|l2 rest]]] eqn:E;
    try (cbn in L; lia).
  rewrite forallb_forall in F.
  destruct (field_of_key_value (l0 :: l1 :: l2 :: rest) 0 l0 eq_refl)
    as (k0 & v0 & _ & _ & _ & F0); [apply F; now left|].
  destruct (field_of_key_value (l0 :: l1 :: l2 :: rest) 1 l1 eq_refl)
    as (k1 & v1 & _ & _ & _ & F1); [apply F; right; now left|].
  destruct (field_of_key_value (l0 :: l1 :: l2 :: rest) 2 l2 eq_refl)
    as (k2 & v2 & _ & _ & _ & F2); [apply F; right; right; now left|].
  rewrite F0, F1, F2. now eexists l0, l1, l2, rest, _, _, _.
Qed.

End ConfigFacts.

(** X1.  The reader rejects the file with the key=value format error if and
    only if some line of the file that is not blank has, once stripped, a
    number of equals signs other than one: a comment line or a line with two
    equals signs is an error wherever it stands, also after the third
    line and also when fewer than three lines are present. *)
Theorem X1_bad_format_iff (f : list PyStr.str) :
  Config.read_config f = Config.ValueError Config.BadFormat
  <-> exists line,
        In line f /\ PyStr.strip line <> []
        /\ PyStr.occurrences Config.equals_sign (PyStr.strip line) <> 1%nat.
Proof.
  split.
  - intros E.
    destruct (ConfigFacts.read_config_cases f)
      as [(_ & N) | [(E' & _) | (_ & _ & H)]].
    + unfold Config.all_key_value in N.
      destruct (forallb Config.key_value (Config.stripped_lines f)) eqn:F.
      * exfalso. apply N. now apply ConfigFacts.forallb_key_value.
      * assert (X : exists l, In l (Config.stripped_lines f)
                              /\ Config.key_value l = false).
        { clear -F. induction (Config.stripped_lines f) as [|l t IH];
            [discriminate|].
          cbn [forallb] in F. apply andb_false_iff in F. destruct F as [F|F].
          - exists l. split; [now left | exact F].
          - destruct (IH F) as (x & I & K). exists x. split; [now right | exact K]. }
        destruct X as (l & Hl & K). apply ConfigFacts.in_stripped_lines in Hl.
        destruct Hl as (line & Hin & -> & Nb). exists line.
        repeat split; try assumption. intros O.
        apply ConfigFacts.key_value_iff in O. congruence.
    + congruence.
    + destruct H as (l0 & l1 & l2 & rest & a & s & c & _ & _ & _ & _ & R).
      rewrite R in E.
      destruct (negb (PyStr.truthy a) || negb (PyStr.truthy s)
                || negb (PyStr.truthy c)); discriminate.
  - intros (line & Hin & Nb & O).
    destruct (ConfigFacts.read_config_cases f)
      as [(E & _) | [(_ & A & _) | (A & _)]]; [exact E | |];
      exfalso; apply O; now apply A.
Qed.

(** X2.  The reader reports missing fields exactly when every non-blank line
    has one equals sign and fewer than three lines are not blank: the
    format of the lines is checked before their number. *)
Theorem X2_missing_fields_iff (f : list PyStr.str) :
  Config.read_config f = Config.ValueError Config.MissingFields
  <-> (forall line, In line f -> PyStr.strip line <> [] ->
         PyStr.occurrences Config.equals_sign (PyStr.strip line) = 1%nat)
      /\ (List.length (Config.stripped_lines f) < 3)%nat.
Proof.
  split.
  - intros E.
    destruct (ConfigFacts.read_config_cases f)
      as [(E' & _) | [(_ & A & L) | (_ & _ & H)]].
    + congruence.
    + now split.
    + destruct H as (l0 & l1 & l2 & rest & a & s & c & _ & _ & _ & _ & R).
      rewrite R in E.
      destruct (negb (PyStr.truthy a) || negb (PyStr.truthy s)
                || negb (PyStr.truthy c)); discriminate.
  - intros (A & L).
    destruct (ConfigFacts.read_config_cases f)
      as [(_ & N) | [(E & _) | (_ & L' & _)]];
      [now exfalso; apply N | exact E | lia].
Qed.

(** X3.  The indexing of the lines and of the parts of a line never fails:
    the checks that precede it leave no way to an [IndexError], so the
    catch-all handler of the script is reached by input/output errors
    only. *)
Theorem X3_no_index_error (f : list PyStr.str) :
  Config.read_config f <> Config.IndexError.
Proof.
  destruct (ConfigFacts.read_config_cases f)
    as [(E & _) | [(E & _) | (_ & _ & H)]]; try (rewrite E; discriminate).
  destruct H as (l0 & l1 & l2 & rest & a & s & c & _ & _ & _ & _ & R).
  rewrite R.
  destruct (negb (PyStr.truthy a) || negb (PyStr.truthy s)
            || negb (PyStr.truthy c)); discriminate.
Qed.

Module ConfigValues.
Import PyStr PyStrFacts StripFacts Config ConfigFacts.

Lemma clean_properties (v : str) :
  ~ In equals_sign v ->
  ~ In equals_sign (clean v)
  /\ hd_error (clean v) <> Some double_quote
  /\ hd_error (rev (clean v)) <> Some double_quote.
Proof.
  intros N. unfold clean. split.
  - intros H. apply N. now apply In_strip_char, In_strip in H.
  - apply strip_char_ends.
Qed.

Lemma field_clean (lines : list str) (i : nat) (a : str) :
  forallb key_value lines = true ->
  field lines i = Some a ->
  exists v, ~ In equals_sign v /\ a = clean v.
Proof.
  intros F E. unfold field in E.
  destruct (nth_error lines i) as [line|] eqn:N; [|discriminate].
  rewrite forallb_forall in F.
  destruct (field_of_key_value lines i line N (F _ (nth_error_In _ _ N)))
    as (k & v & _ & _ & Nv & E').
  unfold field in E'. rewrite N in E'. rewrite E' in E.
  injection E as <-. now exists v.
Qed.

Lemma stripped_lines_app (f g : list str) :
  stripped_lines (f ++ g) = stripped_lines f ++ stripped_lines g.
Proof. unfold stripped_lines. now rewrite map_app, filter_app. Qed.

Lemma strip_key_value_line (k v : str) :
  strip (k ++ equals_sign :: v) = lstrip k ++ equals_sign :: rstrip v.
Proof. now apply strip_around. Qed.

Lemma In_lstrip (a : ascii) (s : str) : In a (lstrip s) -> In a s.
Proof. apply In_lstrip_with. Qed.

(** The stripped line of a pair and the value read from it do not depend
    on the key. *)
Lemma stripped_line_of_pair (k v : str) :
  ~ In equals_sign k ->
  truthy (strip (k ++ equals_sign :: v)) = true
  /\ key_value (strip (k ++ equals_sign :: v))
     = key_value (equals_sign :: rstrip v)
  /\ nth_error (split equals_sign (strip (k ++ equals_sign :: v))) 1
     = nth_error (split equals_sign (equals_sign :: rstrip v)) 1.
Proof.
  intros Nk. rewrite strip_key_value_line.
  assert (Nl : ~ In equals_sign (lstrip k)) by (intros H; now apply Nk, In_lstrip).
  split; [|split].
  - now destruct (lstrip k).
  - assert (O : occurrences equals_sign (lstrip k ++ equals_sign :: rstrip v)
                = occurrences equals_sign (equals_sign :: rstrip v)).
    { rewrite occurrences_app. apply occurrences_zero in Nl. now rewrite Nl. }
    destruct (key_value (equals_sign :: rstrip v)) eqn:K.
    + apply key_value_iff. apply key_value_iff in K. now rewrite O.
    + destruct (key_value (lstrip k ++ equals_sign :: rstrip v)) eqn:K';
        [|reflexivity].
      apply key_value_iff in K'. rewrite O in K'.
      apply key_value_iff in K'. congruence.
  - rewrite split_at by exact Nl.
    pose proof (split_at equals_sign [] (rstrip v)) as E. cbn [app] in E.
    rewrite E by now intros []. reflexivity.
Qed.

End ConfigValues.

Module ConfigLines.
Import PyStr PyStrFacts StripFacts Config ConfigFacts ConfigValues.

Lemma field_same (ls ls' : list str) (i : nat) :
  Forall2 same_value ls ls' -> field ls i = field ls' i.
Proof.
  intros F. revert i. induction F as [|l l' ls ls' (_ & E) _ IH]; intros i.
  - unfold field. now destruct i.
  - destruct i as [|i]; [|exact (IH i)]. unfold field.
    change (nth_error (l :: ls) 0) with (Some l).
    change (nth_error (l' :: ls') 0) with (Some l'). cbv beta iota.
    now rewrite E.
Qed.

Lemma outcome_same (f f' : list str) :
  Forall2 same_value (stripped_lines f) (stripped_lines f') ->
  read_config f = read_config f'.
Proof.
  intros F. unfold read_config. cbv zeta.
  assert (K : forallb key_value (stripped_lines f)
              = forallb key_value (stripped_lines f')).
  { induction F as [|l l' ls ls' (E & _) _ IH]; [reflexivity|].
    cbn [forallb]. now rewrite E, IH. }
  rewrite K, (Forall2_length F), !(field_same _ _ _ F). reflexivity.
Qed.

Lemma stripped_pairs (kvs : list (str * str)) :
  (forall kv, In kv kvs -> ~ In equals_sign (fst kv)) ->
  stripped_lines (map key_value_line kvs)
  = map (fun kv => strip (key_value_line kv)) kvs.
Proof.
  intros H. unfold stripped_lines. rewrite map_map.
  induction kvs as [|kv kvs IH]; [reflexivity|].
  cbn [map filter].
  destruct (stripped_line_of_pair (fst kv) (snd kv)) as (T & _);
    [apply H; now left|].
  unfold key_value_line. rewrite T. f_equal. apply IH.
  intros x Hx. apply H. now right.
Qed.

Lemma blank_lines (bs : list str) : Forall blank bs -> stripped_lines bs = [].
Proof.
  unfold stripped_lines, blank. induction 1 as [|b bs E _ IH]; [reflexivity|].
  cbn [map filter]. now rewrite E.
Qed.

Lemma space1_not_equals (w : str) :
  Forall (fun a => space1 a = true) w -> ~ In equals_sign w.
Proof.
  intros F H. rewrite Forall_forall in F. now specialize (F _ H).
Qed.

Lemma plain_char_spec (a : ascii) :
  plain_char a = true ->
  printable a = true /\ a <> equals_sign /\ a <> double_quote.
Proof.
  unfold plain_char. rewrite !andb_true_iff, !negb_true_iff.
  intros ((P & E) & D). repeat split; [exact P | |];
    intros ->; now rewrite Ascii.eqb_refl in *.
Qed.

Lemma plain_facts (v : str) :
  plain v ->
  v <> [] /\ Forall (fun a => printable a = true) v
  /\ ~ In equals_sign v /\ ~ In double_quote v.
Proof.
  intros (N & F). split; [exact N|]. rewrite Forall_forall in F.
  split; [|split].
  - apply Forall_forall. intros a Ha. now apply plain_char_spec, F.
  - intros H. destruct (plain_char_spec _ (F _ H)) as (_ & E & _). now apply E.
  - intros H. destruct (plain_char_spec _ (F _ H)) as (_ & _ & E). now apply E.
Qed.

Lemma quoted_printable (q : bool) (v : str) :
  Forall (fun a => printable a = true) v ->
  Forall (fun a => printable a = true) (quoted q v).
Proof.
  intros F. destruct q; [|exact F]. cbn [quoted].
  constructor; [reflexivity|]. apply Forall_app. split; [exact F|].
  now constructor.
Qed.

Lemma clean_quoted (q : bool) (v : str) :
  plain v -> strip_char double_quote (quoted q v) = v.
Proof.
  intros P. destruct (plain_facts v P) as (N & _ & _ & Nq).
  destruct q; [|now apply strip_char_absent]. cbn [quoted]. unfold strip_char.
  cbn [drop_while]. rewrite Ascii.eqb_refl.
  assert (D : forall t, ~ In double_quote t ->
                        drop_while (Ascii.eqb double_quote) t = t).
  { intros [|a t] Nt; [reflexivity|]. cbn [drop_while].
    destruct (Ascii.eqb_spec double_quote a) as [E|_]; [|reflexivity].
    exfalso. apply Nt. now left. }
  assert (E : drop_while (Ascii.eqb double_quote) (v ++ [double_quote])
              = v ++ [double_quote]).
  { destruct v as [|a t]; [contradiction|]. cbn [app drop_while].
    destruct (Ascii.eqb_spec double_quote a) as [E|_]; [|reflexivity].
    exfalso. apply Nq. now left. }
  rewrite E, rev_app_distr. cbn [rev app drop_while].
  rewrite Ascii.eqb_refl, D, rev_involutive; [reflexivity|].
  intros H. now apply Nq, in_rev.
Qed.

(** The stripped form and the value of a well written line. *)
Lemma written_line_value (k pad : str) (q : bool) (v w : str) :
  well_written k pad v w ->
  exists l,
    strip (written_line k pad q v w) = l
    /\ truthy l = true /\ key_value l = true
    /\ nth_error (split equals_sign l) 1 = Some (pad ++ quoted q v)
    /\ clean (pad ++ quoted q v) = v.
Proof.
  intros (Nk & Fp & P & Fw).
  destruct (plain_facts v P) as (Nv & Pv & Ne & Nq).
  pose proof (quoted_printable q v Pv) as Pq.
  assert (Qn : quoted q v <> []) by (destruct q; [discriminate | exact Nv]).
  assert (Neq : ~ In equals_sign (pad ++ quoted q v)).
  { intros H. apply in_app_or in H. destruct H as [H|H].
    - now apply (space1_not_equals pad Fp).
    - destruct q; [|now apply Ne]. cbn [quoted] in H.
      destruct H as [H|H]; [discriminate H|].
      apply in_app_or in H. destruct H as [H|[H|[]]];
        [now apply Ne | discriminate H]. }
  assert (R : rstrip (pad ++ quoted q v ++ w) = pad ++ quoted q v).
  { rewrite app_assoc, rstrip_trailing by exact Fw.
    destruct (exists_last Qn) as (x & z & E). rewrite E in *.
    rewrite app_assoc. apply rstrip_printable.
    apply Forall_app in Pq. destruct Pq as [_ Pz]. now inversion Pz. }
  assert (Nl : ~ In equals_sign (lstrip k)) by (intros H; now apply Nk, In_lstrip).
  eexists. split; [reflexivity|]. unfold written_line.
  rewrite strip_key_value_line, R. split; [|split; [|split]].
  - now destruct (lstrip k).
  - apply key_value_iff. rewrite occurrences_app.
    apply occurrences_zero in Nl. rewrite Nl. cbn [Nat.add].
    unfold occurrences. cbn [count_occ].
    destruct (ascii_dec equals_sign equals_sign); [|contradiction].
    apply occurrences_zero in Neq. unfold occurrences in Neq. now rewrite Neq.
  - rewrite split_at by exact Nl. now rewrite split_without.
  - unfold clean, strip. unfold lstrip. rewrite lstrip_with_leading by exact Fp.
    fold (lstrip (quoted q v)). fold (strip (quoted q v)).
    rewrite strip_printable by exact Pq. now apply clean_quoted.
Qed.

Lemma field_value (lines : list str) (i : nat) (l v : str) :
  nth_error lines i = Some l ->
  nth_error (split equals_sign l) 1 = Some v ->
  field lines i = Some (clean v).
Proof. intros E1 E2. unfold field. now rewrite E1, E2. Qed.

End ConfigLines.

(** X4.  When the reader accepts a file, each of the three values it returns
    is not empty, holds no equals sign, and neither starts nor ends with a
    double quote. *)
Theorem X4_parsed_values (f : list PyStr.str)
    (device_address service_uuid characteristic_uuid value : PyStr.str) :
  Config.read_config f
  = Config.Parsed device_address service_uuid characteristic_uuid ->
  In value [device_address; service_uuid; characteristic_uuid] ->
  value <> []
  /\ ~ In Config.equals_sign value
  /\ hd_error value <> Some Config.double_quote
  /\ hd_error (rev value) <> Some Config.double_quote.
Proof.
  intros E Hin.
  destruct (ConfigFacts.read_config_cases f)
    as [(E' & _) | [(E' & _) | (A & _ & H)]]; try congruence.
  destruct H as (l0 & l1 & l2 & rest & a & s & c & _ & Fa & Fs & Fc & R).
  rewrite R in E.
  destruct (PyStr.truthy a) eqn:Ta; [|discriminate].
  destruct (PyStr.truthy s) eqn:Ts; [|discriminate].
  destruct (PyStr.truthy c) eqn:Tc; [|discriminate].
  cbn in E. injection E as <- <- <-.
  apply ConfigFacts.forallb_key_value in A.
  assert (G : forall i x, Config.field (Config.stripped_lines f) i = Some x ->
                          PyStr.truthy x = true ->
                          x <> [] /\ ~ In Config.equals_sign x
                          /\ hd_error x <> Some Config.double_quote
                          /\ hd_error (rev x) <> Some Config.double_quote).
  { intros i x Fx Tx.
    destruct (ConfigValues.field_clean _ _ _ A Fx) as (v & Nv & ->).
    split; [now destruct (Config.clean v)|].
    now apply ConfigValues.clean_properties. }
  destruct Hin as [<-|[<-|[<-|[]]]]; eauto.
Qed.

Lemma X4_parsed_values_witness :
  let f := map list_ascii_of_string
             ["device_address=AA:BB:CC:DD:EE:FF"; "service_uuid=S"; "c=C"] in
  let value := list_ascii_of_string "AA:BB:CC:DD:EE:FF" in
  value <> []
  /\ ~ In Config.equals_sign value
  /\ hd_error value <> Some Config.double_quote
  /\ hd_error (rev value) <> Some Config.double_quote.
Proof.
  intros f value.
  apply (X4_parsed_values f value (list_ascii_of_string "S")
           (list_ascii_of_string "C") value).
  - reflexivity.
  - now left.
Defined.

(** X5.  The keys are not consulted: two files of key=value lines with the
    same values in the same order give the same outcome, whatever their
    keys are (as long as no key holds an equals sign), be they empty,
    misspelt or in another order than the documented one. *)
Theorem X5_keys_are_ignored (kvs kvs' : list (PyStr.str * PyStr.str)) :
  map snd kvs = map snd kvs' ->
  (forall kv, In kv kvs -> ~ In Config.equals_sign (fst kv)) ->
  (forall kv, In kv kvs' -> ~ In Config.equals_sign (fst kv)) ->
  Config.read_config (map Config.key_value_line kvs)
  = Config.read_config (map Config.key_value_line kvs').
Proof.
  intros V K K'. apply ConfigLines.outcome_same.
  rewrite !ConfigLines.stripped_pairs by assumption.
  revert kvs' V K'. induction kvs as [|[k v] kvs IH]; intros [|[k' v'] kvs'] V K';
    try discriminate V; [constructor|].
  cbn [map snd] in V. injection V as <- V. cbn [map]. constructor.
  - destruct (ConfigValues.stripped_line_of_pair k v) as (_ & E1 & E2);
      [apply (K (k, v)); now left|].
    destruct (ConfigValues.stripped_line_of_pair k' v) as (_ & E1' & E2');
      [apply (K' (k', v)); now left|].
    unfold Config.same_value, Config.key_value_line. cbn [fst snd].
    now rewrite E1, E2, E1', E2'.
  - apply IH; [intros x Hx; apply K; now right | exact V
              | intros x Hx; apply K'; now right].
Qed.

Lemma X5_keys_are_ignored_witness :
  Config.read_config
    (map Config.key_value_line
       [(list_ascii_of_string "device_address", list_ascii_of_string "AA:BB");
        (list_ascii_of_string "service_uuid", list_ascii_of_string "S");
        (list_ascii_of_string "characteristic_uuid", list_ascii_of_string "C")])
  = Config.read_config
      (map Config.key_value_line
         [(list_ascii_of_string "characteristic_uuid", list_ascii_of_string "AA:BB");
          ([], list_ascii_of_string "S");
          (list_ascii_of_string "x y", list_ascii_of_string "C")]).
Proof.
  apply X5_keys_are_ignored.
  - reflexivity.
  - intros kv [<-|[<-|[<-|[]]]]; cbn; intuition discriminate.
  - intros kv [<-|[<-|[<-|[]]]]; cbn; intuition discriminate.
Defined.

(** X6.  Writing then reading: three well written lines (any key without an
    equals sign, optional ASCII whitespace after the equals sign, a plain
    value, bare or in double quotes, then ASCII whitespace such as the line
    end), with blank lines anywhere between and around them, are read back
    as exactly the three values, in the order of the lines. *)
Theorem X6_written_values_are_read_back
    (k1 p1 v1 w1 k2 p2 v2 w2 k3 p3 v3 w3 : PyStr.str) (q1 q2 q3 : bool)
    (b0 b1 b2 b3 : list PyStr.str) :
  Config.well_written k1 p1 v1 w1 ->
  Config.well_written k2 p2 v2 w2 ->
  Config.well_written k3 p3 v3 w3 ->
  Forall Config.blank (b0 ++ b1 ++ b2 ++ b3) ->
  Config.read_config
    (b0 ++ Config.written_line k1 p1 q1 v1 w1
        :: b1 ++ Config.written_line k2 p2 q2 v2 w2
        :: b2 ++ Config.written_line k3 p3 q3 v3 w3 :: b3)
  = Config.Parsed v1 v2 v3.
Proof.
  intros W1 W2 W3 B.
  apply Forall_app in B. destruct B as [B0 B].
  apply Forall_app in B. destruct B as [B1 B].
  apply Forall_app in B. destruct B as [B2 B3].
  destruct (ConfigLines.written_line_value k1 p1 q1 v1 w1 W1)
    as (l1 & S1 & T1 & K1 & N1 & C1).
  destruct (ConfigLines.written_line_value k2 p2 q2 v2 w2 W2)
    as (l2 & S2 & T2 & K2 & N2 & C2).
  destruct (ConfigLines.written_line_value k3 p3 q3 v3 w3 W3)
    as (l3 & S3 & T3 & K3 & N3 & C3).
  assert (L : Config.stripped_lines
                (b0 ++ Config.written_line k1 p1 q1 v1 w1
                    :: b1 ++ Config.written_line k2 p2 q2 v2 w2
                    :: b2 ++ Config.written_line k3 p3 q3 v3 w3 :: b3)
              = [l1; l2; l3]).
  { rewrite ConfigValues.stripped_lines_app, (ConfigLines.blank_lines b0 B0).
    cbn [app]. unfold Config.stripped_lines at 1. cbn [map filter].
    rewrite S1, T1. f_equal. fold (Config.stripped_lines
      (b1 ++ Config.written_line k2 p2 q2 v2 w2
          :: b2 ++ Config.written_line k3 p3 q3 v3 w3 :: b3)).
    rewrite ConfigValues.stripped_lines_app, (ConfigLines.blank_lines b1 B1).
    cbn [app]. unfold Config.stripped_lines at 1. cbn [map filter].
    rewrite S2, T2. f_equal. fold (Config.stripped_lines
      (b2 ++ Config.written_line k3 p3 q3 v3 w3 :: b3)).
    rewrite ConfigValues.stripped_lines_app, (ConfigLines.blank_lines b2 B2).
    cbn [app]. unfold Config.stripped_lines at 1. cbn [map filter].
    rewrite S3, T3. f_equal. apply (ConfigLines.blank_lines b3 B3). }
  unfold Config.read_config. cbv zeta. rewrite L.
  cbn [forallb]. rewrite K1, K2, K3. cbn [andb negb List.length Nat.ltb Nat.leb].
  rewrite (ConfigLines.field_value [l1; l2; l3] 0 l1 _ eq_refl N1).
  rewrite (ConfigLines.field_value [l1; l2; l3] 1 l2 _ eq_refl N2).
  rewrite (ConfigLines.field_value [l1; l2; l3] 2 l3 _ eq_refl N3).
  rewrite C1, C2, C3.
  destruct W1 as (_ & _ & (X1 & _) & _), W2 as (_ & _ & (X2 & _) & _),
    W3 as (_ & _ & (X3 & _) & _).
  destruct v1; [contradiction|]. destruct v2; [contradiction|].
  destruct v3; [contradiction|]. reflexivity.
Qed.

Lemma X6_written_values_are_read_back_witness :
  Config.read_config
    ([[" "%char]]
     ++ Config.written_line (list_ascii_of_string "device_address") []
          false (list_ascii_of_string "AA:BB:CC:DD:EE:FF") ["010"%char]
     :: [] ++ Config.written_line (list_ascii_of_string "service_uuid ") [" "%char]
          true (list_ascii_of_string "F000C0E0") ["013"%char; "010"%char]
     :: [["010"%char]]
     ++ Config.written_line [] [] false (list_ascii_of_string "F000C0E1") []
     :: [])
  = Config.Parsed (list_ascii_of_string "AA:BB:CC:DD:EE:FF")
      (list_ascii_of_string "F000C0E0") (list_ascii_of_string "F000C0E1").
Proof.
  apply X6_written_values_are_read_back.
  - repeat split; try (repeat constructor); try discriminate.
    cbn. intuition discriminate.
  - repeat split; try (repeat constructor); try discriminate.
    cbn. intuition discriminate.
  - repeat split; try (repeat constructor); try discriminate.
    cbn. intuition discriminate.
  - repeat constructor.
Defined.

(** X7.  Only the first three non-blank lines are read: lines added after an
    accepted configuration do not change the values, provided each added
    line is blank or has exactly one equals sign. *)
Theorem X7_later_lines_are_not_read (f extra : list PyStr.str)
    (device_address service_uuid characteristic_uuid : PyStr.str) :
  Config.read_config f
  = Config.Parsed device_address service_uuid characteristic_uuid ->
  Config.all_key_value extra ->
  Config.read_config (f ++ extra)
  = Config.Parsed device_address service_uuid characteristic_uuid.
Proof.
  intros E X.
  destruct (ConfigFacts.read_config_cases f)
    as [(E' & _) | [(E' & _) | (A & _ & H)]]; try congruence.
  destruct H as (l0 & l1 & l2 & rest & a & s & c & L & Fa & Fs & Fc & R).
  rewrite R in E. rewrite <- E. clear E R.
  apply ConfigFacts.forallb_key_value in A, X.
  unfold Config.read_config. cbv zeta.
  rewrite ConfigValues.stripped_lines_app, forallb_app, A, X.
  rewrite L in *. cbn [app List.length negb andb Nat.ltb Nat.leb].
  assert (G : forall i x, (i < 3)%nat ->
            Config.field (l0 :: l1 :: l2 :: rest) i = Some x ->
            Config.field (l0 :: l1 :: l2 :: rest ++ Config.stripped_lines extra) i
            = Some x).
  { intros i x Hi. unfold Config.field.
    destruct i as [|[|[|i]]]; [easy | easy | easy | lia]. }
  now rewrite (G 0%nat a), (G 1%nat s), (G 2%nat c) by (assumption || lia).
Qed.

Lemma X7_later_lines_are_not_read_witness :
  Config.read_config
    (map list_ascii_of_string ["a=AA:BB"; "b=S"; "c=C"]
     ++ map list_ascii_of_string ["note=later"; "  "])
  = Config.Parsed (list_ascii_of_string "AA:BB") (list_ascii_of_string "S")
      (list_ascii_of_string "C").
Proof.
  apply X7_later_lines_are_not_read.
  - reflexivity.
  - intros line [<-|[<-|[]]] N; [reflexivity | now contradiction N].
Defined.
(** ** Every run *)

(** X8.  On every host and for either verbosity, whether the run returns or
    raises, each argument is used for what the docstring says: every scan
    is addressed to [device_address] with [scan_timeout], the reporter task
    is sized to [scan_timeout], the connection is opened with
    [connection_timeout], and the run suspends itself for [retry_delay] or
    for the one-second throttle only. *)
Theorem X8_arguments_are_used_as_documented (h : Host)
    (device_address service_uuid characteristic_uuid : string)
    (connection_timeout retry_delay scan_timeout : Q) (verbose : bool)
    (c : counters) :
  Forall (uses_arguments device_address connection_timeout retry_delay scan_timeout)
    (snd (gather_bgx_data h device_address service_uuid characteristic_uuid
            connection_timeout retry_delay scan_timeout verbose c)).
Proof.
  apply (always_gather_bgx_data h device_address service_uuid characteristic_uuid
           connection_timeout retry_delay scan_timeout verbose).
  - intros e _ U. exact U.
  - intros l S _. destruct l; try exact I. contradiction S.
  - now right.
  - intros a. exact I.
  - intros a. exact I.
  - exact I.
  - exact I.
  - intros msg. exact I.
  - intros d a _. reflexivity.
  - intros services s _ _ _. exact I.
  - intros services s ch a _ _ _ _ _. exact I.
Qed.

(** X9.  On every host and for either verbosity, the run acts only on what
    the host stack gave it: a connection is attempted only to a device that
    a scan of the configured address returned; a service line is printed,
    and a characteristic is read, only for a service of the listing whose
    description names the vendor, and a read only for a characteristic of
    such a service that has the tag "read". *)
Theorem X9_acts_on_host_data_only (h : Host)
    (device_address service_uuid characteristic_uuid : string)
    (connection_timeout retry_delay scan_timeout : Q) (verbose : bool)
    (c : counters) :
  Forall (acts_on_host_data h device_address scan_timeout)
    (snd (gather_bgx_data h device_address service_uuid characteristic_uuid
            connection_timeout retry_delay scan_timeout verbose c)).
Proof.
  apply (always_gather_bgx_data h device_address service_uuid characteristic_uuid
           connection_timeout retry_delay scan_timeout verbose).
  - intros e D _. destruct e as [l| | | | | | | | | | |]; try exact I;
      try contradiction D. destruct l; try exact I; contradiction D.
  - intros l S N. destruct l as [| | | |u d| | | | |]; try exact I.
    now contradiction (N u d).
  - exact I.
  - intros a. exact I.
  - intros a. exact I.
  - exact I.
  - exact I.
  - intros msg. exact I.
  - intros d a H. exact H.
  - intros services s G Hs R. now exists services, s.
  - intros services s ch a G Hs R Hc Hr. now exists services, s, ch.
Qed.
(** ** The stages of a run *)

Lemma session_of_connected_phase (h : Host) (characteristic_uuid : string)
    (verbose : bool) :
  always session_event (connected_phase h characteristic_uuid verbose).
Proof.
  apply always_connected_phase; try (intros; exact I).
  intros l S _. exact S.
Qed.

(** The run is the run of the retry loop followed by one of four ends. *)
Lemma gather_stages (h : Host)
    (address service_uuid characteristic_uuid : string)
    (connection_timeout retry_delay scan_timeout : Q) (verbose : bool)
    (c : counters) :
  exists tail,
    snd (gather_bgx_data h address service_uuid characteristic_uuid
           connection_timeout retry_delay scan_timeout verbose c)
    = snd (locate h address retry_delay scan_timeout verbose (seq 0 retries) c)
      ++ tail
    /\ after_discovery connection_timeout tail.
Proof.
  unfold gather_bgx_data, bind.
  destruct (locate h address retry_delay scan_timeout verbose (seq 0 retries) c)
    as [[[[d|]|e] c1] t1].
  - unfold try_except, with_BleakClient, finally, bind, emit, lift_answer.
    pose proof (session_of_connected_phase h characteristic_uuid verbose c1) as S.
    destruct (connect_answer h d connection_timeout) as [[]|f].
    + unfold ret. cbv beta iota zeta.
      destruct (connected_phase h characteristic_uuid verbose c1)
        as [[r2 c2] t2]. cbn [snd] in S. cbv beta iota zeta.
      destruct r2 as [[]|e].
      * exists (Connect d connection_timeout (Ok tt) :: t2 ++ [Disconnect]).
        split; [now rewrite ?app_nil_l|].
        right; right; right. exists d, t2, []. repeat split; [exact S | now left].
      * destruct (connection_handler e) as [k|] eqn:E.
        -- destruct e; try discriminate E. injection E as <-.
           unfold print, emit. cbn [snd app].
           exists (Connect d connection_timeout (Ok tt)
                   :: t2 ++ [Disconnect; Print (ConnectionOrGatheringError msg)]).
           split.
           { f_equal. cbn [app]. f_equal. now rewrite <- app_assoc. }
           right; right; right.
           exists d, t2, [Print (ConnectionOrGatheringError msg)].
           repeat split; [exact S | right; now exists msg].
        -- exists (Connect d connection_timeout (Ok tt) :: t2 ++ [Disconnect]).
           split; [now rewrite ?app_nil_l|].
           right; right; right. exists d, t2, [].
           repeat split; [exact S | now left].
    + unfold raise. cbv beta iota zeta.
      destruct f as [|msg]; cbn [exn_of_fault connection_handler].
      * exists [Connect d connection_timeout (Raises Timeout)].
        split; [reflexivity|]. right; right; left.
        exists d, Timeout, []. split; [reflexivity | now left].
      * unfold print, emit. cbn [snd app].
        exists [Connect d connection_timeout (Raises (Protocol msg));
                Print (ConnectionOrGatheringError msg)].
        split; [reflexivity|]. right; right; left.
        exists d, (Protocol msg), [Print (ConnectionOrGatheringError msg)].
        split; [reflexivity | right; now exists msg].
  - unfold print, emit. exists [Print DeviceNotFound].
    split; [reflexivity | right; now left].
  - exists []. split; [now rewrite app_nil_r | now left].
Qed.

(** X10.  The stages of every run, on every host and for either verbosity:
    the events of the discovery phase come first; then the run ends at
    once (the discovery raised), or with the line that the device was not
    found, or with one failed connection, or with one connection, the
    events of the session, and the disconnection; after the connection
    has ended nothing follows but, at most, the one line of the outer
    error handler.  So the connection is always released, and nothing is
    read or listed outside it. *)
Theorem X10_stages_of_a_run (h : Host)
    (address service_uuid characteristic_uuid : string)
    (connection_timeout retry_delay scan_timeout : Q) (verbose : bool)
    (c : counters) :
  exists discovery tail,
    snd (gather_bgx_data h address service_uuid characteristic_uuid
           connection_timeout retry_delay scan_timeout verbose c)
    = discovery ++ tail
    /\ Forall discovery_event discovery
    /\ after_discovery connection_timeout tail.
Proof.
  destruct (gather_stages h address service_uuid characteristic_uuid
              connection_timeout retry_delay scan_timeout verbose c)
    as (tail & E & A).
  eexists _, tail. split; [exact E|]. split; [|exact A].
  apply discovery_of_locate.
Qed.

(** ** Bounds *)

Section AtMost.
Context (f : event -> bool).

Lemma at_most_le {A} (n n' : nat) (m : M A) :
  (n <= n')%nat -> at_most f n m -> at_most f n' m.
Proof. intros L H c. specialize (H c). lia. Qed.

Lemma at_most_ret {A} (a : A) : at_most f 0 (ret a).
Proof. intros c. cbn. lia. Qed.

Lemma at_most_raise {A} (e : exn) : at_most f 0 (@raise A e).
Proof. intros c. cbn. lia. Qed.

Lemma at_most_emit (e : event) : at_most f (if f e then 1 else 0) (emit e).
Proof. intros c. cbn. destruct (f e); cbn; lia. Qed.

Lemma at_most_bind {A B} (n1 n2 : nat) (m : M A) (k : A -> M B) :
  at_most f n1 m -> (forall a, at_most f n2 (k a)) ->
  at_most f (n1 + n2) (bind m k).
Proof.
  intros Hm Hk c. unfold bind. specialize (Hm c).
  destruct (m c) as [[[a|e] c1] t1]; cbn [snd] in *; [|lia].
  specialize (Hk a c1). destruct (k a c1) as [[r2 c2] t2]. cbn [snd] in *.
  rewrite filter_app, length_app. lia.
Qed.

Lemma at_most_try_except {A} (n1 n2 : nat) (body : M A)
    (handler : exn -> option (M A)) :
  at_most f n1 body ->
  (forall e k, handler e = Some k -> at_most f n2 k) ->
  at_most f (n1 + n2) (try_except body handler).
Proof.
  intros Hb Hh c. unfold try_except. specialize (Hb c).
  destruct (body c) as [[[a|e] c1] t1]; cbn [snd] in *; [lia|].
  destruct (handler e) as [k|] eqn:E; cbn [snd]; [|lia].
  specialize (Hh e k E c1). destruct (k c1) as [[r2 c2] t2]. cbn [snd] in *.
  rewrite filter_app, length_app. lia.
Qed.

Lemma at_most_find_device (h : Host) (address : string) (timeout : Q)
    (background : list event) :
  filter f background = [] ->
  at_most f 1 (find_device_by_address h address timeout background).
Proof.
  intros B c. cbn [find_device_by_address snd filter].
  destruct (f _); cbn [List.length]; rewrite B; cbn; lia.
Qed.

End AtMost.

Lemma writes_are_not_scans (ws : list frame) :
  filter is_scan (map Write ws) = [].
Proof. induction ws; [reflexivity | assumption]. Qed.

Lemma at_most_two_scans_per_attempt (h : Host) (address : string)
    (scan_timeout : Q) (verbose : bool) (attempt : nat) :
  at_most is_scan 2 (scan_attempt h address scan_timeout verbose attempt).
Proof.
  unfold scan_attempt.
  apply (at_most_bind is_scan 0 2).
  { destruct verbose; [|apply at_most_ret].
    apply (at_most_bind is_scan 0 0); [apply at_most_emit|]. intros _.
    apply (at_most_bind is_scan 0 0); [|intros; apply at_most_ret].
    unfold create_task. apply (at_most_bind is_scan 0 0); [apply at_most_emit|].
    intros _. destruct (Reporter.animate_progress_bar _ _). apply at_most_ret. }
  intros progress_task. apply (at_most_bind is_scan 1 1).
  { apply at_most_find_device. destruct progress_task; [|reflexivity].
    apply writes_are_not_scans. }
  intros _. apply (at_most_bind is_scan 0 1).
  { destruct progress_task; [apply at_most_ret | apply at_most_raise]. }
  intros t. apply (at_most_bind is_scan 0 1); [apply at_most_emit|].
  intros _. apply (at_most_bind is_scan 0 1).
  - apply (at_most_try_except is_scan 0 0).
    + unfold await_task. apply (at_most_bind is_scan 0 0); [apply at_most_emit|].
      intros _. destruct (task_state t);
        [apply at_most_raise | apply at_most_ret | apply at_most_raise].
    + intros e k E. destruct e; try discriminate E. injection E as <-.
      apply at_most_ret.
  - intros _. now apply at_most_find_device.
Qed.

Lemma at_most_scans_of_locate (h : Host) (address : string)
    (retry_delay scan_timeout : Q) (verbose : bool) (attempts : list nat) :
  at_most is_scan (2 * List.length attempts)
    (locate h address retry_delay scan_timeout verbose attempts).
Proof.
  induction attempts as [|k rest IH]; cbn [locate]; [apply at_most_ret|].
  apply at_most_le with (n := (2 + 2 * List.length rest)%nat); [cbn; lia|].
  apply at_most_bind; [apply at_most_two_scans_per_attempt|].
  intros [d|]; [eapply at_most_le; [|apply at_most_ret]; lia|].
  apply (at_most_bind is_scan 0); [apply at_most_emit|]. intros _.
  apply (at_most_bind is_scan 0); [apply at_most_emit|]. intros _. exact IH.
Qed.

Lemma discovery_counts (t : list event) :
  Forall discovery_event t ->
  filter is_connect t = [] /\ filter is_disconnect t = [].
Proof.
  induction 1 as [|e t D _ (IH1 & IH2)]; [now split|].
  destruct e as [l| | | | | | | | | | |]; try contradiction D; now cbn.
Qed.

Lemma session_counts (t : list event) :
  Forall session_event t ->
  filter is_scan t = [] /\ filter is_connect t = []
  /\ filter is_disconnect t = [].
Proof.
  induction 1 as [|e t D _ (IH1 & IH2 & IH3)]; [now repeat split|].
  destruct e as [l| | | | | | | | | | |]; try contradiction D; now cbn.
Qed.

Lemma after_discovery_counts (connection_timeout : Q) (t : list event) :
  after_discovery connection_timeout t ->
  filter is_scan t = []
  /\ (List.length (filter is_connect t) <= 1)%nat
  /\ (List.length (filter is_disconnect t) <= 1)%nat.
Proof.
  intros [->|[->|[(d & f & rest & -> & C)|(d & body & rest & -> & S & C)]]];
    try (cbn; repeat split; lia).
  - destruct C as [->|(msg & ->)]; cbn; repeat split; lia.
  - destruct (session_counts body S) as (S1 & S2 & S3).
    cbn [filter is_scan is_connect is_disconnect].
    rewrite !filter_app. cbn [filter is_scan is_connect is_disconnect].
    rewrite S1, S2, S3.
    destruct C as [->|(msg & ->)]; cbn; repeat split; lia.
Qed.

(** X11.  Bounds that hold on every host and for either verbosity, whether
    the run returns or raises: a run issues at most six scans, attempts at
    most one connection (a failed connection is not retried) and
    disconnects at most once. *)
Theorem X11_bounds_of_a_run (h : Host)
    (address service_uuid characteristic_uuid : string)
    (connection_timeout retry_delay scan_timeout : Q) (verbose : bool)
    (c : counters) :
  let t := snd (gather_bgx_data h address service_uuid characteristic_uuid
                  connection_timeout retry_delay scan_timeout verbose c) in
  (List.length (filter is_scan t) <= 6)%nat
  /\ (List.length (filter is_connect t) <= 1)%nat
  /\ (List.length (filter is_disconnect t) <= 1)%nat.
Proof.
  intros t. subst t.
  destruct (gather_stages h address service_uuid characteristic_uuid
              connection_timeout retry_delay scan_timeout verbose c)
    as (tail & -> & A).
  destruct (after_discovery_counts _ _ A) as (T1 & T2 & T3).
  destruct (discovery_counts _
              (discovery_of_locate h address retry_delay scan_timeout verbose
                 (seq 0 retries) c)) as (D1 & D2).
  pose proof (at_most_scans_of_locate h address retry_delay scan_timeout verbose
                (seq 0 retries) c) as B.
  rewrite !filter_app, !length_app, T1, D1, D2. cbn in B |- *. lia.
Qed.

(** ** The attempt that finds the device *)

Lemma notices_of_attempt (address : string) (scan_timeout : Q) (attempt : nat)
    (ws : list frame) (x1 x2 : option BLEDevice) :
  notices (attempt_trace address scan_timeout attempt ws x1 x2)
  = [Print (Attempting address (attempt + 1) retries)].
Proof.
  unfold notices, attempt_trace. rewrite !filter_app.
  cbn [filter is_notice app].
  replace (filter is_notice (map Write ws)) with (@nil event); [reflexivity|].
  induction ws; [reflexivity | assumption].
Qed.

Section Found.
Variables (h : Host) (address : string) (retry_delay scan_timeout : Q)
  (d : BLEDevice) (k : nat).
Hypothesis budget : 0 < scan_timeout.
Hypothesis clock : clock_not_negative h.
Hypothesis first_scans :
  forall i, (i <= k)%nat ->
            exists x, scan_answer h (2 * i) address scan_timeout = Ok x.
Hypothesis second_scans_before :
  forall i, (i < k)%nat ->
            scan_answer h (S (2 * i)) address scan_timeout = Ok None.
Hypothesis second_scan_finds :
  scan_answer h (S (2 * k)) address scan_timeout = Ok (Some d).

Lemma locate_found (n j : nat) (c : counters) :
  n_scans c = (2 * j)%nat -> (j <= k)%nat -> (k < j + n)%nat ->
  exists c' t,
    locate h address retry_delay scan_timeout true (seq j n) c
    = (Val (Some d), c', t)
    /\ List.length (scans t) = (2 * (k + 1 - j))%nat
    /\ notices t
       = flat_map (fun i => [Print (Attempting address (i + 1) retries);
                             Print (NotFoundRetrying (i + 1) retries);
                             Sleep retry_delay]) (seq j (k - j))
         ++ [Print (Attempting address (k + 1) retries)].
Proof.
  revert j c. induction n as [|n IH]; intros j c Hc Hj Hk; [lia|].
  cbn [seq locate]. unfold bind at 1.
  destruct (first_scans j Hj) as [x1 E1].
  destruct (Nat.eq_dec j k) as [->|Nj].
  - rewrite (scan_attempt_verbose h address scan_timeout k c x1 (Some d) budget
               (clock k));
      [|now rewrite Hc | now rewrite Hc].
    eexists _, _. split; [reflexivity|]. rewrite app_nil_r. split.
    + unfold scans. fold (scans (attempt_trace address scan_timeout k
        (fst (Reporter.animate_progress_bar scan_timeout (reporter_clock h k)))
        x1 (Some d))).
      rewrite attempt_issues_two_scans. cbn [List.length]. lia.
    + rewrite notices_of_attempt, Nat.sub_diag. reflexivity.
  - assert (Lt : (j < k)%nat) by lia.
    rewrite (scan_attempt_verbose h address scan_timeout j c x1 None budget
               (clock j));
      [|now rewrite Hc | rewrite Hc; now apply second_scans_before].
    destruct (IH (S j) (bump_scans 2 c)) as (c' & t & E & Sc & No);
      [cbn; lia | lia | lia|].
    unfold bind, print, sleep, emit. rewrite E.
    eexists _, _. split; [reflexivity|]. split.
    + unfold scans in *. rewrite !filter_app.
      fold (scans (attempt_trace address scan_timeout j
        (fst (Reporter.animate_progress_bar scan_timeout (reporter_clock h j)))
        x1 None)).
      rewrite attempt_issues_two_scans, !length_app. cbn [filter is_scan List.length app].
      rewrite Sc. lia.
    + unfold notices in *. rewrite !filter_app.
      fold (notices (attempt_trace address scan_timeout j
        (fst (Reporter.animate_progress_bar scan_timeout (reporter_clock h j)))
        x1 None)).
      rewrite notices_of_attempt. cbn [filter is_notice app]. rewrite No.
      replace (k - j)%nat with (S (k - S j)) by lia. reflexivity.
Qed.
End Found.

(** X12.  The attempt that finds the device.  With [verbose] set, a
    positive scan timeout and a reporter whose clock readings are not
    negative, let the second scan of attempt [k+1] (of three) be the first
    second scan that returns a device, all scans before it returning
    without fault.  Then the retry loop returns that device,
    after exactly [2(k+1)] scans and [k] retry notices, each followed by
    one suspension for [retry_delay]; what the first scan of an attempt
    returned plays no part. *)
Theorem X12_found_on_a_later_attempt (h : Host) (address : string)
    (retry_delay scan_timeout : Q) (d : BLEDevice) (k : nat) :
  (k < retries)%nat ->
  0 < scan_timeout ->
  clock_not_negative h ->
  (forall i, (i <= k)%nat ->
             exists x, scan_answer h (2 * i) address scan_timeout = Ok x) ->
  (forall i, (i < k)%nat ->
             scan_answer h (S (2 * i)) address scan_timeout = Ok None) ->
  scan_answer h (S (2 * k)) address scan_timeout = Ok (Some d) ->
  exists t,
    run (locate h address retry_delay scan_timeout true (seq 0 retries))
    = (Val (Some d), t)
    /\ List.length (scans t) = (2 * (k + 1))%nat
    /\ notices t
       = flat_map (fun i => [Print (Attempting address (i + 1) retries);
                             Print (NotFoundRetrying (i + 1) retries);
                             Sleep retry_delay]) (seq 0 k)
         ++ [Print (Attempting address (k + 1) retries)].
Proof.
  intros Hk Hd Hc H1 H2 H3.
  destruct (locate_found h address retry_delay scan_timeout d k Hd Hc H1 H2 H3
              retries 0 {| n_scans := 0; n_reads := 0 |})
    as (c' & t & E & Sc & No); [reflexivity | lia | lia|].
  exists t. split; [now apply run_of with (c' := c')|].
  rewrite Nat.sub_0_r in *. now split.
Qed.

Lemma X12_found_on_a_later_attempt_witness :
  exists t,
    run (locate
           {| scan_answer := fun n _ _ =>
                if Nat.eqb n 3 then Ok (Some Scenario.device) else Ok None;
              reporter_clock := fun _ => [0; 1 # 8];
              connect_answer := fun _ _ => Ok tt;
              is_connected_answer := Ok true;
              get_services_answer := Ok [];
              read_answer := fun _ _ => Ok [] |}
           Scenario.address 2 20 true (seq 0 retries))
    = (Val (Some Scenario.device), t)
    /\ List.length (scans t) = (2 * (1 + 1))%nat
    /\ notices t
       = flat_map (fun i => [Print (Attempting Scenario.address (i + 1) retries);
                             Print (NotFoundRetrying (i + 1) retries);
                             Sleep 2]) (seq 0 1)
         ++ [Print (Attempting Scenario.address (1 + 1) retries)].
Proof.
  apply X12_found_on_a_later_attempt.
  - unfold retries. lia.
  - reflexivity.
  - intros a. repeat constructor; discriminate.
  - intros i Hi. cbn [scan_answer]. destruct (Nat.eqb (2 * i) 3); eauto.
  - intros i Hi. assert (i = 0%nat) as -> by lia. reflexivity.
  - reflexivity.
Defined.

(** ** The script *)


(** X14.  Started without [-v] on an accepted configuration, the script
    issues one scan, addressed to the first value of the file, and, when
    that scan returns, ends with the unhandled [UnboundLocalError] and
    exit status 1: the tool reaches no device unless [-v] is given. *)
Theorem X14_without_verbose (args : Script.Args) (f : list PyStr.str)
    (a s c : PyStr.str) (h : Host) (d : option BLEDevice) :
  Script.verbose args = false ->
  Config.read_config f = Config.Parsed a s c ->
  scan_answer h 0 (string_of_list_ascii a) (Script.scan_timeout args) = Ok d ->
  Script.main args (Script.Lines f) h
  = {| Script.messages := [Script.Banner];
       Script.pipeline :=
         Some (Exc (UnboundLocalError "progress_task"),
               [FindDevice (string_of_list_ascii a) (Script.scan_timeout args)
                  (Ok d)]);
       Script.exit_status := 1 |}.
Proof.
  intros V R E. unfold Script.main. rewrite R, V.
  assert (Q : run (gather_bgx_data h (string_of_list_ascii a)
                     (string_of_list_ascii s) (string_of_list_ascii c)
                     (Script.connection_timeout args) (Script.retry_delay args)
                     (Script.scan_timeout args) false)
              = (Exc (UnboundLocalError "progress_task"),
                 [FindDevice (string_of_list_ascii a) (Script.scan_timeout args)
                    (Ok d)])).
  { unfold run, gather_bgx_data. cbn [seq retries locate]. unfold bind.
    rewrite scan_attempt_quiet. cbn [n_scans]. now rewrite E. }
  now rewrite Q.
Qed.

Lemma X14_without_verbose_witness :
  Script.main (Script.default_args "bgx.conf" false)
    (Script.Lines (map list_ascii_of_string
                     ["device_address=AA:BB:CC:DD:EE:FF"; "service_uuid=S";
                      "characteristic_uuid=C"]))
    (Scenario.present [Scenario.xpress_service])
  = {| Script.messages := [Script.Banner];
       Script.pipeline :=
         Some (Exc (UnboundLocalError "progress_task"),
               [FindDevice "AA:BB:CC:DD:EE:FF" 20 (Ok (Some Scenario.device))]);
       Script.exit_status := 1 |}.
Proof.
  apply (X14_without_verbose (Script.default_args "bgx.conf" false) _
           (list_ascii_of_string "AA:BB:CC:DD:EE:FF") (list_ascii_of_string "S")
           (list_ascii_of_string "C")).
  - reflexivity.
  - reflexivity.
  - reflexivity.
Defined.

(** X15.  Started with [-v] and a positive scan timeout on an accepted
    configuration, with a reporter whose clock readings are not negative,
    when no scan finds the device the script ends with the line that the
    device was not found, without connecting, and its exit status is 0,
    the status of a successful harvest. *)
Theorem X15_not_found_exits_zero (args : Script.Args) (f : list PyStr.str)
    (a s c : PyStr.str) (h : Host) :
  Script.verbose args = true ->
  0 < Script.scan_timeout args ->
  clock_not_negative h ->
  Config.read_config f = Config.Parsed a s c ->
  (forall n, scan_answer h n (string_of_list_ascii a) (Script.scan_timeout args)
             = Ok None) ->
  exists t,
    Script.main args (Script.Lines f) h
    = {| Script.messages := [Script.Banner];
         Script.pipeline := Some (Val tt, t ++ [Print DeviceNotFound]);
         Script.exit_status := 0 |}
    /\ existsb is_connect t = false.
Proof.
  intros V Hd Hc R Hs. unfold Script.main. rewrite R, V.
  destruct (locate_none h (string_of_list_ascii a) (Script.retry_delay args)
              (Script.scan_timeout args) (seq 0 retries)
              {| n_scans := 0; n_reads := 0 |} Hd Hc Hs) as (c' & t & E & _ & F).
  exists t. split.
  - assert (Q : run (gather_bgx_data h (string_of_list_ascii a)
                       (string_of_list_ascii s) (string_of_list_ascii c)
                       (Script.connection_timeout args) (Script.retry_delay args)
                       (Script.scan_timeout args) true)
                = (Val tt, t ++ [Print DeviceNotFound])).
    { apply run_of with (c' := c').
      unfold gather_bgx_data, bind, print, emit. now rewrite E. }
    now rewrite Q.
  - now destruct (locator_events_silent t F) as (_ & _ & ->).
Qed.

Lemma X15_not_found_exits_zero_witness :
  exists t,
    Script.main (Script.default_args "bgx.conf" true)
      (Script.Lines (map list_ascii_of_string
                       ["device_address=AA:BB:CC:DD:EE:FF"; "service_uuid=S";
                        "characteristic_uuid=C"]))
      Scenario.out_of_range
    = {| Script.messages := [Script.Banner];
         Script.pipeline := Some (Val tt, t ++ [Print DeviceNotFound]);
         Script.exit_status := 0 |}
    /\ existsb is_connect t = false.
Proof.
  apply (X15_not_found_exits_zero (Script.default_args "bgx.conf" true) _
           (list_ascii_of_string "AA:BB:CC:DD:EE:FF") (list_ascii_of_string "S")
           (list_ascii_of_string "C")).
  - reflexivity.
  - reflexivity.
  - intros k. repeat constructor; discriminate.
  - reflexivity.
  - reflexivity.
Defined.

(** ** The reporter over a whole scan *)

Module ReporterRun.
Import Binary64 Binary64Facts Reporter ReporterFacts.
Local Open Scope Q_scope.

(** One tick with a positive budget and a non-negative reading. *)
Lemma tick (d e : Q) (later : list Q) :
  0 < d -> 0 <= e ->
  exists f,
    List.length (bar f) = 40%nat
    /\ animate_progress_bar d (e :: later)
       = if Qle_bool 1 (nearest (e / d)) then ([full_frame], Finished)
         else (f :: fst (animate_progress_bar d later),
               snd (animate_progress_bar d later)).
Proof.
  intros Hd He.
  destruct (frame_values d e Hd He) as (p & Ep & R & P1 & G & E & Hn & _ & Rn).
  assert (X : Qle_bool 1 p = Qle_bool 1 (nearest (e / d))).
  { destruct (Qle_bool 1 (nearest (e / d))) eqn:B.
    - apply Qle_bool_iff. apply Qle_bool_iff in B. rewrite Ep.
      apply Q.min_glb; [exact B | apply Qle_refl].
    - destruct (Qle_bool 1 p) eqn:B'; [|reflexivity].
      apply Qle_bool_iff in B'. rewrite Ep in B'.
      assert (B'' : 1 <= nearest (e / d))
        by (eapply Qle_trans; [exact B' | apply Q.le_min_l]).
      apply Qle_bool_iff in B''. congruence. }
  exists {| bar := repeat Filled (Z.to_nat (Qfloor (nearest (inject_Z 40 * p))))
                     ++ repeat Blank
                          (Z.to_nat (40 - Qfloor (nearest (inject_Z 40 * p))));
            percent := Qfloor (nearest (p * 100)) |}.
  split; [|cbn [animate_progress_bar]; rewrite E; cbn [and_then];
           rewrite Rn; cbn [and_then geb]; rewrite X].
  - cbn [bar]. rewrite length_app, !repeat_length. lia.
  - destruct (Qle_bool 1 (nearest (e / d))) eqn:B.
    + apply Qle_bool_iff, P1 in X. subst p. reflexivity.
    + now destruct (animate_progress_bar d later).
Qed.

(** Between binary64 numbers the rounded quotient reaches 1 exactly when
    the reading reaches the budget. *)
Lemma reaches_budget (d e : Q) :
  0 < d -> 0 <= e -> representable d -> representable e ->
  (1 <= nearest (e / d) <-> d <= e).
Proof.
  intros Hd He Rd Re.
  destruct (frame_values d e Hd He) as (p & Ep & _ & _ & G & _).
  rewrite <- (reaches_one e d Re Rd He Hd), G, Qle_bool_iff, Ep.
  split; intros H.
  - apply Q.min_glb; [exact H | apply Qle_refl].
  - eapply Qle_trans; [exact H | apply Q.le_min_l].
Qed.

Lemma filled_of_bar (a b : nat) :
  count_occ segment_eq_dec (repeat Filled a ++ repeat Blank b) Filled = a.
Proof.
  rewrite count_occ_app, count_occ_repeat_eq by reflexivity.
  rewrite count_occ_repeat_neq by discriminate. lia.
Qed.

Lemma fraction_monotone (d e1 e2 : Q) :
  0 < d -> e1 <= e2 ->
  Qmin (nearest (e1 / d)) 1 <= Qmin (nearest (e2 / d)) 1.
Proof.
  intros Hd H. apply Q.min_le_compat_r, nearest_le. unfold Qdiv.
  apply Qmult_le_compat_r; [exact H|].
  apply Qlt_le_weak, Qinv_lt_0_compat, Hd.
Qed.

End ReporterRun.

(** X16.  A whole run of the reporter with a positive budget and
    non-negative clock readings: every frame it writes has exactly 40
    segments; it ends by itself exactly when the rounded quotient of some
    reading by the budget reaches 1, which between binary64 numbers is
    when some reading reaches the budget; then its last frame is the full
    bar at 100 per cent and nothing is written after it; otherwise it
    writes one frame for each reading and is still suspended when its
    owner cancels it.  It never fails. *)
Theorem X16_reporter_run (d : Q) (clock : list Q) :
  0 < d -> Forall (fun e => 0 <= e) clock ->
  let ws := fst (Reporter.animate_progress_bar d clock) in
  let st := snd (Reporter.animate_progress_bar d clock) in
  Forall (fun f => List.length (bar f) = 40%nat) ws
  /\ (st = Reporter.Finished \/ st = Reporter.Suspended)
  /\ (st = Reporter.Finished
      <-> Exists (fun e => 1 <= Binary64.nearest (e / d)) clock)
  /\ (Binary64.representable d -> Forall Binary64.representable clock ->
      (st = Reporter.Finished <-> Exists (fun e => d <= e) clock))
  /\ (st = Reporter.Finished ->
      exists before, ws = before ++ [full_frame]
                     /\ (List.length ws <= List.length clock)%nat)
  /\ (st = Reporter.Suspended -> List.length ws = List.length clock).
Proof.
  intros Hd Hc. cbv zeta.
  assert (G : Forall (fun f => List.length (bar f) = 40%nat)
                (fst (Reporter.animate_progress_bar d clock))
              /\ (snd (Reporter.animate_progress_bar d clock) = Reporter.Finished
                  \/ snd (Reporter.animate_progress_bar d clock) = Reporter.Suspended)
              /\ (snd (Reporter.animate_progress_bar d clock) = Reporter.Finished
                  <-> Exists (fun e => 1 <= Binary64.nearest (e / d)) clock)
              /\ (snd (Reporter.animate_progress_bar d clock) = Reporter.Finished ->
                  exists before,
                    fst (Reporter.animate_progress_bar d clock) = before ++ [full_frame]
                    /\ (List.length (fst (Reporter.animate_progress_bar d clock))
                        <= List.length clock)%nat)
              /\ (snd (Reporter.animate_progress_bar d clock) = Reporter.Suspended ->
                  List.length (fst (Reporter.animate_progress_bar d clock))
                  = List.length clock)).
  { induction Hc as [|e later He Hl IH].
    - cbn. split; [constructor|]. split; [now right|].
      split; [split; [discriminate | intros H; inversion H]|].
      split; [discriminate | reflexivity].
    - destruct (ReporterRun.tick d e later Hd He) as (f & L & T). rewrite T.
      destruct (Qle_bool 1 (Binary64.nearest (e / d))) eqn:B.
      + apply Qle_bool_iff in B. cbn [fst snd].
        split; [now repeat constructor|]. split; [now left|].
        split; [split; [intros _; now left | reflexivity]|].
        split; [|discriminate]. intros _. exists []. split; [reflexivity|].
        cbn. lia.
      + destruct IH as (I1 & I2 & I3 & I4 & I5). cbn [fst snd]. split.
        { now constructor. }
        split; [exact I2|]. split.
        { rewrite I3. split; [intros H; now right|].
          intros H. inversion H as [? ? H0|? ? H0]; subst; [|exact H0].
          apply Qle_bool_iff in H0. congruence. }
        split.
        * intros F. destruct (I4 F) as (before & E & L').
          exists (f :: before).
          rewrite E. split; [reflexivity|]. cbn [List.length]. rewrite <- E. lia.
        * intros S. cbn [List.length]. now rewrite (I5 S). }
  destruct G as (G1 & G2 & G3 & G4 & G5).
  split; [exact G1|]. split; [exact G2|]. split; [exact G3|].
  split; [|split; [exact G4 | exact G5]].
  intros Rd Rc. rewrite G3. clear G1 G2 G3 G4 G5.
  induction Hc as [|e later He Hl IH].
  - split; intros H; inversion H.
  - apply Forall_cons_iff in Rc. destruct Rc as [Re Rc].
    rewrite !Exists_cons, (IH Rc), (ReporterRun.reaches_budget d e Hd He Rd Re).
    reflexivity.
Qed.

Lemma X16_reporter_run_witness :
  let ws := fst (Reporter.animate_progress_bar 20 [0; 10; 25; 30]) in
  let st := snd (Reporter.animate_progress_bar 20 [0; 10; 25; 30]) in
  Forall (fun f => List.length (bar f) = 40%nat) ws
  /\ (st = Reporter.Finished \/ st = Reporter.Suspended)
  /\ (st = Reporter.Finished
      <-> Exists (fun e => 1 <= Binary64.nearest (e / 20)) [0; 10; 25; 30])
  /\ (Binary64.representable 20 ->
      Forall Binary64.representable [0; 10; 25; 30] ->
      (st = Reporter.Finished <-> Exists (fun e => 20 <= e) [0; 10; 25; 30]))
  /\ (st = Reporter.Finished ->
      exists before, ws = before ++ [full_frame]
                     /\ (List.length ws <= List.length [0; 10; 25; 30])%nat)
  /\ (st = Reporter.Suspended -> List.length ws = List.length [0; 10; 25; 30]).
Proof.
  apply (X16_reporter_run 20 [0; 10; 25; 30]).
  - reflexivity.
  - repeat constructor; discriminate.
Defined.

(** X17.  The bar does not move backwards: with a positive budget, the
    frame of a later clock reading never shows fewer filled segments than
    the frame of an earlier non-negative one. *)
Theorem X17_bar_is_monotone (d e1 e2 : Q) :
  0 < d -> 0 <= e1 -> e1 <= e2 ->
  exists f1 f2,
    frame_at d e1 = Val f1 /\ frame_at d e2 = Val f2
    /\ (filled_segments f1 <= filled_segments f2)%nat.
Proof.
  intros Hd H1 H12.
  assert (H2 : 0 <= e2) by (eapply Qle_trans; eassumption).
  destruct (ReporterFacts.frame_values d e1 Hd H1)
    as (p1 & Ep1 & R1 & _ & _ & E1 & N1 & _ & F1).
  destruct (ReporterFacts.frame_values d e2 Hd H2)
    as (p2 & Ep2 & R2 & _ & _ & E2 & N2 & _ & F2).
  eexists _, _. unfold frame_at. rewrite E1, E2. cbn [and_then].
  split; [exact F1|]. split; [exact F2|].
  unfold filled_segments. cbn [bar].
  rewrite !ReporterRun.filled_of_bar. apply Z2Nat.inj_le; [lia | lia |].
  apply Qfloor_resp_le, Binary64Facts.nearest_le.
  rewrite !(Qmult_comm (inject_Z 40)).
  apply Qmult_le_compat_r; [|discriminate].
  rewrite Ep1, Ep2. now apply ReporterRun.fraction_monotone.
Qed.

Lemma X17_bar_is_monotone_witness :
  exists f1 f2,
    frame_at 20 5 = Val f1 /\ frame_at 20 15 = Val f2
    /\ (filled_segments f1 <= filled_segments f2)%nat.
Proof.
  apply X17_bar_is_monotone.
  - reflexivity.
  - discriminate.
  - discriminate.
Defined.

(** ** The reporter with a negative budget *)

Module NegativeBudget.
Import Binary64 Binary64Facts Reporter ReporterFacts.
Local Open Scope Q_scope.

Lemma quotient_nonpositive (e d : Q) : d < 0 -> 0 <= e -> e / d <= 0.
Proof.
  intros Hd He.
  assert (E : e / d == - (e / (- d))) by (field; lra).
  rewrite E. pose proof (quotient_nonneg e (- d) He ltac:(lra)). lra.
Qed.

Lemma not_finished (v : Q) : v <= 0 -> Qle_bool 1 v = false.
Proof.
  intros H. destruct (Qle_bool 1 v) eqn:B; [|reflexivity].
  apply Qle_bool_iff in B. lra.
Qed.

Lemma below_one (v : Q) : v <= 0 -> Qle_bool v 1 = true.
Proof. intros H. apply Qle_bool_iff. lra. Qed.

(** The frame of a fraction that is not positive, when there is one: no
    segment is filled and at least 40 are blank. *)
Lemma render_nonpositive (v : Q) :
  v <= 0 ->
  match render (Finite v) with
  | Val f => filled_segments f = 0%nat /\ (40 <= List.length (bar f))%nat
  | Exc _ => True
  end.
Proof.
  intros Hv. unfold render, filled_length, bar_length. cbn [mul].
  assert (S : inject_Z 40 * v <= 0) by (change (inject_Z 40) with 40; lra).
  destruct (round_nonpos _ S) as [E|(w & E & _ & Hw)]; rewrite E; [exact I|].
  rewrite (py_int_nonpositive w Hw). cbn [and_then].
  set (n := (- Qfloor (- w))%Z).
  assert (Hn : (n <= 0)%Z).
  { unfold n. assert (F : (Qfloor 0 <= Qfloor (- w))%Z) by (apply Qfloor_resp_le; lra).
    change (Qfloor 0) with 0%Z in F. lia. }
  unfold py_repeat at 1.
  destruct ((n <? - maxsize - 1)%Z || (maxsize <? n)%Z); [exact I|].
  rewrite (proj2 (Z.leb_le n 0) Hn). cbn [and_then].
  unfold py_repeat.
  destruct ((40 - n <? - maxsize - 1)%Z || (maxsize <? 40 - n)%Z); [exact I|].
  rewrite (proj2 (Z.leb_gt (40 - n) 0)) by lia.
  destruct (maxsize / 1 <? 40 - n)%Z; [exact I|]. cbn [and_then].
  destruct (py_int (round (v * 100))); [|exact I]. cbn [and_then].
  unfold filled_segments. cbn [bar app].
  rewrite count_occ_repeat_neq by discriminate. rewrite repeat_length.
  split; [reflexivity | lia].
Qed.

(** One tick with a negative budget and a non-negative reading: the task
    fails, or it writes a frame and goes on. *)
Lemma negative_tick (d e : Q) (later : list Q) :
  d < 0 -> 0 <= e ->
  (exists x, animate_progress_bar d (e :: later) = ([], Failed x))
  \/ (exists f,
        filled_segments f = 0%nat /\ (40 <= List.length (bar f))%nat
        /\ animate_progress_bar d (e :: later)
           = (f :: fst (animate_progress_bar d later),
              snd (animate_progress_bar d later))).
Proof.
  intros Hd He. cbn [animate_progress_bar].
  rewrite progress_defined by lra. cbn [and_then].
  destruct (round_nonpos _ (quotient_nonpositive e d Hd He))
    as [E|(v & E & _ & Hv)]; rewrite E; unfold py_min; cbn [ltb negb].
  - left. now exists OverflowError.
  - rewrite (below_one v Hv). cbn [negb].
    pose proof (render_nonpositive v Hv) as R.
    destruct (render (Finite v)) as [f|x]; cbn [and_then].
    + right. exists f. cbn [geb]. rewrite (not_finished v Hv).
      destruct R as [R1 R2]. split; [exact R1|]. split; [exact R2|].
      now destruct (animate_progress_bar d later).
    + left. now exists x.
Qed.

Lemma representable_opp (x : Q) : representable x -> representable (- x).
Proof.
  intros (m & k & E & Hm & Hk & B). exists (- m)%Z, k.
  split; [rewrite inject_Z_opp, E; ring|]. split; [lia|]. split; [exact Hk|].
  now rewrite Qabs_opp.
Qed.

(** One tick with a negative budget and a reading of at most 1000 times
    its absolute value: the frame is written. *)
Lemma bounded_tick (d e : Q) (later : list Q) :
  d < 0 -> 0 <= e -> e <= - d * 1000 ->
  exists f,
    (- d <= 40 * e -> (41 <= List.length (bar f))%nat)
    /\ animate_progress_bar d (e :: later)
       = (f :: fst (animate_progress_bar d later),
          snd (animate_progress_bar d later)).
Proof.
  intros Hd He Hb.
  assert (R0 : representable 0) by (apply (representable_Z 0); reflexivity).
  assert (Q0 : e / d <= 0) by now apply quotient_nonpositive.
  assert (Q1 : - (1000) <= e / d).
  { assert (X : e / - d <= 1000).
    { apply Qle_shift_div_r; [lra|]. lra. }
    assert (E : e / d == - (e / (- d))) by (field; lra). lra. }
  destruct (round_between (- inject_Z 1000) (e / d) 0) as (v & Ev & Nv & V0 & V1);
    [apply representable_opp, representable_Z; reflexivity | exact R0
    | split; [exact Q1 | exact Q0] |].
  change (- inject_Z 1000) with (- (1000)) in V0.
  destruct (round_between (- inject_Z 40000) (inject_Z 40 * v) 0)
    as (w & Ew & Nw & W0 & W1);
    [apply representable_opp, representable_Z; reflexivity | exact R0
    | change (inject_Z 40) with 40; change (- inject_Z 40000) with (- (40000));
      split; lra |].
  change (- inject_Z 40000) with (- (40000)) in W0.
  destruct (round_between (- inject_Z 100000) (v * 100) 0)
    as (u & Eu & _ & U0 & U1);
    [apply representable_opp, representable_Z; reflexivity | exact R0
    | change (- inject_Z 100000) with (- (100000)); split; lra |].
  set (n := (- Qfloor (- w))%Z).
  assert (Hn : (- 40000 <= n <= 0)%Z).
  { unfold n.
    assert (F0 : (Qfloor 0 <= Qfloor (- w))%Z) by (apply Qfloor_resp_le; lra).
    assert (F1 : (Qfloor (- w) <= Qfloor (inject_Z 40000))%Z)
      by (apply Qfloor_resp_le; change (inject_Z 40000) with 40000; lra).
    rewrite Qfloor_Z in F1. change (Qfloor 0) with 0%Z in F0. lia. }
  exists {| bar := repeat Filled (Z.to_nat n) ++ repeat Blank (Z.to_nat (40 - n));
            percent := (- Qfloor (- u))%Z |}.
  split.
  - intros H41. cbn [bar]. rewrite length_app, !repeat_length.
    assert (C : e / d <= - (1 # 40)).
    { assert (X : 1 # 40 <= e / - d).
      { apply Qle_shift_div_l; [lra|]. lra. }
      assert (E : e / d == - (e / (- d))) by (field; lra). lra. }
    assert (Cv : v <= nearest (- (1 # 40))) by (rewrite Nv; now apply nearest_le).
    assert (K1 : nearest (- (1 # 40)) <= - (1 # 40)).
    { apply Qle_bool_iff. vm_compute. reflexivity. }
    assert (K2 : nearest (inject_Z 40 * nearest (- (1 # 40))) <= - (1)).
    { apply Qle_bool_iff. vm_compute. reflexivity. }
    assert (Cw : w <= - (1)).
    { rewrite Nw. eapply Qle_trans; [|exact K2]. apply nearest_le.
      change (inject_Z 40) with 40. lra. }
    assert (F1 : (Qfloor 1 <= Qfloor (- w))%Z) by (apply Qfloor_resp_le; lra).
    change (Qfloor 1) with 1%Z in F1. lia.
  - cbn [animate_progress_bar]. rewrite progress_defined by lra.
    cbn [and_then]. rewrite Ev. unfold py_min. cbn [ltb].
    rewrite (below_one v V1). cbn [negb].
    unfold render, filled_length, bar_length. cbn [mul]. rewrite Ew.
    rewrite (py_int_nonpositive w W1). fold n. cbn [and_then].
    rewrite (py_repeat_small 10 Filled n) by lia. cbn [and_then].
    rewrite (py_repeat_small 1 Blank (40 - n)) by lia. cbn [and_then].
    rewrite Eu, (py_int_nonpositive u U1). cbn [and_then geb].
    rewrite (not_finished v V1).
    now destruct (animate_progress_bar d later).
Qed.

End NegativeBudget.

(** X18.  A negative budget (a negative scan timeout is accepted by the
    command line), with clock readings that are not negative: the reporter
    never ends by itself, and every frame it writes has no filled segment
    and a bar of at least 40 segments.  While the elapsed time is at most
    1000 times the absolute budget it does not fail either: it writes one
    frame per clock reading and is still suspended when its owner cancels
    it, and the bar has more than 40 segments once the elapsed time has
    reached one fortieth of the absolute budget. *)
Theorem X18_negative_budget (d : Q) (clock : list Q) :
  d < 0 -> Forall (fun e => 0 <= e) clock ->
  let ws := fst (Reporter.animate_progress_bar d clock) in
  let st := snd (Reporter.animate_progress_bar d clock) in
  st <> Reporter.Finished
  /\ Forall (fun f => filled_segments f = 0%nat
                      /\ (40 <= List.length (bar f))%nat) ws
  /\ (Forall (fun e => e <= - d * 1000) clock ->
      st = Reporter.Suspended
      /\ Forall2
           (fun e f => - d <= 40 * e -> (41 <= List.length (bar f))%nat)
           clock ws).
Proof.
  intros Hd Hc. cbv zeta. induction Hc as [|e later He _ (IH1 & IH2 & IH3)].
  - split; [discriminate|]. split; [constructor|]. intros _.
    split; [reflexivity | constructor].
  - split; [|split].
    + destruct (NegativeBudget.negative_tick d e later Hd He)
        as [(x & ->)|(f & _ & _ & ->)]; [discriminate | exact IH1].
    + destruct (NegativeBudget.negative_tick d e later Hd He)
        as [(x & ->)|(f & F0 & F1 & ->)]; [constructor|].
      cbn [fst]. constructor; [now split | exact IH2].
    + intros B. apply Forall_cons_iff in B. destruct B as [Be B].
      destruct (NegativeBudget.bounded_tick d e later Hd He Be) as (f & F & ->).
      destruct (IH3 B) as [S W]. cbn [fst snd]. split; [exact S|].
      now constructor.
Qed.

Lemma X18_negative_budget_witness :
  let ws := fst (Reporter.animate_progress_bar (-20) [0; 1; 30]) in
  let st := snd (Reporter.animate_progress_bar (-20) [0; 1; 30]) in
  st <> Reporter.Finished
  /\ Forall (fun f => filled_segments f = 0%nat
                      /\ (40 <= List.length (bar f))%nat) ws
  /\ (Forall (fun e => e <= - (-20) * 1000) [0; 1; 30] ->
      st = Reporter.Suspended
      /\ Forall2
           (fun e f => - (-20) <= 40 * e -> (41 <= List.length (bar f))%nat)
           [0; 1; 30] ws).
Proof.
  apply (X18_negative_budget (-20) [0; 1; 30]).
  - reflexivity.
  - repeat constructor; discriminate.
Defined.

(** ** The sections of the harvest *)

Lemma characteristic_step (h : Host) (target : string) (s : Service)
    (c : Characteristic) (t : list event) :
  In c (characteristics s) ->
  step_of (harvest_characteristic h target) c t ->
  Forall (service_event target s) t.
Proof.
  intros Hin (c1 & c2 & E).
  pose proof (characteristic_events h target c c1) as A. rewrite E in A.
  cbn [snd] in A.
  destruct (readable c) eqn:R.
  - eapply Forall_impl; [|exact A]. intros e He. now exists c.
  - unfold harvest_characteristic in E. rewrite R in E.
    injection E as _ <-. constructor.
Qed.

Lemma service_step (h : Host) (target : string) (s : Service) (t0 : list event) :
  step_of (harvest_service h target) s t0 ->
  exists t,
    t0 = service_section (s, t)
    /\ attempted t = map char_uuid (filter readable (characteristics s))
    /\ Forall (service_event target s) t
    /\ reads_accounted target t.
Proof.
  intros (c1 & c2 & E).
  destruct (for_each_returns _ (harvest_characteristic_returns h target)
              (characteristics s) c1) as (c' & ts & E' & F).
  unfold harvest_service, bind, print, emit in E. rewrite E' in E.
  injection E as _ <-. exists (List.concat ts). split; [reflexivity|].
  split; [|split].
  - assert (H : harvested (flat_map (fun c => [c]) (characteristics s))
                  (List.concat ts)).
    { apply harvested_concat. eapply Forall2_impl; [|exact F].
      intros c t. apply harvested_characteristic. }
    rewrite flat_map_singleton in H. apply H.
  - clear E'.
    assert (G : forall cs ts',
               Forall2 (step_of (harvest_characteristic h target)) cs ts' ->
               (forall c, In c cs -> In c (characteristics s)) ->
               Forall (service_event target s) (List.concat ts')).
    { induction 1 as [|c t cs ts' St _ IH]; intros G; [constructor|].
      cbn [List.concat]. apply Forall_app. split.
      - apply (characteristic_step h target s c); [apply G; now left | exact St].
      - apply IH. intros x Hx. apply G. now right. }
    apply (G _ _ F). now intros.
  - apply reads_accounted_concat. clear E'.
    induction F as [|c t cs ts St _ IH]; constructor; [|exact IH].
    now apply (reads_accounted_characteristic h target c).
Qed.

(** X19.  The harvest is made of one section per enumerated service, in
    the order of the enumeration: the line that names the service, then
    only events of readable characteristics of that service, in which
    exactly these characteristics are attempted, each once and in their
    order, and every read is such an attempt or the second read of the
    target characteristic that follows its successful attempt.  A service
    is named even when none of its characteristics is readable. *)
Theorem X19_sections_of_the_harvest (h : Host) (characteristic_uuid : string)
    (services : list Service) (c0 : counters) :
  exists ts,
    snd (harvest h characteristic_uuid services c0)
    = List.concat (map service_section (combine services ts))
    /\ Forall2
         (fun s t =>
            attempted t = map char_uuid (filter readable (characteristics s))
            /\ Forall (service_event characteristic_uuid s) t
            /\ reads_accounted characteristic_uuid t)
         services ts.
Proof.
  destruct (for_each_returns _ (harvest_service_returns h characteristic_uuid)
              services c0) as (c' & ts0 & E & F).
  unfold harvest. rewrite E. cbn [snd]. clear E.
  induction F as [|s t0 ss ts0 St _ (ts & E & IH)].
  - exists []. split; [reflexivity | constructor].
  - destruct (service_step h characteristic_uuid s t0 St) as (t & -> & A & N & R).
    exists (t :: ts). split; [|now constructor].
    cbn [combine map List.concat]. now rewrite E.
Qed.

(** ** The service filter as a substring test *)

Module StrFacts.

Lemma prefix_iff (needle hay : string) :
  String.prefix needle hay = true <-> exists post, hay = (needle ++ post)%string.
Proof.
  revert hay. induction needle as [|a n IH]; intros hay.
  - split; [intros _; now exists hay | now destruct hay].
  - destruct hay as [|b t]; cbn [String.prefix].
    + split; [discriminate | intros (post & E); discriminate E].
    + destruct (ascii_dec a b) as [->|N].
      * rewrite IH. split; intros (post & E); exists post.
        -- cbn. now rewrite E.
        -- cbn in E. now injection E.
      * split; [discriminate|]. intros (post & E). cbn in E.
        injection E as E _. now contradiction N.
Qed.

Lemma contains_iff (needle hay : string) :
  Str.contains needle hay = true
  <-> exists pre post, hay = (pre ++ needle ++ post)%string.
Proof.
  induction hay as [|b t IH]; cbn [Str.contains].
  - destruct (String.prefix needle "") eqn:P.
    + split; [intros _|reflexivity]. apply prefix_iff in P.
      destruct P as (post & E). now exists "", post.
    + split; [discriminate|]. intros (pre & post & E).
      destruct pre; [|discriminate E]. cbn in E.
      assert (String.prefix needle "" = true) by (apply prefix_iff; now exists post).
      congruence.
  - destruct (String.prefix needle (String b t)) eqn:P.
    + split; [intros _|reflexivity]. apply prefix_iff in P.
      destruct P as (post & E). now exists "", post.
    + rewrite IH. split.
      * intros (pre & post & E). exists (String b pre), post. cbn. now rewrite E.
      * intros (pre & post & E). destruct pre as [|c pre].
        -- cbn in E. assert (String.prefix needle (String b t) = true)
             by (apply prefix_iff; now exists post). congruence.
        -- cbn in E. injection E as _ E. now exists pre, post.
Qed.

End StrFacts.

(** X20.  main.py keeps a service exactly when its description, with the
    letters A..Z lowered, holds one of the three vendor names as a
    contiguous substring, wherever it stands, also inside a longer word;
    the UUID of the service plays no part. *)
Theorem X20_relevant_is_a_substring_test (s : Service) :
  relevant s = true
  <-> exists name pre post,
        In name vendor_names
        /\ Str.lower (description s) = (pre ++ name ++ post)%string.
Proof.
  unfold relevant, vendor_names. rewrite !orb_true_iff, !StrFacts.contains_iff.
  split.
  - intros [[(pre & post & E)|(pre & post & E)]|(pre & post & E)];
      eexists _, pre, post; (split; [|exact E]); cbn; tauto.
  - intros (name & pre & post & [<-|[<-|[<-|[]]]] & E);
      [left; left | left; right | right]; now exists pre, post.
Qed.

(** ** mainpretty.py *)

Module PrettyFacts.
Import Binary64 Binary64Facts Reporter ReporterFacts.
Local Open Scope Q_scope.

Lemma int_div_between (a b : Z) (lo hi : Q) :
  (0 < b)%Z -> representable lo -> representable hi ->
  lo <= inject_Z a / inject_Z b <= hi ->
  exists v, int_div a b = Val (Finite v)
            /\ v == nearest (inject_Z a / inject_Z b) /\ lo <= v <= hi.
Proof.
  intros Hb Rlo Rhi B.
  destruct (round_between lo _ hi Rlo Rhi B) as (v & E & N & V).
  exists v. unfold int_div. rewrite (proj2 (Z.eqb_neq b 0)) by lia.
  rewrite E. now split.
Qed.

Lemma quotient_bounds (a n : Z) :
  (0 < n)%Z ->
  inject_Z (a / n) <= inject_Z a / inject_Z n
  /\ inject_Z a / inject_Z n <= inject_Z (a / n) + 1 - 1 / inject_Z n.
Proof.
  intros Hn.
  assert (Pn : 0 < inject_Z n) by now rewrite <- (Zlt_Qlt 0).
  pose proof (Z.div_mod a n ltac:(lia)) as D.
  pose proof (Z.mod_pos_bound a n Hn) as [M0 M1].
  assert (E : inject_Z a == inject_Z n * inject_Z (a / n) + inject_Z (a mod n)).
  { rewrite <- inject_Z_mult, <- inject_Z_plus. now rewrite <- D. }
  assert (R0 : 0 <= inject_Z (a mod n)) by now rewrite <- (Zle_Qle 0).
  assert (R1 : inject_Z (a mod n) <= inject_Z n - 1).
  { change 1 with (inject_Z 1). rewrite <- inject_Z_minus, <- Zle_Qle. lia. }
  set (q := inject_Z (a / n)) in *. set (r := inject_Z (a mod n)) in *.
  set (N := inject_Z n) in *. set (A := inject_Z a) in *.
  split.
  - apply Qle_shift_div_l; [exact Pn|]. nra.
  - apply Qle_shift_div_r; [exact Pn|].
    assert (X : (q + 1 - 1 / N) * N == q * N + N - 1) by (field; lra).
    rewrite X. nra.
Qed.

(** The largest binary64 number below [q + 1] on the grid of [2 ^ -47],
    for a small [q]. *)
Lemma representable_below (q : Z) :
  (0 <= q <= 40)%Z -> representable (inject_Z q + 1 - (1 # 2 ^ 47)).
Proof.
  intros Hq. exists ((q + 1) * 2 ^ 47 - 1)%Z, (-47)%Z.
  assert (T : two (-47) == 1 # 2 ^ 47) by reflexivity.
  assert (E : inject_Z q + 1 - (1 # 2 ^ 47)
              == inject_Z ((q + 1) * 2 ^ 47 - 1) * two (-47)).
  { rewrite T, inject_Z_minus, inject_Z_mult, inject_Z_plus.
    change (inject_Z 1) with 1. change (inject_Z (2 ^ 47)) with (/ (1 # 2 ^ 47)).
    field. discriminate. }
  split; [exact E|]. split; [lia|]. split; [lia|].
  assert (Q0 : 0 <= inject_Z q) by (rewrite <- (Zle_Qle 0); lia).
  assert (Q1 : inject_Z q <= 40).
  { change 40 with (inject_Z 40). rewrite <- Zle_Qle. lia. }
  apply Qabs_Qlt_condition.
  assert (B : 41 < two 1024) by reflexivity.
  assert (S : 0 < 1 # 2 ^ 47) by reflexivity.
  assert (S' : (1 # 2 ^ 47) < 1) by reflexivity.
  split; lra.
Qed.

(** The frame of the loop index [i] of a duration [n >= 1]. *)
Lemma frame_at_spec (n i : Z) :
  (1 <= n)%Z -> (0 <= i < n)%Z ->
  exists k pct,
    (0 <= k <= 40)%Z /\ (0 <= pct <= 100)%Z
    /\ Pretty.frame_at n i
       = Val {| bar := repeat Filled (Z.to_nat k) ++ repeat Blank (Z.to_nat (40 - k));
                percent := pct |}
    /\ ((n <= 2 ^ 47)%Z -> k = (40 * (i + 1) / n)%Z)
    /\ ((i + 1)%Z = n -> k = 40%Z /\ pct = 100%Z).
Proof.
  intros Hn Hi.
  assert (Pn : 0 < inject_Z n) by (rewrite <- (Zlt_Qlt 0); lia).
  assert (R0 : representable 0) by (apply (representable_Z 0); reflexivity).
  assert (R1 : representable 1) by (apply (representable_Z 1); reflexivity).
  assert (R40 : representable 40) by (apply (representable_Z 40); reflexivity).
  assert (I0 : 0 < inject_Z (i + 1)) by (rewrite <- (Zlt_Qlt 0); lia).
  assert (I1 : inject_Z (i + 1) <= inject_Z n) by (rewrite <- Zle_Qle; lia).
  assert (A : inject_Z (40 * (i + 1)) == 40 * inject_Z (i + 1))
    by now rewrite inject_Z_mult.
  set (x := inject_Z (40 * (i + 1)) / inject_Z n).
  set (y := inject_Z (i + 1) / inject_Z n).
  assert (Y : 0 <= y <= 1).
  { unfold y. split.
    - apply Qle_shift_div_l; [exact Pn | lra].
    - apply Qle_shift_div_r; [exact Pn | lra]. }
  assert (X : x == 40 * y).
  { unfold x, y. rewrite A. field. lra. }
  destruct (int_div_between (40 * (i + 1)) n 0 40 ltac:(lia) R0 R40)
    as (v & Ev & Nv & V); [fold x; rewrite X; lra|]. fold x in Nv.
  destruct (int_div_between (i + 1) n 0 1 ltac:(lia) R0 R1)
    as (r & Er & Nr & Rr); [exact Y|]. fold y in Nr.
  destruct (scaled_range 100 (r * 100) r ltac:(lia) Rr (Qmult_comm _ _))
    as (w & pct & Ew & Nw & _ & Iw & Fw & Hp).
  assert (K : (0 <= Qfloor v <= 40)%Z).
  { split.
    - change 0%Z with (Qfloor 0). now apply Qfloor_resp_le.
    - rewrite <- (Qfloor_Z 40). now apply Qfloor_resp_le. }
  exists (Qfloor v), pct. split; [exact K|]. split; [exact Hp|]. split; [|split].
  - unfold Pretty.frame_at, Pretty.bar_length. rewrite Ev. cbn [and_then].
    rewrite (py_int_floor v) by apply V. cbn [and_then].
    rewrite (py_repeat_small 10 Filled (Qfloor v)) by lia. cbn [and_then].
    rewrite (py_repeat_small 1 Blank (40 - Qfloor v)) by lia. cbn [and_then].
    rewrite Er. cbn [and_then mul]. rewrite Ew, Iw. reflexivity.
  - intros B. set (q := (40 * (i + 1) / n)%Z).
    destruct (quotient_bounds (40 * (i + 1)) n ltac:(lia)) as [L U].
    fold q in L, U. fold x in L, U.
    assert (Hq : (0 <= q <= 40)%Z).
    { unfold q. split; [apply Z.div_pos; lia|].
      apply Z.div_le_upper_bound; lia. }
    assert (U' : x <= inject_Z q + 1 - (1 # 2 ^ 47)).
    { eapply Qle_trans; [exact U|].
      assert (S : (1 # 2 ^ 47) <= 1 / inject_Z n).
      { apply Qle_shift_div_l; [exact Pn|].
        assert (N47 : inject_Z n <= inject_Z (2 ^ 47)) by now rewrite <- Zle_Qle.
        assert (T : (1 # 2 ^ 47) * inject_Z (2 ^ 47) == 1) by reflexivity.
        assert (P47 : 0 < 1 # 2 ^ 47) by reflexivity. nra. }
      lra. }
    destruct (round_between (inject_Z q) x (inject_Z q + 1 - (1 # 2 ^ 47)))
      as (v' & Ev' & _ & V0 & V1).
    + apply representable_Z. lia.
    + now apply representable_below.
    + now split.
    + assert (v' = v).
      { unfold int_div in Ev. rewrite (proj2 (Z.eqb_neq n 0)) in Ev by lia.
        fold x in Ev. rewrite Ev' in Ev. now injection Ev. }
      subst v'. apply Z.le_antisymm.
      * apply Z.lt_succ_r. rewrite Zlt_Qlt.
        eapply Qle_lt_trans; [apply Qfloor_le|].
        unfold Z.succ. rewrite inject_Z_plus. change (inject_Z 1) with 1.
        assert (P47 : 0 < 1 # 2 ^ 47) by reflexivity. lra.
      * rewrite <- (Qfloor_Z q). now apply Qfloor_resp_le.
  - intros Last.
    assert (Y1 : y == 1).
    { unfold y. rewrite Last. field. lra. }
    assert (X40 : x == 40) by (rewrite X, Y1; reflexivity).
    assert (V40 : v == 40).
    { rewrite Nv, (nearest_comp _ _ X40). now apply nearest_exact. }
    assert (R1' : r == 1).
    { rewrite Nr, (nearest_comp _ _ Y1). now apply nearest_exact. }
    split.
    + rewrite (Qfloor_comp _ _ V40). reflexivity.
    + rewrite Fw, (Qfloor_comp _ _ Nw).
      assert (W : r * 100 == inject_Z 100) by (rewrite R1'; reflexivity).
      rewrite (Qfloor_comp _ _ (nearest_comp _ _ W)).
      rewrite (Qfloor_comp _ _ (nearest_exact _ (representable_Z 100 eq_refl))).
      apply Qfloor_Z.
Qed.

Lemma frames_spec (n : Z) (indices : list Z) :
  (1 <= n)%Z -> Forall (fun i => (0 <= i < n)%Z) indices ->
  exists fs,
    Pretty.frames n indices = (fs, None)
    /\ Forall2 (fun i f => Pretty.frame_at n i = Val f) indices fs.
Proof.
  intros Hn H. induction H as [|i rest Hi _ (fs & E & F)].
  - exists []. split; [reflexivity | constructor].
  - destruct (frame_at_spec n i Hn Hi) as (k & pct & _ & _ & Ef & _).
    eexists (_ :: fs). cbn [Pretty.frames]. rewrite Ef, E.
    split; [reflexivity|]. now constructor.
Qed.

Lemma Forall2_nth_error {A B} (P : A -> B -> Prop) (xs : list A) (ys : list B) :
  Forall2 P xs ys ->
  forall i x y, nth_error xs i = Some x -> nth_error ys i = Some y -> P x y.
Proof.
  induction 1 as [|a b xs ys H _ IH]; intros [|i] x y Hx Hy; try discriminate.
  - cbn in Hx, Hy. injection Hx as <-. now injection Hy as <-.
  - cbn in Hx, Hy. now apply (IH i).
Qed.

Lemma range_spec (n : Z) :
  Forall (fun i => (0 <= i < n)%Z) (Pretty.range n)
  /\ List.length (Pretty.range n) = Z.to_nat n
  /\ forall i, (i < Z.to_nat n)%nat ->
               nth_error (Pretty.range n) i = Some (Z.of_nat i).
Proof.
  unfold Pretty.range. split; [|split].
  - apply Forall_forall. intros i Hi. apply in_map_iff in Hi.
    destruct Hi as (k & <- & Hk). apply in_seq in Hk. lia.
  - now rewrite length_map, length_seq.
  - intros i Hi. rewrite nth_error_map, nth_error_seq.
    destruct (Nat.ltb_spec i (Z.to_nat n)); [reflexivity | lia].
Qed.

End PrettyFacts.

(** X21.  The animation of mainpretty.py, called with a whole number of
    seconds [n]: for [n < 1] it writes no frame; for [n >= 1] it does not
    fail and writes [n] frames (one per second), each with a bar of
    exactly 40 segments and a percentage between 0 and 100; the last
    frame is the full bar at 100 per cent, so the bar is complete when
    the function returns, before the scan that follows it has started;
    and up to [n = 2^47] the bar of second [i+1] has
    [floor (40 (i+1) / n)] filled segments. *)
Theorem X21_blocking_animation (n : Z) :
  ((n < 1)%Z -> Pretty.animate_progress_bar n = ([], None))
  /\ ((1 <= n)%Z ->
      exists fs,
        Pretty.animate_progress_bar n = (fs, None)
        /\ List.length fs = Z.to_nat n
        /\ (forall i f,
              nth_error fs i = Some f ->
              List.length (bar f) = 40%nat
              /\ (0 <= percent f <= 100)%Z
              /\ ((n <= 2 ^ 47)%Z ->
                  filled_segments f = Z.to_nat (40 * (Z.of_nat i + 1) / n)))
        /\ nth_error fs (Z.to_nat n - 1) = Some full_frame).
Proof.
  unfold Pretty.animate_progress_bar. split.
  - intros H. unfold Pretty.range. replace (Z.to_nat n) with 0%nat by lia.
    reflexivity.
  - intros Hn. destruct (PrettyFacts.range_spec n) as (Rg & Rl & Rn).
    destruct (PrettyFacts.frames_spec n (Pretty.range n) Hn Rg) as (fs & E & F).
    exists fs. split; [exact E|].
    assert (L : List.length fs = Z.to_nat n).
    { rewrite <- Rl. symmetry. eapply Forall2_length, F. }
    split; [exact L|].
    assert (At : forall i f, nth_error fs i = Some f ->
                   (i < Z.to_nat n)%nat
                   /\ Pretty.frame_at n (Z.of_nat i) = Val f).
    { intros i f Hf.
      assert (Hi : (i < Z.to_nat n)%nat).
      { rewrite <- L. apply nth_error_Some. congruence. }
      split; [exact Hi|].
      exact (PrettyFacts.Forall2_nth_error _ _ _ F i _ _ (Rn i Hi) Hf). }
    split.
    + intros i f Hf. destruct (At i f Hf) as (Hi & Ef).
      destruct (PrettyFacts.frame_at_spec n (Z.of_nat i) Hn ltac:(lia))
        as (k & pct & Hk & Hp & Ef' & Fl & _).
      assert (Vf : f = {| bar := repeat Filled (Z.to_nat k)
                                    ++ repeat Blank (Z.to_nat (40 - k));
                           percent := pct |}) by congruence.
      rewrite Vf. cbn [bar percent].
      split; [rewrite length_app, !repeat_length; lia|]. split; [exact Hp|].
      intros B. unfold filled_segments. cbn [bar].
      rewrite ReporterRun.filled_of_bar. now rewrite (Fl B).
    + assert (Hi : (Z.to_nat n - 1 < Z.to_nat n)%nat) by lia.
      destruct (nth_error fs (Z.to_nat n - 1)) as [f|] eqn:Hf.
      2:{ apply nth_error_None in Hf. lia. }
      destruct (At _ f Hf) as (_ & Ef).
      destruct (PrettyFacts.frame_at_spec n (Z.of_nat (Z.to_nat n - 1)) Hn
                  ltac:(lia)) as (k & pct & _ & _ & Ef' & _ & Last).
      destruct Last as [-> ->]; [lia|].
      rewrite Ef' in Ef. injection Ef as <-. reflexivity.
Qed.

Lemma X21_blocking_animation_witness :
  exists fs,
    Pretty.animate_progress_bar 20 = (fs, None)
    /\ List.length fs = Z.to_nat 20
    /\ (forall i f,
          nth_error fs i = Some f ->
          List.length (bar f) = 40%nat
          /\ (0 <= percent f <= 100)%Z
          /\ ((20 <= 2 ^ 47)%Z ->
              filled_segments f = Z.to_nat (40 * (Z.of_nat i + 1) / 20)))
    /\ nth_error fs (Z.to_nat 20 - 1) = Some full_frame.
Proof. apply (X21_blocking_animation 20). lia. Defined.

Section PrettyFound.
Variables (h : Host) (address : string) (retry_delay scan_timeout : Q)
  (d : BLEDevice) (k : nat).
Hypothesis scans_before :
  forall i, (i < k)%nat -> scan_answer h i address scan_timeout = Ok None.
Hypothesis scan_finds : scan_answer h k address scan_timeout = Ok (Some d).

Lemma pretty_locate_found (n j : nat) (c : counters) :
  n_scans c = j -> (j <= k)%nat -> (k < j + n)%nat ->
  exists c',
    MainPretty.locate h address retry_delay scan_timeout false (seq j n) c
    = (Val (Some d), c',
       flat_map (Pretty.failed_attempt address retry_delay scan_timeout)
         (seq j (k - j))
       ++ [FindDevice address scan_timeout (Ok (Some d))]).
Proof.
  revert j c. induction n as [|n IH]; intros j c Hc Hj Hk; [lia|].
  subst j. cbn [seq MainPretty.locate].
  unfold bind at 1. cbv [ret]. cbv beta iota zeta.
  unfold bind at 1. unfold find_device_by_address at 1.
  destruct (Nat.eq_dec (n_scans c) k) as [Ek|Nj].
  - rewrite Ek, scan_finds. cbv beta iota zeta. rewrite Nat.sub_diag.
    eexists. reflexivity.
  - rewrite scans_before by lia. cbv beta iota zeta.
    destruct (IH (S (n_scans c))
                {| n_scans := S (n_scans c); n_reads := n_reads c |})
      as (c' & E); [reflexivity | lia | lia|].
    unfold bind, print, sleep, emit. rewrite E. cbv beta iota zeta.
    eexists. replace (k - n_scans c)%nat with (S (k - S (n_scans c))) by lia.
    cbn [seq flat_map Pretty.failed_attempt app]. reflexivity.
Qed.
End PrettyFound.

(** X22.  The retry loop of mainpretty.py without [-v]: when the scan of
    attempt [k+1] (of three) is the first that returns a device, the loop
    returns that device after exactly [k+1] scans, one per attempt; each
    of the [k] failed attempts is a scan, the retry notice and one
    suspension for [retry_delay], and nothing follows the scan that found
    the device.  (The loop of main.py scans twice per attempt and stops
    without [-v].) *)
Theorem X22_pretty_locator (h : Host) (address : string)
    (retry_delay scan_timeout : Q) (d : BLEDevice) (k : nat) :
  (k < retries)%nat ->
  (forall i, (i < k)%nat -> scan_answer h i address scan_timeout = Ok None) ->
  scan_answer h k address scan_timeout = Ok (Some d) ->
  run (MainPretty.locate h address retry_delay scan_timeout false (seq 0 retries))
  = (Val (Some d),
     flat_map (Pretty.failed_attempt address retry_delay scan_timeout) (seq 0 k)
     ++ [FindDevice address scan_timeout (Ok (Some d))]).
Proof.
  intros Hk H1 H2.
  destruct (pretty_locate_found h address retry_delay scan_timeout d k H1 H2
              retries 0 {| n_scans := 0; n_reads := 0 |}) as (c' & E);
    [reflexivity | lia | lia|].
  rewrite Nat.sub_0_r in E. now apply run_of with (c' := c').
Qed.

Lemma X22_pretty_locator_witness :
  run (MainPretty.locate Scenario.seen_once Scenario.address 2 20 false
         (seq 0 retries))
  = (Val (Some Scenario.device),
     flat_map (Pretty.failed_attempt Scenario.address 2 20) (seq 0 0)
     ++ [FindDevice Scenario.address 20 (Ok (Some Scenario.device))]).
Proof.
  apply (X22_pretty_locator Scenario.seen_once Scenario.address 2 20
           Scenario.device 0).
  - unfold retries. lia.
  - intros i Hi. lia.
  - reflexivity.
Defined.

(** X23.  A run of mainpretty.py without [-v] reaches the device.  When
    the scan of attempt [k+1] finds the device and the connection, the
    liveness query and the service listing succeed, the coroutine returns;
    its trace is the [k] failed attempts, the scan that found the device,
    the connection to that device with [connection_timeout], the two
    queries, the harvest of the services kept by the filter (the UUID
    match included) and, last, the disconnection.  Every readable
    characteristic of the kept services is read, in order, and every read
    fault is reported by one line. *)
Theorem X23_pretty_run_without_verbose (h : Host)
    (address service_uuid characteristic_uuid : string)
    (connection_timeout retry_delay scan_timeout : Q)
    (d : BLEDevice) (k : nat) (b : bool) (services : list Service) :
  (k < retries)%nat ->
  (forall i, (i < k)%nat -> scan_answer h i address scan_timeout = Ok None) ->
  scan_answer h k address scan_timeout = Ok (Some d) ->
  connect_answer h d connection_timeout = Ok tt ->
  is_connected_answer h = Ok b ->
  get_services_answer h = Ok services ->
  exists t,
    run (Pretty.gather_bgx_data h address service_uuid characteristic_uuid
           connection_timeout retry_delay scan_timeout)
    = (Val tt,
       flat_map (Pretty.failed_attempt address retry_delay scan_timeout) (seq 0 k)
       ++ [FindDevice address scan_timeout (Ok (Some d));
           Connect d connection_timeout (Ok tt);
           IsConnected (Ok b);
           GetServices (Ok services)]
       ++ t ++ [Disconnect])
    /\ harvested
         (flat_map characteristics
            (filter (MainPretty.relevant service_uuid) services)) t.
Proof.
  intros Hk H1 H2 Hc Hl Hs.
  destruct (pretty_locate_found h address retry_delay scan_timeout d k H1 H2
              retries 0 {| n_scans := 0; n_reads := 0 |}) as (c' & E);
    [reflexivity | lia | lia|].
  rewrite Nat.sub_0_r in E.
  destruct (harvest_returns h characteristic_uuid
              (filter (MainPretty.relevant service_uuid) services) c')
    as (c'' & t & Eh & Hv).
  exists t. split; [|exact Hv].
  unfold run, Pretty.gather_bgx_data. unfold bind at 1. rewrite E.
  cbv beta iota zeta.
  unfold try_except, with_BleakClient, finally, Pretty.connected_phase,
    is_connected, get_services, bind, emit, lift_answer, ret.
  rewrite Hc, Hl, Hs. cbv beta iota zeta. rewrite Eh. cbv beta iota zeta.
  f_equal. rewrite <- !app_assoc. cbn [app]. reflexivity.
Qed.

Lemma X23_pretty_run_without_verbose_witness :
  exists t,
    run (Pretty.gather_bgx_data (Scenario.present [Scenario.target_service])
           Scenario.address Scenario.service_id Scenario.characteristic_id
           10 2 20)
    = (Val tt,
       flat_map (Pretty.failed_attempt Scenario.address 2 20) (seq 0 0)
       ++ [FindDevice Scenario.address 20 (Ok (Some Scenario.device));
           Connect Scenario.device 10 (Ok tt);
           IsConnected (Ok true);
           GetServices (Ok [Scenario.target_service])]
       ++ t ++ [Disconnect])
    /\ harvested
         (flat_map characteristics
            (filter (MainPretty.relevant Scenario.service_id)
               [Scenario.target_service])) t.
Proof.
  apply (X23_pretty_run_without_verbose
           (Scenario.present [Scenario.target_service])
           Scenario.address Scenario.service_id Scenario.characteristic_id
           10 2 20 Scenario.device 0 true [Scenario.target_service]).
  - unfold retries. lia.
  - intros i Hi. lia.
  - reflexivity.
  - reflexivity.
  - reflexivity.
  - reflexivity.
Defined.
